(** * KitchenOS: shopping-list derivation and weekly-planner day rotation

    A shallow embedding of [src/lib/shopping-utils.ts] and of the planner
    helper [getNextAvailableDay] ([lib/planner-utils]), with the properties
    the specification states about them.

    Conventions of the embedding.
    - A JavaScript string is a [string]: the bytes of its UTF-8 encoding.
    - A JavaScript number that counts things is a [Z]; an array length and an
      array index are [nat].
    - A plain JavaScript object used as a record of data properties is the
      list of its own properties in the order [Object.entries] enumerates
      them (module [JsObject]).
    - [Record<string, boolean>] is a [gmap string bool]; [new Set(strings)] is
      a [gset string]. *)

From Stdlib Require Import ZArith Ascii String Sorted.
From stdpp Require Import base strings list sorting gmap pretty.

Local Open Scope string_scope.
Local Open Scope list_scope.
Local Open Scope nat_scope.

(** ** JavaScript strings *)

Module JsString.

(** The line feed of ['\n']. *)
Definition LF : string := String "010"%char "".

(** [lines.join(sep)]. *)
Fixpoint join (sep : string) (lines : list string) : string :=
  match lines with
  | [] => ""
  | [x] => x
  | x :: rest => x +:+ sep +:+ join sep rest
  end.

(** A string is truthy when it is not the empty string. *)
Definition truthy (s : string) : bool :=
  match s with
  | "" => false
  | String _ _ => true
  end.

(** [String(index)] for an array index: its decimal digits. *)
Definition of_index (index : nat) : string := pretty index.

Definition code (c : ascii) : N := N_of_ascii c.

(** White space and line terminators of ECMAScript that take one byte in
    UTF-8: TAB, LF, VT, FF, CR and SPACE. *)
Definition ws1 (c : ascii) : bool :=
  ((9 <=? code c) && (code c <=? 13) || (code c =? 32))%N.

(** Two bytes: U+00A0 (C2 A0). *)
Definition ws2 (c1 c2 : ascii) : bool :=
  ((code c1 =? 194) && (code c2 =? 160))%N.

(** Three bytes: U+1680 (E1 9A 80), U+2000..U+200A (E2 80 80..8A),
    U+2028 and U+2029 (E2 80 A8, E2 80 A9), U+202F (E2 80 AF),
    U+205F (E2 81 9F), U+3000 (E3 80 80) and U+FEFF (EF BB BF). *)
Definition ws3 (c1 c2 c3 : ascii) : bool :=
  ((code c1 =? 225) && (code c2 =? 154) && (code c3 =? 128)
   || (code c1 =? 226) && (code c2 =? 128)
      && ((128 <=? code c3) && (code c3 <=? 138)
          || (code c3 =? 168) || (code c3 =? 169) || (code c3 =? 175))
   || (code c1 =? 226) && (code c2 =? 129) && (code c3 =? 159)
   || (code c1 =? 227) && (code c2 =? 128) && (code c3 =? 128)
   || (code c1 =? 239) && (code c2 =? 187) && (code c3 =? 191))%N.

(** Removes the white-space characters at the front of [s], where [p1],
    [p2] and [p3] recognise a white-space character of one, two and three
    bytes from the bytes in the order they are met. *)
Fixpoint strip (p1 : ascii → bool) (p2 : ascii → ascii → bool)
    (p3 : ascii → ascii → ascii → bool) (s : string) : string :=
  match s with
  | "" => ""
  | String c1 s1 =>
      if p1 c1 then strip p1 p2 p3 s1
      else
        match s1 with
        | "" => s
        | String c2 s2 =>
            if p2 c1 c2 then strip p1 p2 p3 s2
            else
              match s2 with
              | "" => s
              | String c3 s3 =>
                  if p3 c1 c2 c3 then strip p1 p2 p3 s3 else s
              end
        end
  end.

Definition trimStart (s : string) : string := strip ws1 ws2 ws3 s.

(** The strings that [strip] removes entirely: sequences of white-space
    characters. *)
Inductive blank (p1 : ascii → bool) (p2 : ascii → ascii → bool)
    (p3 : ascii → ascii → ascii → bool) : string → Prop :=
  | blank_nil : blank p1 p2 p3 ""
  | blank_1 c1 s :
      p1 c1 = true → blank p1 p2 p3 s → blank p1 p2 p3 (String c1 s)
  | blank_2 c1 c2 s :
      p2 c1 c2 = true → blank p1 p2 p3 s →
      blank p1 p2 p3 (String c1 (String c2 s))
  | blank_3 c1 c2 c3 s :
      p3 c1 c2 c3 = true → blank p1 p2 p3 s →
      blank p1 p2 p3 (String c1 (String c2 (String c3 s))).

(** A string of white space only. *)
Definition whitespace (s : string) : Prop := blank ws1 ws2 ws3 s.

(** From the end the bytes of a character are met last byte first. *)
Definition trimEnd (s : string) : string :=
  String.rev
    (strip ws1 (λ c2 c1, ws2 c1 c2) (λ c3 c2 c1, ws3 c1 c2 c3) (String.rev s)).

(** [s.trim()]. *)
Definition trim (s : string) : string := trimEnd (trimStart s).

End JsString.

(** ** Plain JavaScript objects as ordered property lists *)

Module JsObject.

(** The property keys that are array indices: the canonical decimal
    numerals of the integers from 0 to 2^32 - 2. *)
Definition is_digit (c : ascii) : bool :=
  ((48 <=? N_of_ascii c) && (N_of_ascii c <=? 57))%N.

Fixpoint digits_value (acc : N) (s : string) : option N :=
  match s with
  | "" => Some acc
  | String c s' =>
      if is_digit c
      then digits_value (10 * acc + (N_of_ascii c - 48))%N s'
      else None
  end.

Definition array_index (k : string) : option N :=
  match k with
  | "" => None
  | String c rest =>
      if (N_of_ascii c =? 48)%N && JsString.truthy rest then None
      else
        match digits_value 0 k with
        | Some n => if (n <? 4294967295)%N then Some n else None
        | None => None
        end
  end.

(** [key_before k1 k2]: a property [k1] may be enumerated before a later
    created property [k2]. Array indices come first, in ascending numeric
    order; the other keys follow in the order of their creation. *)
Definition key_before (k1 k2 : string) : Prop :=
  match array_index k1, array_index k2 with
  | Some n1, Some n2 => (n1 < n2)%N
  | Some _, None => True
  | None, Some _ => False
  | None, None => True
  end.

Global Instance key_before_dec k1 k2 : Decision (key_before k1 k2).
Proof.
  unfold key_before.
  destruct (array_index k1), (array_index k2); apply _.
Defined.

Section properties.
Context {V : Type}.

(** The own properties, as [Object.entries] lists them. *)
Definition t : Type := list (string * V).

Definition empty : t := [].

Definition entries (o : t) : list (string * V) := o.

Definition values (o : t) : list V := o.*2.

Definition keys (o : t) : list string := o.*1.

(** [o[k]] for an own property (no prototype chain). *)
Fixpoint get (o : t) (k : string) : option V :=
  match o with
  | [] => None
  | (k', v) :: o' => if String.eqb k' k then Some v else get o' k
  end.

Definition has (o : t) (k : string) : bool :=
  match get o k with Some _ => true | None => false end.

(** Overwriting the value of an existing property keeps its place. *)
Fixpoint overwrite (k : string) (v : V) (o : t) : t :=
  match o with
  | [] => []
  | (k', v') :: o' =>
      if String.eqb k' k then (k, v) :: o' else (k', v') :: overwrite k v o'
  end.

(** A new array-index key goes before the first key that is a larger
    index or no index at all. *)
Fixpoint insert_index (n : N) (k : string) (v : V) (o : t) : t :=
  match o with
  | [] => [(k, v)]
  | (k', v') :: o' =>
      match array_index k' with
      | Some m =>
          if (m <? n)%N then (k', v') :: insert_index n k v o'
          else (k, v) :: o
      | None => (k, v) :: o
      end
  end.

(** Defining the data property [k] with value [v]. *)
Definition define (o : t) (k : string) (v : V) : t :=
  if has o k then overwrite k v o
  else
    match array_index k with
    | Some n => insert_index n k v o
    | None => o ++ [(k, v)]
    end.

(** [Object.fromEntries(es)]: the properties are defined one by one on a
    fresh object. *)
Definition fromEntries (es : list (string * V)) : t :=
  fold_left (λ o e, define o e.1 e.2) es empty.

(** The lists that are the enumeration of some object: no key twice, and
    the keys in the enumeration order. *)
Definition wf (o : t) : Prop :=
  NoDup (keys o) ∧ StronglySorted key_before (keys o).

Global Instance wf_dec (o : t) : Decision (wf o).
Proof. unfold wf. apply _. Defined.

End properties.

Arguments t : clear implicits.

End JsObject.

(** ** JavaScript arrays *)

Module JsArray.
Section filter.
Context {A : Type}.

(** The callback of [filter] receives the element and its index. *)
Fixpoint filter_from (index : nat) (p : A → nat → bool) (xs : list A)
    : list A :=
  match xs with
  | [] => []
  | x :: xs' =>
      if p x index then x :: filter_from (S index) p xs'
      else filter_from (S index) p xs'
  end.

(** [xs.filter(p)]. *)
Definition filter (p : A → nat → bool) (xs : list A) : list A :=
  filter_from 0 p xs.

(** [xs.indexOf(x)]: the first index holding [x], or -1. *)
Fixpoint indexOf_from `{EqDecision A} (index : Z) (xs : list A) (x : A)
    : Z :=
  match xs with
  | [] => (-1)%Z
  | y :: xs' =>
      if decide (y = x) then index else indexOf_from (index + 1)%Z xs' x
  end.

Definition indexOf `{EqDecision A} (xs : list A) (x : A) : Z :=
  indexOf_from 0%Z xs x.

End filter.
End JsArray.

(** ** src/lib/api.ts: the data model *)

Record ShoppingItem : Type := {
  name : string;
  amount : string;
  checked : option bool
}.

(** [interface ShoppingList { [category: string]: ShoppingItem[] }] *)
Abbreviation ShoppingList := (JsObject.t (list ShoppingItem)).

(** ** src/lib/shopping-utils.ts *)

(** [type RemainingItemsByCategory = Record<string, ShoppingItem[]>] *)
Abbreviation RemainingItemsByCategory := (JsObject.t (list ShoppingItem)).

(** [checkedItems[key]] is truthy: the key is present and maps to [true].
    The keys that are read end in a hyphen and decimal digits, so the read
    never reaches a property inherited from [Object.prototype]. *)
Definition truthy_flag (v : option bool) : bool :=
  match v with
  | Some b => b
  | None => false
  end.

(** The template literal [`${category}-${index}`]. *)
Definition checkedKey (category : string) (index : nat) : string :=
  category +:+ "-" +:+ JsString.of_index index.

Definition getRemainingItemsByCategory
    (shoppingList : option ShoppingList) (checkedItems : gmap string bool)
    : RemainingItemsByCategory :=
  match shoppingList with
  | None => JsObject.empty
  | Some shoppingList =>
      let entries :=
        JsArray.filter (λ '(_, items) _, 0 <? length items)
          (map
             (λ '(category, items),
                let remaining :=
                  JsArray.filter
                    (λ _ index,
                       negb (truthy_flag (checkedItems !! checkedKey category index)))
                    items in
                (category, remaining))
             (JsObject.entries shoppingList)) in
      JsObject.fromEntries entries
  end.

Definition countRemainingItems (remaining : RemainingItemsByCategory) : Z :=
  fold_left (λ sum items, (sum + Z.of_nat (length items))%Z)
    (JsObject.values remaining) 0%Z.

Definition shareHeader : string := "Lista zakupów (do kupienia):".

(** The body of the inner [forEach] of [buildShareText]: the line pushed for
    one item. *)
Definition shareItemLine (item : ShoppingItem) : string :=
  let suffix :=
    if JsString.truthy (amount item) then " (" +:+ amount item +:+ ")" else "" in
  "- " +:+ name item +:+ suffix.

(** The array [lines] of [buildShareText] when the outer [forEach] is done. *)
Definition shareLines (remaining : RemainingItemsByCategory) : list string :=
  fold_left
    (λ lines '(category, items),
       let lines := lines ++ [""] in
       let lines := lines ++ [category] in
       fold_left (λ lines item, lines ++ [shareItemLine item]) items lines)
    (JsObject.entries remaining)
    [shareHeader].

Definition buildShareText (remaining : RemainingItemsByCategory) : string :=
  JsString.trim (JsString.join JsString.LF (shareLines remaining)).

Record PrintLayoutConfig : Type := {
  columns : Z;
  fontSize : Z
}.

Definition printTotalLines (remaining : RemainingItemsByCategory) : Z :=
  fold_left (λ sum items, (sum + Z.of_nat (length items) + 1)%Z)
    (JsObject.values remaining) 0%Z.

Definition getPrintLayoutConfig (remaining : RemainingItemsByCategory)
    : PrintLayoutConfig :=
  let totalLines := printTotalLines remaining in
  let columns := if (40 <? totalLines)%Z then 3%Z else 2%Z in
  let fontSize :=
    if (60 <? totalLines)%Z then 9%Z
    else if (45 <? totalLines)%Z then 10%Z
    else if (30 <? totalLines)%Z then 11%Z
    else 12%Z in
  {| columns := columns; fontSize := fontSize |}.

(** ** lib/planner-utils: getNextAvailableDay *)

(** What the function can evaluate to: [null], a day name, or [undefined]
    when an array read past the end is returned. *)
Inductive DayResult : Type :=
  | Null
  | Undefined
  | Day (day : string).

(** The [for] loop with [offset] running up to [weekDays.length]; [steps] is
    the number of iterations left, [weekDays.length + 1 - offset]. *)
Fixpoint scanDays (assignedSet : gset string) (weekDays : list string)
    (startIndex : Z) (offset : Z) (steps : nat) : DayResult :=
  match steps with
  | O => Null
  | S steps' =>
      let index := Z.rem (startIndex + offset) (Z.of_nat (length weekDays)) in
      match weekDays !! Z.to_nat index with
      | Some candidate =>
          if decide (candidate ∈ assignedSet)
          then scanDays assignedSet weekDays startIndex (offset + 1) steps'
          else Day candidate
      | None => Undefined
      end
  end.

Definition getNextAvailableDay (assignedDays weekDays : list string)
    (currentDay : string) : DayResult :=
  if length weekDays =? 0 then Null
  else
    let assignedSet : gset string := list_to_set assignedDays in
    if length weekDays <=? size assignedSet then Null
    else
      let startIndex := JsArray.indexOf weekDays currentDay in
      if (startIndex =? -1)%Z then Null
      else scanDays assignedSet weekDays startIndex 1 (length weekDays).

(** ** The vocabulary of the specification

    The definitions below restate what the specification says in its own
    terms; the theorems compare them with the functions above. *)

Global Instance ShoppingItem_eq_dec : EqDecision ShoppingItem.
Proof. solve_decision. Defined.

(** The flag of the item at [index] of [category] is not truthy. *)
Definition notTruthy (checkedItems : gmap string bool) (category : string)
    (index : nat) : Prop :=
  checkedItems !! checkedKey category index ≠ Some true.

(** The composite key of a position is absent from the map, or maps to a
    falsy value. *)
Definition absentOrFalsy (checkedItems : gmap string bool)
    (position : string * nat) : Prop :=
  checkedItems !! checkedKey position.1 position.2 = None
  ∨ checkedItems !! checkedKey position.1 position.2 = Some false.

Global Instance notTruthy_dec checkedItems category index :
  Decision (notTruthy checkedItems category index).
Proof. unfold notTruthy. apply _. Defined.

Global Instance absentOrFalsy_dec checkedItems position :
  Decision (absentOrFalsy checkedItems position).
Proof. unfold absentOrFalsy. apply _. Defined.

(** The indices of the items of a category that are kept, ascending. *)
Definition keptIndices (checkedItems : gmap string bool) (category : string)
    (items : list ShoppingItem) : list nat :=
  filter (notTruthy checkedItems category) (seq 0 (length items)).

(** The kept-item sequence of a category. *)
Definition keptItems (checkedItems : gmap string bool) (category : string)
    (items : list ShoppingItem) : list ShoppingItem :=
  omap (λ index, items !! index) (keptIndices checkedItems category items).

(** Every category with its kept-item sequence, in the order of the list;
    then the categories whose sequence is empty are dropped. *)
Definition remainingSpec (shoppingList : ShoppingList)
    (checkedItems : gmap string bool) : RemainingItemsByCategory :=
  filter (λ entry, entry.2 ≠ [])
    ((λ '(category, items), (category, keptItems checkedItems category items))
       <$> shoppingList).

(** The (category, index) pairs of a shopping list. *)
Definition itemPositions (shoppingList : ShoppingList) : list (string * nat) :=
  shoppingList ≫= (λ '(category, items), (category,.) <$> seq 0 (length items)).

(** The rule of the specification for one line of the share text. *)
Definition shareItemLineSpec (item : ShoppingItem) : string :=
  "- " +:+ name item
  +:+ (if JsString.truthy (JsString.trim (amount item))
       then " (" +:+ amount item +:+ ")" else "").

(** The line of an item when the suffix depends on the amount being the
    empty string, with no trimming. *)
Definition shareItemLineNonEmpty (item : ShoppingItem) : string :=
  "- " +:+ name item
  +:+ (if decide (amount item = "") then "" else " (" +:+ amount item +:+ ")").

(** The lines of the share text before they are joined. *)
Definition shareLinesSpec (remaining : RemainingItemsByCategory) : list string :=
  shareHeader
  :: (remaining ≫= (λ '(category, items),
                      "" :: category :: (shareItemLine <$> items))).

(** The layout of the share text before it is trimmed: the header, and
    every further line after a line feed (the byte 10): for each category an
    empty line, the name of the category and the lines of its items. *)
Definition shareTextLayout (remaining : RemainingItemsByCategory) : string :=
  shareHeader
  +:+ foldr (λ line text, String "010" (line +:+ text)) ""
        (remaining ≫= (λ '(category, items),
                         "" :: category :: (shareItemLineNonEmpty <$> items))).

(** The three guards of [getNextAvailableDay]. *)
Definition dayGuard (assignedDays weekDays : list string) (currentDay : string)
    : Prop :=
  weekDays = []
  ∨ length weekDays ≤ length (remove_dups assignedDays)
  ∨ currentDay ∉ weekDays.

Definition weekDays7 : list string :=
  ["Mon"; "Tue"; "Wed"; "Thu"; "Fri"; "Sat"; "Sun"].

(** The end-to-end scenario of the specification. *)
Definition item (name amount : string) : ShoppingItem :=
  {| name := name; amount := amount; checked := None |}.

Definition exampleList : ShoppingList :=
  [("Warzywa", [item "Cebula" "2 szt"; item "Marchew" ""]);
   ("Nabiał", [item "Mleko" "1 l"])].

Definition exampleChecked : gmap string bool := {["Warzywa-1" := true]}.

(** ** The shopping view (ShoppingView): what it derives from its state *)

(** The state update of [toggleItem]: [{ ...prev, [key]: !prev[key] }]. *)
Definition toggleItem (prev : gmap string bool) (category : string)
    (index : nat) : gmap string bool :=
  let key := checkedKey category index in
  <[key := negb (truthy_flag (prev !! key))]> prev.

(** [totalItems]: the items of the list, 0 for a null list. *)
Definition totalItems (shoppingList : option ShoppingList) : Z :=
  match shoppingList with
  | Some shoppingList =>
      fold_left (λ sum items, (sum + Z.of_nat (length items))%Z)
        (JsObject.values shoppingList) 0%Z
  | None => 0%Z
  end.

(** [checkedCount]: [Object.values(checkedItems).filter(Boolean).length].
    The order in which the values are listed does not matter to the count. *)
Definition checkedCount (checkedItems : gmap string bool) : Z :=
  Z.of_nat
    (length (List.filter (λ flag : bool, flag) (map_to_list checkedItems).*2)).

(** The strings of decimal digits. *)
Fixpoint all_digits (s : string) : bool :=
  match s with
  | "" => true
  | String c s' => JsObject.is_digit c && all_digits s'
  end.

(** Every truthy key of the checked map is the key of a position of the
    list: the state the view reaches by toggling items of the list it
    shows. *)
Definition checksWithin (shoppingList : ShoppingList)
    (checkedItems : gmap string bool) : Prop :=
  ∀ key, checkedItems !! key = Some true →
    ∃ category index,
      (category, index) ∈ itemPositions shoppingList
      ∧ key = checkedKey category index.

(** The keys of the positions of the list whose flag is truthy. *)
Definition checkedPositionKeys (shoppingList : ShoppingList)
    (checkedItems : gmap string bool) : list string :=
  (λ position : string * nat, checkedKey position.1 position.2)
    <$> filter (λ position : string * nat,
                  checkedItems !! checkedKey position.1 position.2 = Some true)
          (itemPositions shoppingList).

(** The keys of the checked map whose value is truthy. *)
Definition truthyKeys (checkedItems : gmap string bool) : list string :=
  (filter (λ entry : string * bool, entry.2 = true)
     (map_to_list checkedItems)).*1.

(** ** src/lib/api.ts: from the response of the service to the list *)

Record ShoppingCategory : Type := {
  category : string;
  items : option (list string)
}.

(** [shopping_list] and the items of a category are read with [?? []], and
    an entry is tested with [!category]: each may be null. *)
Record ShoppingListResponse : Type := {
  shopping_list : option (list (option ShoppingCategory));
  total_recipes : Z;
  generated_at : string
}.

(** What [.] of a regular expression refuses: a line terminator starts
    here, that is LF, CR, U+2028 (E2 80 A8) or U+2029 (E2 80 A9). *)
Definition startsWithLineTerminator (s : string) : bool :=
  match s with
  | "" => false
  | String c1 s1 =>
      ((JsString.code c1 =? 10) || (JsString.code c1 =? 13)
       || match s1 with
          | String c2 (String c3 _) =>
              (JsString.code c1 =? 226) && (JsString.code c2 =? 128)
              && ((JsString.code c3 =? 168) || (JsString.code c3 =? 169))
          | _ => false
          end)%N
  end.

Definition isOpenParen (c : ascii) : bool := (JsString.code c =? 40)%N.

Definition isCloseParen (c : ascii) : bool := (JsString.code c =? 41)%N.

(** The longest run of characters other than a closing parenthesis at the
    front of [s], and what follows it. *)
Fixpoint spanNotClose (s : string) : string * string :=
  match s with
  | "" => ("", "")
  | String c s' =>
      if isCloseParen c then ("", s)
      else let '(run, rest) := spanNotClose s' in (String c run, rest)
  end.

(** The end of the pattern: white space up to the end of the text. *)
Definition onlyWhitespace (s : string) : bool :=
  negb (JsString.truthy (JsString.trimStart s)).

(** The pattern after its opening parenthesis, matched at the front of [s]:
    one or more characters other than a closing parenthesis (the second
    group), a closing parenthesis, and white space up to the end. The group
    is the longest run without a closing parenthesis, since a shorter run is
    followed by a character of the run and not by the parenthesis. *)
Definition amountGroup (s : string) : option string :=
  match spanNotClose s with
  | ("", _) => None
  | (run, String c tail) =>
      if isCloseParen c && onlyWhitespace tail then Some run else None
  | (_, "") => None
  end.

(** The pattern of [parseShoppingItem] matched against the text
    [group1 ++ s] with a first group that holds at least [group1]. The pattern
    is: the start, any characters but line terminators (the first group,
    greedy), an opening parenthesis, the second group, a closing parenthesis,
    white space, the end. The greedy first group takes the longest prefix for
    which the rest matches, so a longer first group is tried before the
    parenthesis at hand. *)
Fixpoint matchItemFrom (group1 : string) (s : string)
    : option (string * string) :=
  match s with
  | "" => None
  | String c s' =>
      let longer :=
        if startsWithLineTerminator s then None
        else matchItemFrom (group1 +:+ String c "") s' in
      match longer with
      | Some groups => Some groups
      | None =>
          if isOpenParen c
          then match amountGroup s' with
               | Some group2 => Some (group1, group2)
               | None => None
               end
          else None
      end
  end.

(** [trimmed.match(pattern)]: the two groups, or null. *)
Definition matchItem (trimmed : string) : option (string * string) :=
  matchItemFrom "" trimmed.

Definition parseShoppingItem (item : string) : ShoppingItem :=
  let trimmed := JsString.trim item in
  match matchItem trimmed with
  | Some (group1, group2) =>
      {| name := JsString.trim group1; amount := JsString.trim group2;
         checked := None |}
  | None => {| name := trimmed; amount := ""; checked := None |}
  end.

(** [list[key] = value] on an object made by the literal [{}]: the key
    ["__proto__"] reaches the setter that [Object.prototype] provides, which
    creates no own property; every other key defines or overwrites an own
    data property. *)
Definition assignProperty {V : Type} (o : JsObject.t V) (key : string)
    (value : V) : JsObject.t V :=
  if String.eqb key "__proto__" then o else JsObject.define o key value.

Definition normalizeShoppingList (response : ShoppingListResponse)
    : ShoppingList :=
  fold_left
    (λ list entry,
       match entry with
       | None => list
       | Some entry =>
           if negb (JsString.truthy (category entry)) then list
           else
             assignProperty list (category entry)
               (map parseShoppingItem (default [] (items entry)))
       end)
    (default [] (shopping_list response))
    JsObject.empty.

(** src/app/page.tsx, [shoppingItemsCount]: the items whose own [checked]
    field is not truthy, 0 for a null list. *)
Definition shoppingItemsCount (shoppingList : option ShoppingList) : Z :=
  match shoppingList with
  | None => 0%Z
  | Some shoppingList =>
      fold_left
        (λ acc items,
           (acc
            + Z.of_nat
                (length
                   (JsArray.filter
                      (λ item _, negb (truthy_flag (checked item))) items)))%Z)
        (JsObject.values shoppingList) 0%Z
  end.

(** The value of a decimal digit. *)
Definition digit (c : ascii) : N := (N_of_ascii c - 48)%N.

(** The entries of a response that [normalizeShoppingList] does not skip:
    those that are not null and have a non-empty category name, each with
    its items ([[]] when they are null). *)
Definition namedEntries (response : ShoppingListResponse)
    : list (string * list string) :=
  omap
    (λ entry : option ShoppingCategory,
       match entry with
       | Some entry =>
           if JsString.truthy (category entry)
           then Some (category entry, default [] (items entry))
           else None
       | None => None
       end)
    (default [] (shopping_list response)).

(** The loop of [normalizeShoppingList] over the entries it does not skip,
    from a list [start] on. *)
Definition normalizeFrom (start : ShoppingList)
    (entries : list (string * list string)) : ShoppingList :=
  fold_left
    (λ list entry,
       assignProperty list entry.1 (map parseShoppingItem entry.2))
    entries start.

(** A line terminator starts somewhere in [s]. *)
Fixpoint hasLineTerminator (s : string) : bool :=
  match s with
  | "" => false
  | String _ s' => startsWithLineTerminator s || hasLineTerminator s'
  end.

(** A parenthesis occurs in [s]. *)
Fixpoint hasParen (s : string) : bool :=
  match s with
  | "" => false
  | String c s' => isOpenParen c || isCloseParen c || hasParen s'
  end.

(** ** The planner: src/lib/api.ts, src/app/page.tsx and the planner view *)

Module Planner.

Inductive RecipeCategory : Type :=
  | obiady
  | salatki
  | pieczywo
  | desery
  | inne.

Record Recipe : Type := {
  id : Z;
  title : string;
  image_url : string;
  source_url : string;
  category : option RecipeCategory;
  created_at : option string
}.

(** [interface PlannerRecipe extends Recipe]: the fields of the recipe and
    those the planner adds. *)
Record PlannerRecipe : Type := {
  recipe : Recipe;
  portions : Z;
  assignedDays : option (list string);
  assignedDay : option string
}.

(** [{ ...r, assignedDays: nextDays }]. *)
Definition withAssignedDays (r : PlannerRecipe) (nextDays : list string)
    : PlannerRecipe :=
  {| recipe := recipe r; portions := portions r;
     assignedDays := Some nextDays; assignedDay := assignedDay r |}.

(** [Array.from(new Set(xs))]: the elements in the order of their first
    occurrence; [seen] holds the elements the set has so far. *)
Fixpoint arrayFromSetOnto (seen : list string) (xs : list string)
    : list string :=
  match xs with
  | [] => seen
  | x :: xs' =>
      if decide (x ∈ seen) then arrayFromSetOnto seen xs'
      else arrayFromSetOnto (seen ++ [x]) xs'
  end.

Definition arrayFromSet (xs : list string) : list string :=
  arrayFromSetOnto [] xs.

(** The planner view and the recipe card, [getAssignedDays]. *)
Definition getAssignedDays (r : PlannerRecipe) : list string :=
  match assignedDays r with
  | Some (day :: days) => arrayFromSet (day :: days)
  | _ =>
      match assignedDay r with
      | Some day => if JsString.truthy day then [day] else []
      | None => []
      end
  end.

(** src/app/page.tsx, the [currentDays] of [handleAssignDay] and
    [handleRemoveFromPlanner]: the same choice without the set. *)
Definition currentDays (r : PlannerRecipe) : list string :=
  match assignedDays r with
  | Some (day :: days) => day :: days
  | _ =>
      match assignedDay r with
      | Some day => if JsString.truthy day then [day] else []
      | None => []
      end
  end.

(** What [handleAssignDay] makes of the recipe with the given id. *)
Definition assignDay (day : string) (r : PlannerRecipe) : PlannerRecipe :=
  let exists_ := bool_decide (day ∈ currentDays r) in
  let nextDays :=
    if exists_
    then List.filter (λ d, negb (String.eqb d day)) (currentDays r)
    else currentDays r ++ [day] in
  withAssignedDays r nextDays.

(** The state update of [handleAssignDay]. *)
Definition handleAssignDay (recipeId : Z) (day : string)
    (prev : list PlannerRecipe) : list PlannerRecipe :=
  map (λ r, if (id (recipe r) =? recipeId)%Z then assignDay day r else r) prev.

(** The state update of [handleAddToPlanner]. *)
Definition handleAddToPlanner (added : Recipe) (prev : list PlannerRecipe)
    : list PlannerRecipe :=
  match List.find (λ r, (id (recipe r) =? id added)%Z) prev with
  | Some _ => prev
  | None =>
      prev ++ [{| recipe := added; portions := 2; assignedDays := Some [];
                  assignedDay := None |}]
  end.

(** The state update of [handleRemoveFromPlanner]; [day] is null or empty
    when the recipe is to leave the planner. *)
Definition handleRemoveFromPlanner (recipeId : Z) (day : option string)
    (prev : list PlannerRecipe) : list PlannerRecipe :=
  flat_map
    (λ r,
       if negb (id (recipe r) =? recipeId)%Z then [r]
       else
         match day with
         | Some day =>
             if JsString.truthy day then
               let nextDays :=
                 List.filter (λ value, negb (String.eqb value day))
                   (currentDays r) in
               match nextDays with
               | [] => []
               | _ => [withAssignedDays r nextDays]
               end
             else []
         | None => []
         end)
    prev.

(** src/app/page.tsx, [plannedMealsCount]: a recipe without days counts
    once. The numbers are sums of array lengths and ones. *)
Definition plannedMealsCount (plannerRecipes : list PlannerRecipe) : Z :=
  fold_left
    (λ acc r,
       let dayCount :=
         match assignedDays r with
         | Some (day :: days) => Z.of_nat (length (day :: days))
         | _ => 1%Z
         end in
       (acc + dayCount)%Z)
    plannerRecipes 0%Z.

(** The planner view, [getWeekDays]: the day of the week ([Date.getDay],
    Sunday is 0) of the [i]-th column, Monday first. *)
Definition targetDayOfWeek (i : Z) : Z :=
  if (i <? 6)%Z then (i + 1)%Z else 0%Z.

(** The days from today to the [i]-th column. *)
Definition daysToAdd (currentDayOfWeek i : Z) : Z :=
  if (currentDayOfWeek =? 0)%Z then
    if (targetDayOfWeek i =? 0)%Z then 0%Z else targetDayOfWeek i
  else if (targetDayOfWeek i =? 0)%Z then (7 - currentDayOfWeek)%Z
  else if (targetDayOfWeek i >=? currentDayOfWeek)%Z
       then (targetDayOfWeek i - currentDayOfWeek)%Z
  else (7 - currentDayOfWeek + targetDayOfWeek i)%Z.

(** A recipe as an older version of the planner stored it, with the single
    day field and no array of days. *)
Definition legacyRecipe : PlannerRecipe :=
  {| recipe := {| id := 7; title := "Zupa"; image_url := ""; source_url := "";
                  category := Some obiady; created_at := None |};
     portions := 2; assignedDays := None; assignedDay := Some "Mon" |}.

End Planner.

(** * Properties *)

(** ** Objects: [Object.fromEntries] of an enumeration is the enumeration *)

Module JsObjectFacts.
Import JsObject.

Section facts.
Context {V : Type}.
Implicit Types (o : t V) (k : string) (v : V).

Lemma get_None o k : get o k = None ↔ k ∉ keys o.
Proof.
  induction o as [|[k' v'] o IH]; simpl.
  - split; [intros _; apply not_elem_of_nil | done].
  - destruct (String.eqb_spec k' k) as [->|Hne].
    + split; [done | intros H; exfalso; apply H; left].
    + rewrite IH, not_elem_of_cons. split; [by split | by intros [_ ?]].
Qed.

Lemma has_false o k : has o k = false ↔ k ∉ keys o.
Proof.
  unfold has. rewrite <- get_None. destruct (get o k); naive_solver.
Qed.

Lemma get_Some o k v : NoDup (keys o) → get o k = Some v ↔ (k, v) ∈ o.
Proof.
  induction o as [|[k' v'] o IH]; simpl; intros Hnd.
  - split; [done | intros H; inversion H].
  - apply NoDup_cons in Hnd as [Hk' Hnd].
    rewrite elem_of_cons. destruct (String.eqb_spec k' k) as [->|Hne].
    + split; [intros Heq; injection Heq as ->; by left |].
      intros [Heq|Hin]; [by injection Heq as -> |].
      exfalso. apply Hk'. apply list_elem_of_fmap. by exists (k, v).
    + rewrite IH by done. split; [by right |].
      intros [[= -> ->]|Hin]; done.
Qed.

Lemma insert_index_last n k v o :
  Forall (λ k', ∃ m, array_index k' = Some m ∧ (m < n)%N) (keys o) →
  insert_index n k v o = o ++ [(k, v)].
Proof.
  induction o as [|[k' v'] o IH]; simpl; [done |].
  intros Hall. apply Forall_cons in Hall as [(m & -> & Hlt) Hall].
  apply N.ltb_lt in Hlt. rewrite Hlt. f_equal. by apply IH.
Qed.

Lemma wf_snoc o k v :
  wf (o ++ [(k, v)]) →
  wf o ∧ (k ∉ keys o) ∧ Forall (λ k', key_before k' k) (keys o).
Proof.
  unfold wf, keys. rewrite fmap_app. simpl. intros [Hnd Hsort].
  apply NoDup_app in Hnd as (Hnd & Hnot & _).
  apply StronglySorted_app in Hsort as (Hbefore & Hsort & _).
  repeat split; [done | done | |].
  - intros Hin. apply (Hnot k Hin). left.
  - apply Forall_forall. intros k' Hin. apply Hbefore; [done | left].
Qed.

Lemma define_snoc o k v :
  wf (o ++ [(k, v)]) → define o k v = o ++ [(k, v)].
Proof.
  intros Hwf. apply wf_snoc in Hwf as (_ & Hfresh & Hbefore).
  unfold define. apply has_false in Hfresh. rewrite Hfresh.
  destruct (array_index k) as [n|] eqn:Hk; [| done].
  apply insert_index_last. eapply Forall_impl; [exact Hbefore |].
  intros k'. unfold key_before. rewrite Hk.
  destruct (array_index k') as [m|]; [eauto | done].
Qed.

Lemma fromEntries_wf o : wf o → fromEntries o = o.
Proof.
  induction o as [|[k v] o IH] using rev_ind; [done |].
  intros Hwf. unfold fromEntries. rewrite fold_left_app. simpl.
  pose proof (wf_snoc _ _ _ Hwf) as (Hwf' & _).
  fold (fromEntries o). rewrite IH by done. by apply define_snoc.
Qed.

Lemma wf_sublist o o' : keys o' `sublist_of` keys o → wf o → wf o'.
Proof.
  intros Hsub [Hnd Hsort]. split; [by eapply sublist_NoDup |].
  clear Hnd. revert Hsort. unfold keys in *.
  generalize dependent (o'.*1). generalize (o.*1). clear.
  intros l l' Hsub. induction Hsub as [|x l1 l2 Hsub IH|x l1 l2 Hsub IH].
  - done.
  - rewrite !StronglySorted_cons. intros [Hall Hs]. split; [| by apply IH].
    eapply Forall_forall. intros y Hy.
    eapply Forall_forall in Hall; [exact Hall |].
    by eapply sublist_subseteq.
  - rewrite StronglySorted_cons. intros [_ Hs]. by apply IH.
Qed.

End facts.
End JsObjectFacts.

(** ** Arrays: [filter] with an index *)

Module JsArrayFacts.
Import JsArray.

Section facts.
Context {A : Type}.
Implicit Types (xs : list A).

(** A callback that ignores the element keeps the elements at the indices
    the callback accepts, in ascending order. *)
Lemma filter_from_indices (f : nat → bool) index xs :
  filter_from index (λ _ i, f i) xs
  = omap (λ i, xs !! (i - index))
      (base.filter (λ i, f i = true) (seq index (length xs))).
Proof.
  revert index. induction xs as [|x xs IH]; intros index; simpl; [done |].
  rewrite filter_cons, IH.
  assert (omap (λ i, xs !! (i - S index))
            (base.filter (λ i, f i = true) (seq (S index) (length xs)))
          = omap (λ i, (x :: xs) !! (i - index))
            (base.filter (λ i, f i = true) (seq (S index) (length xs))))
    as Hshift.
  { apply list_omap_ext, Forall2_same_length_lookup_2; [done |].
    intros j i i' Hi Hi'. rewrite Hi in Hi'. injection Hi' as <-.
    apply list_elem_of_lookup_2, list_elem_of_filter in Hi as [_ Hi].
    apply elem_of_seq in Hi.
    replace (i - index) with (S (i - S index)) by lia. done. }
  destruct (f index) eqn:Hf; case_decide; try congruence.
  simpl. rewrite Nat.sub_diag. simpl. by rewrite Hshift.
Qed.

Lemma filter_from_sublist (p : A → nat → bool) index xs :
  filter_from index p xs `sublist_of` xs.
Proof.
  revert index. induction xs as [|x xs IH]; intros index; simpl; [done |].
  destruct (p x index); [by apply sublist_skip | by apply sublist_cons].
Qed.

(** A more permissive callback keeps a supersequence. *)
Lemma filter_from_mono (p q : A → nat → bool) index xs :
  (∀ x i, p x i = true → q x i = true) →
  filter_from index p xs `sublist_of` filter_from index q xs.
Proof.
  intros Hpq. revert index.
  induction xs as [|x xs IH]; intros index; simpl; [done |].
  destruct (p x index) eqn:Hp.
  - rewrite (Hpq _ _ Hp). by apply sublist_skip.
  - destruct (q x index); [by apply sublist_cons | done].
Qed.

End facts.
End JsArrayFacts.

(** ** Remaining items *)

Section remaining.
Variable checkedItems : gmap string bool.

Lemma negb_truthy_flag (v : option bool) :
  negb (truthy_flag v) = true ↔ v ≠ Some true.
Proof. destruct v as [[|]|]; simpl; split; congruence. Qed.

(** The inner [filter] of [getRemainingItemsByCategory] computes the
    kept-item sequence. *)
Lemma inner_filter_kept category items :
  JsArray.filter
    (λ _ index,
       negb (truthy_flag (checkedItems !! checkedKey category index)))
    items
  = keptItems checkedItems category items.
Proof.
  unfold JsArray.filter, keptItems, keptIndices.
  rewrite (JsArrayFacts.filter_from_indices
             (λ i, negb (truthy_flag (checkedItems !! checkedKey category i)))).
  rewrite (list_filter_iff _ (notTruthy checkedItems category)).
  - apply list_omap_ext, Forall2_same_length_lookup_2; [done |].
    intros j i i' Hi Hi'. rewrite Hi in Hi'. injection Hi' as <-.
    by rewrite Nat.sub_0_r.
  - intros i. apply negb_truthy_flag.
Qed.

Lemma outer_filter_from (es : list (string * list ShoppingItem)) index :
  JsArray.filter_from index (λ '(_, items) _, 0 <? length items) es
  = filter (λ entry, entry.2 ≠ []) es.
Proof.
  revert index.
  induction es as [|[c items] es IH]; intros index; simpl; [done |].
  rewrite filter_cons, IH.
  destruct (decide ((c, items).2 ≠ [])) as [Hne|Heq]; destruct items;
    simpl in *; try done.
  by destruct Heq.
Qed.

Lemma outer_filter_nonempty (es : list (string * list ShoppingItem)) :
  JsArray.filter (λ '(_, items) _, 0 <? length items) es
  = filter (λ entry, entry.2 ≠ []) es.
Proof. apply outer_filter_from. Qed.

Lemma entries_remainingSpec (shoppingList : ShoppingList) :
  JsArray.filter (λ '(_, items) _, 0 <? length items)
    (map
       (λ '(category, items),
          let remaining :=
            JsArray.filter
              (λ _ index,
                 negb (truthy_flag (checkedItems !! checkedKey category index)))
              items in
          (category, remaining))
       (JsObject.entries shoppingList))
  = remainingSpec shoppingList checkedItems.
Proof.
  rewrite outer_filter_nonempty. unfold remainingSpec, JsObject.entries.
  f_equal. apply map_ext. intros [c items]. simpl.
  by rewrite inner_filter_kept.
Qed.

Lemma keys_remainingSpec (shoppingList : ShoppingList) :
  JsObject.keys (remainingSpec shoppingList checkedItems)
  `sublist_of` JsObject.keys shoppingList.
Proof.
  unfold remainingSpec, JsObject.keys.
  induction shoppingList as [|[c items] l IH]; simpl; [done |].
  rewrite filter_cons. simpl. case_decide; simpl.
  - by apply sublist_skip.
  - by apply sublist_cons.
Qed.

Lemma getRemaining_remainingSpec (shoppingList : ShoppingList) :
  JsObject.wf shoppingList →
  getRemainingItemsByCategory (Some shoppingList) checkedItems
  = remainingSpec shoppingList checkedItems.
Proof.
  intros Hwf. unfold getRemainingItemsByCategory.
  rewrite entries_remainingSpec. apply JsObjectFacts.fromEntries_wf.
  eapply JsObjectFacts.wf_sublist; [apply keys_remainingSpec | done].
Qed.

(** The kept indices are exactly the indices of the category whose flag is
    not truthy, in ascending order. *)
Lemma keptIndices_elem category items index :
  index ∈ keptIndices checkedItems category items
  ↔ index < length items ∧ notTruthy checkedItems category index.
Proof.
  unfold keptIndices. rewrite list_elem_of_filter, elem_of_seq.
  split; intros [? ?]; split; done || lia.
Qed.

Lemma keptIndices_sorted category items :
  StronglySorted lt (keptIndices checkedItems category items).
Proof.
  unfold keptIndices. generalize 0. generalize (length items).
  intros n. induction n as [|n IH]; intros start; simpl.
  - constructor.
  - rewrite filter_cons. case_decide; [| apply IH].
    apply StronglySorted_cons. split; [| apply IH].
    apply Forall_forall. intros i Hi.
    apply list_elem_of_filter in Hi as [_ Hi]. apply elem_of_seq in Hi. lia.
Qed.

Lemma keptItems_lookup category items :
  Forall2 (λ index item, items !! index = Some item)
    (keptIndices checkedItems category items)
    (keptItems checkedItems category items).
Proof.
  unfold keptItems.
  assert (Forall (λ i, i < length items)
            (keptIndices checkedItems category items)) as Hall.
  { apply Forall_forall. intros i Hi. by apply keptIndices_elem in Hi as [? _]. }
  induction Hall as [|i rest Hi Hall IH]; simpl; [constructor |].
  destruct (lookup_lt_is_Some_2 items i Hi) as [x Hx]. rewrite Hx.
  by constructor.
Qed.

Lemma get_remainingSpec (shoppingList : ShoppingList) category :
  NoDup (JsObject.keys shoppingList) →
  JsObject.get (remainingSpec shoppingList checkedItems) category
  = match JsObject.get shoppingList category with
    | Some items =>
        match keptItems checkedItems category items with
        | [] => None
        | kept => Some kept
        end
    | None => None
    end.
Proof.
  unfold remainingSpec.
  induction shoppingList as [|[c items] l IH]; simpl; [done |].
  rewrite filter_cons. simpl. intros Hnd.
  apply NoDup_cons in Hnd as [Hc Hnd]. specialize (IH Hnd).
  destruct (String.eqb_spec c category) as [->|Hne].
  - case_decide as Hkept.
    + simpl. rewrite String.eqb_refl.
      by destruct (keptItems checkedItems category items).
    + rewrite Hkept.
      apply JsObjectFacts.get_None. intros Hin. apply Hc.
      eapply sublist_subseteq; [apply keys_remainingSpec | exact Hin].
  - case_decide; [| done]. simpl.
    destruct (String.eqb_spec c category); [done | exact IH].
Qed.

End remaining.

(** ** Counting the remaining items *)

Section counting.

Lemma countRemainingItems_from (vs : list (list ShoppingItem)) (start : Z) :
  fold_left (λ sum items, (sum + Z.of_nat (length items))%Z) vs start
  = (start + Z.of_nat (sum_list_with length vs))%Z.
Proof.
  revert start. induction vs as [|items vs IH]; intros start; simpl.
  - lia.
  - rewrite IH. lia.
Qed.

Lemma countRemainingItems_sum (remaining : RemainingItemsByCategory) :
  countRemainingItems remaining
  = Z.of_nat (sum_list_with (λ entry, length entry.2) remaining).
Proof.
  unfold countRemainingItems, JsObject.values.
  rewrite countRemainingItems_from, Z.add_0_l. f_equal.
  induction remaining as [|e r IH]; simpl; [done | by f_equal].
Qed.

Variable checkedItems : gmap string bool.

Lemma absentOrFalsy_notTruthy category index :
  absentOrFalsy checkedItems (category, index)
  ↔ notTruthy checkedItems category index.
Proof.
  unfold absentOrFalsy, notTruthy. simpl.
  destruct (checkedItems !! checkedKey category index) as [[|]|];
    split; intros H; try done; eauto.
  destruct H; done.
Qed.

Lemma length_keptItems category items :
  length (keptItems checkedItems category items)
  = length (keptIndices checkedItems category items).
Proof. symmetry. eapply Forall2_length, keptItems_lookup. Qed.

Lemma length_positions_filter category (indices : list nat) :
  length (filter (absentOrFalsy checkedItems) ((category,.) <$> indices))
  = length (filter (notTruthy checkedItems category) indices).
Proof.
  induction indices as [|i indices IH]; [done |].
  rewrite fmap_cons, !filter_cons.
  destruct (decide (notTruthy checkedItems category i)) as [Hyes|Hno].
  - rewrite decide_True by (by apply absentOrFalsy_notTruthy).
    cbn [length]. by rewrite IH.
  - rewrite decide_False by (by rewrite absentOrFalsy_notTruthy). done.
Qed.

Lemma sum_remainingSpec (shoppingList : ShoppingList) :
  sum_list_with (λ entry, length entry.2)
    (remainingSpec shoppingList checkedItems)
  = length (filter (absentOrFalsy checkedItems) (itemPositions shoppingList)).
Proof.
  unfold remainingSpec, itemPositions.
  induction shoppingList as [|[c items] l IH]; [done |].
  rewrite fmap_cons, bind_cons, filter_app, length_app, <- IH.
  rewrite length_positions_filter.
  change (filter (notTruthy checkedItems c) (seq 0 (length items)))
    with (keptIndices checkedItems c items).
  rewrite <- length_keptItems, filter_cons.
  destruct (decide ((c, keptItems checkedItems c items).2 ≠ [])) as [_|Hkept].
  - done.
  - apply dec_stable in Hkept. simpl in Hkept. by rewrite Hkept.
Qed.

Lemma countRemainingItems_nonneg (remaining : RemainingItemsByCategory) :
  (0 ≤ countRemainingItems remaining)%Z.
Proof. rewrite countRemainingItems_sum. lia. Qed.

End counting.

(** ** Checking more items *)

Section monotone.
Variables first second : gmap string bool.
Hypothesis more_checked : ∀ key, first !! key = Some true → second !! key = Some true.

Lemma keptItems_mono category items :
  keptItems second category items `sublist_of` keptItems first category items.
Proof.
  rewrite <- !inner_filter_kept. apply JsArrayFacts.filter_from_mono.
  intros _ i. rewrite !negb_truthy_flag. intros Hsecond Hfirst.
  apply Hsecond. by apply more_checked.
Qed.

Lemma sum_remainingSpec_mono (shoppingList : ShoppingList) :
  sum_list_with (λ entry, length entry.2) (remainingSpec shoppingList second)
  ≤ sum_list_with (λ entry, length entry.2) (remainingSpec shoppingList first).
Proof.
  unfold remainingSpec.
  induction shoppingList as [|[c items] l IH]; [done |].
  pose proof (sublist_length _ _ (keptItems_mono c items)) as Hlen.
  rewrite !fmap_cons, !filter_cons.
  destruct (decide ((c, keptItems second c items).2 ≠ [])) as [_|Hs];
    destruct (decide ((c, keptItems first c items).2 ≠ [])) as [_|Hf];
    cbn [sum_list_with snd]; try lia.
  apply dec_stable in Hf. simpl in Hf. rewrite Hf in Hlen. simpl in Hlen. lia.
Qed.

End monotone.

(** ** The claims about the remaining items *)

(** C1. For a shopping list that is not null, [getRemainingItemsByCategory]
    lists the categories in the order of the list, each with the sequence of
    its items whose composite key is not truthy in the checked map, in their
    original order, and leaves out the categories for which that sequence is
    empty. *)
Theorem getRemainingItemsByCategory_keeps_unchecked
    (shoppingList : ShoppingList) (checkedItems : gmap string bool) :
  JsObject.wf shoppingList →
  let remaining := getRemainingItemsByCategory (Some shoppingList) checkedItems in
  remaining
  = filter (λ entry, entry.2 ≠ [])
      ((λ '(category, items), (category, keptItems checkedItems category items))
         <$> shoppingList)
  ∧ JsObject.keys remaining `sublist_of` JsObject.keys shoppingList
  ∧ (∀ category kept, (category, kept) ∈ remaining → kept ≠ [])
  ∧ ∀ category items, (category, items) ∈ shoppingList →
      let kept := keptItems checkedItems category items in
      let indices := keptIndices checkedItems category items in
      (∀ index, index ∈ indices
         ↔ index < length items
           ∧ checkedItems !! (category +:+ "-" +:+ pretty index) ≠ Some true)
      ∧ StronglySorted lt indices
      ∧ Forall2 (λ index item, items !! index = Some item) indices kept
      ∧ kept `sublist_of` items
      ∧ JsObject.get remaining category
        = (if decide (kept = []) then None else Some kept).
Proof.
  intros Hwf remaining.
  assert (remaining = remainingSpec shoppingList checkedItems) as Hspec
    by (by apply getRemaining_remainingSpec).
  split; [exact Hspec |]. split; [rewrite Hspec; apply keys_remainingSpec |].
  split.
  { intros c kept. rewrite Hspec. unfold remainingSpec.
    rewrite list_elem_of_filter. by intros [? _]. }
  intros c items Hin kept indices. split; [| repeat split].
  - intros index. apply keptIndices_elem.
  - apply keptIndices_sorted.
  - apply keptItems_lookup.
  - subst kept. rewrite <- inner_filter_kept.
    apply JsArrayFacts.filter_from_sublist.
  - rewrite Hspec, get_remainingSpec by apply Hwf.
    apply JsObjectFacts.get_Some in Hin; [| apply Hwf]. rewrite Hin.
    fold kept. by destruct kept.
Qed.

Lemma getRemainingItemsByCategory_keeps_unchecked_witness :
  JsObject.wf exampleList
  ∧ getRemainingItemsByCategory (Some exampleList) exampleChecked
    = filter (λ entry, entry.2 ≠ [])
        ((λ '(category, items), (category, keptItems exampleChecked category items))
           <$> exampleList).
Proof.
  assert (JsObject.wf exampleList) as Hwf
    by (apply (bool_decide_unpack _); vm_compute; exact I).
  split; [exact Hwf |].
  apply (getRemainingItemsByCategory_keeps_unchecked exampleList exampleChecked Hwf).
Defined.

(** C8. For a null shopping list [getRemainingItemsByCategory] returns the
    empty mapping, whatever the checked map. *)
Theorem getRemainingItemsByCategory_null (checkedItems : gmap string bool) :
  getRemainingItemsByCategory None checkedItems = JsObject.empty
  ∧ JsObject.keys (getRemainingItemsByCategory None checkedItems) = [].
Proof. split; reflexivity. Qed.

(** C5. The count of the remaining items is the number of (category, index)
    pairs of the list whose composite key, the category, a hyphen and the
    decimal index, is absent from the checked map or maps to a falsy value;
    the count of the empty mapping is 0 and no count is negative. *)
Theorem countRemainingItems_counts_unchecked
    (shoppingList : ShoppingList) (checkedItems : gmap string bool) :
  JsObject.wf shoppingList →
  countRemainingItems (getRemainingItemsByCategory (Some shoppingList) checkedItems)
  = Z.of_nat
      (length
         (filter
            (λ position : string * nat,
               checkedItems !! (position.1 +:+ "-" +:+ pretty position.2) = None
               ∨ checkedItems !! (position.1 +:+ "-" +:+ pretty position.2)
                 = Some false)
            (itemPositions shoppingList)))
  ∧ countRemainingItems (getRemainingItemsByCategory None checkedItems) = 0%Z
  ∧ countRemainingItems JsObject.empty = 0%Z
  ∧ ∀ remaining, (0 ≤ countRemainingItems remaining)%Z.
Proof.
  intros Hwf. split; [| split; [done | split; [done |]]].
  - rewrite getRemaining_remainingSpec by done.
    rewrite countRemainingItems_sum, sum_remainingSpec.
    reflexivity.
  - apply countRemainingItems_nonneg.
Qed.

Lemma countRemainingItems_counts_unchecked_witness :
  JsObject.wf exampleList
  ∧ countRemainingItems (getRemainingItemsByCategory (Some exampleList) exampleChecked)
    = Z.of_nat
        (length
           (filter
              (λ position : string * nat,
                 exampleChecked !! (position.1 +:+ "-" +:+ pretty position.2)
                 = None
                 ∨ exampleChecked !! (position.1 +:+ "-" +:+ pretty position.2)
                   = Some false)
              (itemPositions exampleList))).
Proof.
  assert (JsObject.wf exampleList) as Hwf
    by (apply (bool_decide_unpack _); vm_compute; exact I).
  split; [exact Hwf |].
  apply (countRemainingItems_counts_unchecked exampleList exampleChecked Hwf).
Defined.

(** C10. When every key that is truthy in a first checked map is truthy in a
    second one, the second map leaves no more items than the first, and the
    remaining sequence of each category under the second map is a
    subsequence of the one under the first. *)
Theorem getRemainingItemsByCategory_antitone
    (shoppingList : ShoppingList) (first second : gmap string bool) :
  JsObject.wf shoppingList →
  (∀ key, first !! key = Some true → second !! key = Some true) →
  let remaining1 := getRemainingItemsByCategory (Some shoppingList) first in
  let remaining2 := getRemainingItemsByCategory (Some shoppingList) second in
  (countRemainingItems remaining2 ≤ countRemainingItems remaining1)%Z
  ∧ (∀ category,
       default [] (JsObject.get remaining2 category)
       `sublist_of` default [] (JsObject.get remaining1 category))
  ∧ ∀ category kept2, (category, kept2) ∈ remaining2 →
      ∃ kept1, (category, kept1) ∈ remaining1 ∧ kept2 `sublist_of` kept1.
Proof.
  intros Hwf Hmore remaining1 remaining2.
  assert (remaining1 = remainingSpec shoppingList first) as H1
    by (by apply getRemaining_remainingSpec).
  assert (remaining2 = remainingSpec shoppingList second) as H2
    by (by apply getRemaining_remainingSpec).
  assert (∀ category,
            default [] (JsObject.get remaining2 category)
            `sublist_of` default [] (JsObject.get remaining1 category)) as Hsub.
  { intros c. rewrite H1, H2, !get_remainingSpec by apply Hwf.
    destruct (JsObject.get shoppingList c) as [items|]; [| done].
    pose proof (keptItems_mono first second Hmore c items) as Hk.
    destruct (keptItems second c items) as [|x2 k2]; [apply sublist_nil_l |].
    destruct (keptItems first c items) as [|x1 k1]; [| done].
    by apply sublist_nil_r in Hk. }
  split; [| split; [exact Hsub |]].
  - rewrite H1, H2, !countRemainingItems_sum.
    apply inj_le. by apply sum_remainingSpec_mono.
  - intros c kept2 Hin.
    assert (NoDup (JsObject.keys remaining1) ∧ NoDup (JsObject.keys remaining2))
      as [Hnd1 Hnd2].
    { split; [rewrite H1 | rewrite H2];
        (eapply sublist_NoDup; [apply Hwf | apply keys_remainingSpec]). }
    assert (kept2 ≠ []) as Hne.
    { rewrite H2 in Hin. unfold remainingSpec in Hin.
      by apply list_elem_of_filter in Hin as [? _]. }
    apply JsObjectFacts.get_Some in Hin; [| done].
    specialize (Hsub c). rewrite Hin in Hsub. simpl in Hsub.
    destruct (JsObject.get remaining1 c) as [kept1|] eqn:Hget; simpl in Hsub.
    + exists kept1. split; [| done]. by apply JsObjectFacts.get_Some.
    + by apply sublist_nil_r in Hsub.
Qed.

Lemma getRemainingItemsByCategory_antitone_witness :
  JsObject.wf exampleList
  ∧ (∀ key, (∅ : gmap string bool) !! key = Some true
            → exampleChecked !! key = Some true)
  ∧ (countRemainingItems (getRemainingItemsByCategory (Some exampleList) exampleChecked)
     ≤ countRemainingItems (getRemainingItemsByCategory (Some exampleList) ∅))%Z.
Proof.
  assert (JsObject.wf exampleList) as Hwf
    by (apply (bool_decide_unpack _); vm_compute; exact I).
  assert (∀ key, (∅ : gmap string bool) !! key = Some true
                 → exampleChecked !! key = Some true) as Hmore
    by (intros key Hkey; rewrite lookup_empty in Hkey; discriminate).
  split; [exact Hwf |]. split; [exact Hmore |].
  apply (getRemainingItemsByCategory_antitone exampleList ∅ exampleChecked Hwf Hmore).
Defined.

(** ** Print layout *)

Lemma printTotalLines_from (vs : list (list ShoppingItem)) (start : Z) :
  fold_left (λ sum items, (sum + Z.of_nat (length items) + 1)%Z) vs start
  = (start + Z.of_nat (sum_list_with (λ items, (length items + 1)%nat) vs))%Z.
Proof.
  revert start. induction vs as [|items vs IH]; intros start; simpl.
  - lia.
  - rewrite IH. lia.
Qed.

Lemma printTotalLines_sum (remaining : RemainingItemsByCategory) :
  printTotalLines remaining
  = Z.of_nat (sum_list_with (λ entry, length entry.2 + 1) remaining).
Proof.
  unfold printTotalLines, JsObject.values.
  rewrite printTotalLines_from, Z.add_0_l. f_equal.
  induction remaining as [|e r IH]; simpl; [done | by f_equal].
Qed.

(** C3. [getPrintLayoutConfig] counts one line per item and one per
    category; it gives 3 columns exactly above 40 lines and 2 otherwise, and
    the font size 9 above 60 lines, else 10 above 45, else 11 above 30, else
    12; so 46 lines give 10, 31 give 11, 30 give 12 and 61 give 9. *)
Theorem getPrintLayoutConfig_thresholds (remaining : RemainingItemsByCategory) :
  let totalLines :=
    Z.of_nat (sum_list_with (λ entry, length entry.2 + 1) remaining) in
  let config := getPrintLayoutConfig remaining in
  printTotalLines remaining = totalLines
  ∧ columns config = (if decide (40 < totalLines)%Z then 3 else 2)%Z
  ∧ (columns config = 3%Z ↔ (40 < totalLines)%Z)
  ∧ (columns config = 2%Z ↔ ¬ (40 < totalLines)%Z)
  ∧ fontSize config
    = (if decide (60 < totalLines)%Z then 9
       else if decide (45 < totalLines)%Z then 10
       else if decide (30 < totalLines)%Z then 11
       else 12)%Z
  ∧ (∀ category x,
       fontSize (getPrintLayoutConfig [(category, replicate 45 x)]) = 10%Z
       ∧ fontSize (getPrintLayoutConfig [(category, replicate 30 x)]) = 11%Z
       ∧ fontSize (getPrintLayoutConfig [(category, replicate 29 x)]) = 12%Z
       ∧ fontSize (getPrintLayoutConfig [(category, replicate 60 x)]) = 9%Z
       ∧ printTotalLines [(category, replicate 45 x)] = 46%Z
       ∧ printTotalLines [(category, replicate 30 x)] = 31%Z
       ∧ printTotalLines [(category, replicate 29 x)] = 30%Z
       ∧ printTotalLines [(category, replicate 60 x)] = 61%Z).
Proof.
  intros totalLines config.
  assert (printTotalLines remaining = totalLines) as Htotal
    by apply printTotalLines_sum.
  split; [exact Htotal |].
  unfold config, getPrintLayoutConfig. rewrite Htotal. simpl.
  repeat split.
  - destruct (Z.ltb_spec 40 totalLines); case_decide; done || lia.
  - destruct (Z.ltb_spec 40 totalLines); [done | discriminate].
  - destruct (Z.ltb_spec 40 totalLines); [done | lia].
  - destruct (Z.ltb_spec 40 totalLines); [discriminate | lia].
  - destruct (Z.ltb_spec 40 totalLines); [lia | done].
  - destruct (Z.ltb_spec 60 totalLines), (Z.ltb_spec 45 totalLines),
      (Z.ltb_spec 30 totalLines); repeat case_decide; done || lia.
Qed.

(** ** Share text *)

Lemma shareLines_items (items : list ShoppingItem) (lines : list string) :
  fold_left (λ lines item, lines ++ [shareItemLine item]) items lines
  = lines ++ (shareItemLine <$> items).
Proof.
  revert lines. induction items as [|x items IH]; intros lines; simpl.
  - by rewrite app_nil_r.
  - rewrite IH, <- app_assoc. done.
Qed.

Lemma shareLines_from (remaining : RemainingItemsByCategory) (lines : list string) :
  fold_left
    (λ lines '(category, items),
       let lines := lines ++ [""] in
       let lines := lines ++ [category] in
       fold_left (λ lines item, lines ++ [shareItemLine item]) items lines)
    remaining lines
  = lines
    ++ (remaining ≫= (λ '(category, items),
                        "" :: category :: (shareItemLine <$> items))).
Proof.
  revert lines. induction remaining as [|[c items] r IH]; intros lines.
  - simpl. by rewrite app_nil_r.
  - rewrite bind_cons. cbn [fold_left]. rewrite IH, shareLines_items.
    by rewrite <- !app_assoc.
Qed.

Lemma shareLines_shareLinesSpec (remaining : RemainingItemsByCategory) :
  shareLines remaining = shareLinesSpec remaining.
Proof. unfold shareLines, JsObject.entries. by rewrite shareLines_from. Qed.

Lemma shareItemLine_nonEmpty (item : ShoppingItem) :
  shareItemLine item = shareItemLineNonEmpty item.
Proof.
  unfold shareItemLine, shareItemLineNonEmpty.
  destruct (amount item); case_decide; done.
Qed.

(** ** Trimming never reaches into the header *)

Module JsStringFacts.
Import JsString.

Lemma rev_app_append (a b acc : string) :
  String.rev_app (a +:+ b) acc = String.rev_app b (String.rev_app a acc).
Proof. revert acc. induction a as [|x a IH]; intros acc; simpl; [done | apply IH]. Qed.

Lemma rev_app_acc (s acc1 acc2 : string) :
  String.rev_app s (acc1 +:+ acc2) = String.rev_app s acc1 +:+ acc2.
Proof.
  revert acc1. induction s as [|x s IH]; intros acc1; simpl; [done |].
  apply (IH (String x acc1)).
Qed.

Lemma rev_append (a b : string) :
  String.rev (a +:+ b) = String.rev b +:+ String.rev a.
Proof.
  unfold String.rev. rewrite rev_app_append.
  apply (rev_app_acc b "" (String.rev_app a "")).
Qed.

Lemma append_cons (c : ascii) (s t : string) :
  String c s +:+ t = String c (s +:+ t).
Proof. reflexivity. Qed.

Lemma rev_involutive (s : string) : String.rev (String.rev s) = s.
Proof.
  induction s as [|c s IH]; [done |].
  change (String c s) with (String c "" +:+ s) at 1.
  rewrite rev_append, rev_append, IH. reflexivity.
Qed.

Section blank.
Variables (p1 : ascii → bool) (p2 : ascii → ascii → bool)
  (p3 : ascii → ascii → ascii → bool).

Lemma strip_unfold (c1 : ascii) (s1 : string) :
  strip p1 p2 p3 (String c1 s1)
  = if p1 c1 then strip p1 p2 p3 s1
    else
      match s1 with
      | "" => String c1 s1
      | String c2 s2 =>
          if p2 c1 c2 then strip p1 p2 p3 s2
          else
            match s2 with
            | "" => String c1 s1
            | String c3 s3 =>
                if p3 c1 c2 c3 then strip p1 p2 p3 s3 else String c1 s1
            end
      end.
Proof. reflexivity. Qed.

(** Stripping what has been stripped changes nothing. *)
Lemma strip_idempotent_bounded (n : nat) (s : string) :
  String.length s ≤ n →
  strip p1 p2 p3 (strip p1 p2 p3 s) = strip p1 p2 p3 s.
Proof.
  revert s. induction n as [|n IH]; intros s Hlen.
  { destruct s; [done | simpl in Hlen; lia]. }
  destruct s as [|c1 s]; [done |]. simpl in Hlen.
  rewrite (strip_unfold c1 s).
  destruct (p1 c1) eqn:H1; [apply IH; lia |].
  destruct s as [|c2 s]; [by rewrite strip_unfold, H1 |]. simpl in Hlen.
  destruct (p2 c1 c2) eqn:H2; [apply IH; lia |].
  destruct s as [|c3 s]; [by rewrite strip_unfold, H1, H2 |]. simpl in Hlen.
  destruct (p3 c1 c2 c3) eqn:H3; [apply IH; lia |].
  by rewrite strip_unfold, H1, H2, H3.
Qed.

Lemma strip_idempotent (s : string) :
  strip p1 p2 p3 (strip p1 p2 p3 s) = strip p1 p2 p3 s.
Proof. by apply (strip_idempotent_bounded (String.length s)). Qed.

Lemma blank_app (a b : string) :
  blank p1 p2 p3 a → blank p1 p2 p3 b → blank p1 p2 p3 (a +:+ b).
Proof.
  intros Ha Hb. induction Ha; rewrite ?append_cons; [done | | |];
    by constructor.
Qed.

(** The reverse of a blank string is blank for the characters read
    backwards. *)
Lemma blank_rev (s : string) :
  blank p1 (λ c2 c1, p2 c1 c2) (λ c3 c2 c1, p3 c1 c2 c3) s →
  blank p1 p2 p3 (String.rev s).
Proof.
  intros Hs. induction Hs as [|c1 s H1 _ IH|c1 c2 s H2 _ IH|c1 c2 c3 s H3 _ IH].
  - constructor.
  - change (String c1 s) with (String c1 "" +:+ s).
    rewrite rev_append. apply blank_app; [done |].
    by apply blank_1; [| constructor].
  - change (String c1 (String c2 s)) with (String c1 (String c2 "") +:+ s).
    rewrite rev_append. apply blank_app; [done |].
    by apply (blank_2 _ _ _ c2 c1 ""); [| constructor].
  - change (String c1 (String c2 (String c3 s)))
      with (String c1 (String c2 (String c3 "")) +:+ s).
    rewrite rev_append. apply blank_app; [done |].
    by apply (blank_3 _ _ _ c3 c2 c1 ""); [| constructor].
Qed.

End blank.

Lemma trimEnd_idempotent (s : string) : trimEnd (trimEnd s) = trimEnd s.
Proof.
  unfold trimEnd. by rewrite rev_involutive, strip_idempotent.
Qed.

Section strip.
Variables (p1 : ascii → bool) (p2 : ascii → ascii → bool)
  (p3 : ascii → ascii → ascii → bool) (stop : ascii).
Hypothesis stop1 : p1 stop = false.
Hypothesis stop2 : ∀ c, p2 stop c = false ∧ p2 c stop = false.
Hypothesis stop3 :
  ∀ c c', p3 stop c c' = false ∧ p3 c stop c' = false ∧ p3 c c' stop = false.

(** A byte that belongs to no white-space character stops [strip]. *)
Lemma strip_at_stop (u : string) :
  strip p1 p2 p3 (String stop u) = String stop u.
Proof.
  simpl. rewrite stop1. destruct u as [|c2 u]; [done |].
  rewrite (proj1 (stop2 c2)). destruct u as [|c3 u]; [done |].
  by rewrite (proj1 (stop3 c2 c3)).
Qed.

Lemma strip_before_stop_bounded (n : nat) (w u : string) :
  String.length w ≤ n →
  ∃ dropped w',
    w = dropped +:+ w'
    ∧ blank p1 p2 p3 dropped
    ∧ strip p1 p2 p3 (w +:+ String stop u) = w' +:+ String stop u.
Proof.
  revert w. induction n as [|n IH]; intros w Hlen.
  { destruct w; [| simpl in Hlen; lia].
    exists "", "". repeat split; [constructor | apply strip_at_stop]. }
  destruct w as [|c1 w];
    [exists "", ""; repeat split; [constructor | apply strip_at_stop] |].
  simpl in Hlen. rewrite append_cons, strip_unfold.
  destruct (p1 c1) eqn:H1.
  { destruct (IH w) as (d & w' & -> & Hblank & Hstrip); [lia |].
    exists (String c1 d), w'. repeat split; [by constructor | done]. }
  destruct w as [|c2 w].
  { exists "", (String c1 ""). repeat split; [constructor |]. simpl.
    rewrite (proj2 (stop2 c1)). destruct u as [|c3 u]; [done |].
    by rewrite (proj1 (proj2 (stop3 c1 c3))). }
  simpl in Hlen. rewrite ?append_cons.
  destruct (p2 c1 c2) eqn:H2.
  { destruct (IH w) as (d & w' & -> & Hblank & Hstrip); [lia |].
    exists (String c1 (String c2 d)), w'.
    repeat split; [by constructor | done]. }
  destruct w as [|c3 w].
  { exists "", (String c1 (String c2 "")). repeat split; [constructor |].
    simpl. by rewrite (proj2 (proj2 (stop3 c1 c2))). }
  simpl in Hlen. rewrite ?append_cons.
  destruct (p3 c1 c2 c3) eqn:H3.
  { destruct (IH w) as (d & w' & -> & Hblank & Hstrip); [lia |].
    exists (String c1 (String c2 (String c3 d))), w'.
    repeat split; [by constructor | done]. }
  exists "", (String c1 (String c2 (String c3 w))).
  repeat split. constructor.
Qed.

Lemma strip_before_stop (w u : string) :
  ∃ dropped w',
    w = dropped +:+ w'
    ∧ blank p1 p2 p3 dropped
    ∧ strip p1 p2 p3 (w +:+ String stop u) = w' +:+ String stop u.
Proof. by apply (strip_before_stop_bounded (String.length w)). Qed.

End strip.

(** The colon that ends the header is a byte of no white-space character. *)
Lemma colon_stops_ws1 : ws1 ":" = false.
Proof. reflexivity. Qed.

Lemma colon_stops_ws2 (c : ascii) :
  (λ c2 c1, ws2 c1 c2) ":"%char c = false
  ∧ (λ c2 c1, ws2 c1 c2) c ":"%char = false.
Proof.
  unfold ws2, code. simpl. split; [apply andb_false_r | done].
Qed.

Lemma colon_stops_ws3 (c c' : ascii) :
  (λ c3 c2 c1, ws3 c1 c2 c3) ":"%char c c' = false
  ∧ (λ c3 c2 c1, ws3 c1 c2 c3) c ":"%char c' = false
  ∧ (λ c3 c2 c1, ws3 c1 c2 c3) c c' ":"%char = false.
Proof.
  unfold ws3, code. simpl.
  repeat split;
    repeat match goal with
           | |- context [(N_of_ascii ?x =? ?n)%N] =>
               destruct (N_of_ascii x =? n)%N
           | |- context [(?n <=? N_of_ascii ?x)%N] =>
               destruct (n <=? N_of_ascii x)%N
           | |- context [(N_of_ascii ?x <=? ?n)%N] =>
               destruct (N_of_ascii x <=? n)%N
           end; reflexivity.
Qed.

(** Trimming the end of a text that starts with the header keeps the
    header: what is dropped is white space at the end of the text after the
    header. *)
Lemma trimEnd_header (s : string) :
  ∃ rest dropped,
    s = rest +:+ dropped
    ∧ whitespace dropped
    ∧ trimEnd (shareHeader +:+ s) = shareHeader +:+ rest.
Proof.
  unfold trimEnd. rewrite rev_append.
  change (String.rev shareHeader)
    with (String ":" (String.rev_app "Lista zakupów (do kupienia)" "")).
  destruct (strip_before_stop ws1 (λ c2 c1, ws2 c1 c2)
              (λ c3 c2 c1, ws3 c1 c2 c3) ":" colon_stops_ws1
              colon_stops_ws2 colon_stops_ws3 (String.rev s)
              (String.rev_app "Lista zakupów (do kupienia)" ""))
    as (d & w' & Hsplit & Hblank & ->).
  exists (String.rev w'), (String.rev d). repeat split.
  - by rewrite <- rev_append, <- Hsplit, rev_involutive.
  - by apply blank_rev.
  - rewrite rev_append. reflexivity.
Qed.

Lemma trimStart_header (s : string) :
  trimStart (shareHeader +:+ s) = shareHeader +:+ s.
Proof. reflexivity. Qed.

Lemma trim_header (s : string) :
  ∃ rest dropped,
    s = rest +:+ dropped
    ∧ whitespace dropped
    ∧ trim (shareHeader +:+ s) = shareHeader +:+ rest.
Proof. unfold trim. rewrite trimStart_header. apply trimEnd_header. Qed.

(** The trimmed text is left as it is by another trim. *)
Lemma trim_header_idempotent (s : string) :
  trim (trim (shareHeader +:+ s)) = trim (shareHeader +:+ s).
Proof.
  destruct (trim_header s) as (rest & dropped & _ & _ & Htrim).
  rewrite Htrim at 1. unfold trim at 1. rewrite trimStart_header, <- Htrim.
  unfold trim. rewrite trimStart_header. apply trimEnd_idempotent.
Qed.

Lemma append_nil_r (x : string) : x +:+ "" = x.
Proof.
  induction x as [|c x IH]; [done |]. rewrite append_cons. congruence.
Qed.

Lemma join_cons (sep x : string) (rest : list string) :
  ∃ tail, join sep (x :: rest) = x +:+ tail.
Proof.
  destruct rest as [|y rest].
  - exists "". simpl. by rewrite append_nil_r.
  - by exists (sep +:+ join sep (y :: rest)).
Qed.

End JsStringFacts.

(** ** The claims about the share text *)

(** C4, as the specification states it, fails: the amount is not trimmed
    before it is tested, so an amount of one space is put in parentheses. *)
Lemma shareItemLine_whitespace_amount :
  JsString.trim (amount (item "Marchew" " ")) = ""
  ∧ shareItemLineSpec (item "Marchew" " ") = "- Marchew"
  ∧ shareItemLine (item "Marchew" " ") = "- Marchew ( )"
  ∧ shareItemLine (item "Marchew" " ") ≠ shareItemLineSpec (item "Marchew" " ")
  ∧ buildShareText [("Warzywa", [item "Marchew" " "])]
    = shareHeader +:+ JsString.LF +:+ JsString.LF +:+ "Warzywa"
      +:+ JsString.LF +:+ "- Marchew ( )".
Proof.
  repeat split; try (vm_compute; reflexivity).
  intros Heq. vm_compute in Heq. discriminate Heq.
Qed.

(** C4, amended. The line of an item is ["- "] and its name, followed by the
    amount in parentheses exactly when the amount is not the empty string;
    the amount is not trimmed. Every item line that [buildShareText] pushes
    is of that form. *)
Theorem shareItemLine_suffix_iff_nonempty (x : ShoppingItem) :
  shareItemLine x
  = "- " +:+ name x
    +:+ (if decide (amount x = "") then "" else " (" +:+ amount x +:+ ")")
  ∧ ∀ remaining : RemainingItemsByCategory,
      shareLines remaining
      = shareHeader
        :: (remaining ≫= (λ '(category, items),
                            "" :: category :: (shareItemLineNonEmpty <$> items))).
Proof.
  split; [apply shareItemLine_nonEmpty |].
  intros remaining. rewrite shareLines_shareLinesSpec. unfold shareLinesSpec.
  f_equal. induction remaining as [|[c items] r IH]; [done |].
  rewrite !bind_cons, IH. do 3 f_equal.
  apply list_fmap_ext. intros _ y _. apply shareItemLine_nonEmpty.
Qed.

(** ** The circular scan of [getNextAvailableDay] *)

Section planner.

Lemma indexOf_from_spec (xs : list string) (x : string) (base : Z) :
  ((x ∉ xs) ∧ JsArray.indexOf_from base xs x = (-1)%Z)
  ∨ ∃ i, xs !! i = Some x
         ∧ (∀ j, j < i → xs !! j ≠ Some x)
         ∧ JsArray.indexOf_from base xs x = (base + Z.of_nat i)%Z.
Proof.
  revert base. induction xs as [|y xs IH]; intros base; simpl.
  - left. split; [apply not_elem_of_nil | done].
  - destruct (decide (y = x)) as [->|Hne].
    + right. exists 0. repeat split; [lia | simpl; lia].
    + destruct (IH (base + 1)%Z) as [[Hnot Hres]|(i & Hi & Hfirst & Hres)].
      * left. split; [| done]. rewrite not_elem_of_cons. by split.
      * right. exists (S i). repeat split; [done | | lia].
        intros [|j] Hj; simpl; [congruence | apply Hfirst; lia].
Qed.

Lemma indexOf_not_found (xs : list string) (x : string) :
  JsArray.indexOf xs x = (-1)%Z ↔ x ∉ xs.
Proof.
  unfold JsArray.indexOf.
  destruct (indexOf_from_spec xs x 0) as [[Hnot Hres]|(i & Hi & _ & Hres)].
  - by rewrite Hres.
  - rewrite Hres. split; [lia |].
    intros Hnot. exfalso. apply Hnot. by eapply list_elem_of_lookup_2.
Qed.

Lemma indexOf_found (xs : list string) (x : string) :
  x ∈ xs →
  ∃ i, xs !! i = Some x
       ∧ (∀ j, j < i → xs !! j ≠ Some x)
       ∧ JsArray.indexOf xs x = Z.of_nat i.
Proof.
  intros Hin. unfold JsArray.indexOf.
  destruct (indexOf_from_spec xs x 0) as [[Hnot _]|(i & Hi & Hfirst & Hres)];
    [done |].
  exists i. by rewrite Hres.
Qed.

(** The count of distinct names is the size of the set. *)
Lemma size_assignedSet (assignedDays : list string) :
  size (list_to_set assignedDays : gset string)
  = length (remove_dups assignedDays).
Proof.
  rewrite <- (size_list_to_set (C := gset string))
    by apply NoDup_remove_dups.
  f_equal. apply set_eq. intros x.
  by rewrite !elem_of_list_to_set, elem_of_remove_dups.
Qed.

Variable assignedSet : gset string.
Variable weekDays : list string.
Hypothesis weekDays_nonempty : 0 < length weekDays.

Lemma scan_index (startIndex offset : nat) :
  Z.to_nat (Z.rem (Z.of_nat startIndex + Z.of_nat offset)
              (Z.of_nat (length weekDays)))
  = (startIndex + offset) mod length weekDays.
Proof.
  rewrite Z.rem_mod_nonneg by lia.
  rewrite <- Nat2Z.inj_add, <- Nat2Z.inj_mod. apply Nat2Z.id.
Qed.

(** What the loop does from [offset] on, in [steps] iterations: it returns
    the first day at the scanned positions that is not assigned, or falls
    through when every scanned position holds an assigned day. *)
Lemma scanDays_spec (startIndex : nat) (steps offset : nat) :
  (∃ k d,
      k < steps
      ∧ weekDays !! ((startIndex + offset + k) mod length weekDays) = Some d
      ∧ (d ∉ assignedSet)
      ∧ (∀ j, j < k →
           ∃ d', weekDays !! ((startIndex + offset + j) mod length weekDays)
                 = Some d'
                 ∧ d' ∈ assignedSet)
      ∧ scanDays assignedSet weekDays (Z.of_nat startIndex)
          (Z.of_nat offset) steps = Day d)
  ∨ ((∀ j, j < steps →
        ∃ d', weekDays !! ((startIndex + offset + j) mod length weekDays)
              = Some d'
              ∧ d' ∈ assignedSet)
     ∧ scanDays assignedSet weekDays (Z.of_nat startIndex)
         (Z.of_nat offset) steps = Null).
Proof.
  revert offset. induction steps as [|steps IH]; intros offset.
  { right. split; [intros j Hj; lia | done]. }
  cbn [scanDays]. rewrite scan_index.
  assert ((startIndex + offset) mod length weekDays < length weekDays)
    as Hlt by (apply Nat.mod_upper_bound; lia).
  destruct (lookup_lt_is_Some_2 _ _ Hlt) as [candidate Hcandidate].
  rewrite Hcandidate. destruct (decide (candidate ∈ assignedSet)) as [Hin|Hout].
  - replace (Z.of_nat offset + 1)%Z with (Z.of_nat (S offset)) by lia.
    destruct (IH (S offset)) as [(k & d & Hk & Hd & Hfree & Hbefore & Hres)
                                |[Hall Hres]].
    + left. exists (S k), d. repeat split; [lia | | done | | done].
      * by replace (startIndex + offset + S k)
          with (startIndex + S offset + k) by lia.
      * intros [|j] Hj.
        -- exists candidate. by rewrite Nat.add_0_r.
        -- replace (startIndex + offset + S j)
             with (startIndex + S offset + j) by lia.
           apply Hbefore. lia.
    + right. split; [| done]. intros [|j] Hj.
      * exists candidate. by rewrite Nat.add_0_r.
      * replace (startIndex + offset + S j)
          with (startIndex + S offset + j) by lia.
        apply Hall. lia.
  - left. exists 0, candidate. rewrite Nat.add_0_r.
    repeat split; [lia | done | done | intros j Hj; lia].
Qed.

(** One full rotation visits every position. *)
Lemma scan_covers (startIndex index : nat) :
  startIndex < length weekDays → index < length weekDays →
  ∃ j, j < length weekDays
       ∧ (startIndex + 1 + j) mod length weekDays = index.
Proof.
  intros Hs Hi. destruct (decide (startIndex < index)) as [Hlt|Hge].
  - exists (index - startIndex - 1). split; [lia |].
    replace (startIndex + 1 + (index - startIndex - 1)) with index by lia.
    by apply Nat.mod_small.
  - exists (index + length weekDays - startIndex - 1). split; [lia |].
    replace (startIndex + 1 + (index + length weekDays - startIndex - 1))
      with (index + 1 * length weekDays) by lia.
    rewrite Nat.Div0.mod_add. by apply Nat.mod_small.
Qed.

(** With distinct day names and fewer assigned names than days, some day
    is not assigned. *)
Lemma not_all_assigned :
  NoDup weekDays → size assignedSet < length weekDays →
  ¬ Forall (λ d, d ∈ assignedSet) weekDays.
Proof.
  intros Hnd Hsize Hall.
  assert ((list_to_set weekDays : gset string) ⊆ assignedSet) as Hsub.
  { intros d Hd. apply elem_of_list_to_set in Hd.
    by eapply Forall_forall in Hall. }
  apply subseteq_size in Hsub. rewrite size_list_to_set in Hsub by done. lia.
Qed.

Lemma scanDays_full_rotation (startIndex : nat) :
  startIndex < length weekDays →
  scanDays assignedSet weekDays (Z.of_nat startIndex) 1 (length weekDays)
  = Null →
  Forall (λ d, d ∈ assignedSet) weekDays.
Proof.
  intros Hs Hnull.
  destruct (scanDays_spec startIndex (length weekDays) 1)
    as [(k & d & _ & _ & _ & _ & Hres)|[Hall _]].
  { change (Z.of_nat 1) with 1%Z in Hres. congruence. }
  apply Forall_forall. intros d Hd.
  apply list_elem_of_lookup_1 in Hd as [i Hi].
  destruct (scan_covers startIndex i Hs (lookup_lt_Some _ _ _ Hi))
    as (j & Hj & Hpos).
  destruct (Hall j Hj) as (d' & Hd' & Hin).
  rewrite Hpos, Hi in Hd'. by injection Hd' as <-.
Qed.

End planner.

(** ** The claims about [getNextAvailableDay] *)

Lemma getNextAvailableDay_guarded (assignedDays weekDays : list string)
    (currentDay : string) :
  getNextAvailableDay assignedDays weekDays currentDay
  = if decide (dayGuard assignedDays weekDays currentDay) then Null
    else scanDays (list_to_set assignedDays) weekDays
           (JsArray.indexOf weekDays currentDay) 1 (length weekDays).
Proof.
  unfold getNextAvailableDay. rewrite size_assignedSet.
  destruct (decide (dayGuard assignedDays weekDays currentDay))
    as [[Hnil|[Hfull|Hnot]]|Hguard].
  - by rewrite Hnil.
  - apply Nat.leb_le in Hfull. rewrite Hfull. by destruct (length weekDays =? 0).
  - apply indexOf_not_found in Hnot. rewrite Hnot.
    by destruct (length weekDays =? 0),
         (length weekDays <=? length (remove_dups assignedDays)).
  - destruct (Nat.eqb_spec (length weekDays) 0) as [Hnil|_].
    { exfalso. apply Hguard. left. by apply length_zero_iff_nil. }
    destruct (Nat.leb_spec (length weekDays)
                (length (remove_dups assignedDays))) as [Hfull|_].
    { exfalso. apply Hguard. right. by left. }
    destruct (Z.eqb_spec (JsArray.indexOf weekDays currentDay) (-1))
      as [Hnone|_]; [| done].
    exfalso. apply Hguard. right. right. by apply indexOf_not_found.
Qed.

Lemma getNextAvailableDay_scan (assignedDays weekDays : list string)
    (currentDay : string) :
  ¬ dayGuard assignedDays weekDays currentDay →
  ∃ startIndex,
    weekDays !! startIndex = Some currentDay
    ∧ (∀ j, j < startIndex → weekDays !! j ≠ Some currentDay)
    ∧ getNextAvailableDay assignedDays weekDays currentDay
      = scanDays (list_to_set assignedDays) weekDays (Z.of_nat startIndex) 1
          (length weekDays).
Proof.
  intros Hguard. rewrite getNextAvailableDay_guarded, decide_False by done.
  destruct (decide (currentDay ∈ weekDays)) as [Hin|Hout].
  - destruct (indexOf_found _ _ Hin) as (i & Hi & Hfirst & ->). by exists i.
  - exfalso. apply Hguard. right. by right.
Qed.

(** The result is [null] when a guard holds or the whole rotation meets
    assigned days only. *)
Lemma getNextAvailableDay_null_iff (assignedDays weekDays : list string)
    (currentDay : string) :
  getNextAvailableDay assignedDays weekDays currentDay = Null
  ↔ dayGuard assignedDays weekDays currentDay
    ∨ Forall (λ day, day ∈ assignedDays) weekDays.
Proof.
  rewrite getNextAvailableDay_guarded.
  destruct (decide (dayGuard assignedDays weekDays currentDay))
    as [Hguard|Hguard]; [split; [by left | done] |].
  assert (0 < length weekDays) as Hlen.
  { destruct weekDays; [| simpl; lia]. exfalso. apply Hguard. by left. }
  assert (currentDay ∈ weekDays) as Hin.
  { apply dec_stable. intros Hnot. apply Hguard. right. by right. }
  destruct (indexOf_found _ _ Hin) as (s & Hs & _ & ->).
  split.
  - intros Hres. right.
    eapply Forall_impl;
      [eapply scanDays_full_rotation; [done | | exact Hres] |].
    + by eapply lookup_lt_Some.
    + intros d Hd. by apply elem_of_list_to_set in Hd.
  - intros [Hyes|Hall]; [done |].
    destruct (scanDays_spec (list_to_set assignedDays) weekDays Hlen s
                (length weekDays) 1)
      as [(k & d & _ & Hd & Hfree & _ & _)|[_ Hres]];
      [| exact Hres].
    exfalso. apply Hfree. apply elem_of_list_to_set.
    eapply Forall_forall in Hall; [exact Hall |].
    by eapply list_elem_of_lookup_2.
Qed.

(** An array read of the scan is never past the end: the result is [null]
    or a day. *)
Lemma getNextAvailableDay_defined (assignedDays weekDays : list string)
    (currentDay : string) :
  getNextAvailableDay assignedDays weekDays currentDay ≠ Undefined.
Proof.
  rewrite getNextAvailableDay_guarded.
  destruct (decide (dayGuard assignedDays weekDays currentDay))
    as [Hguard|Hguard]; [done |].
  assert (0 < length weekDays) as Hlen.
  { destruct weekDays; [| simpl; lia]. exfalso. apply Hguard. by left. }
  assert (currentDay ∈ weekDays) as Hin.
  { apply dec_stable. intros Hnot. apply Hguard. right. by right. }
  destruct (indexOf_found _ _ Hin) as (s & Hs & _ & ->).
  destruct (scanDays_spec (list_to_set assignedDays) weekDays Hlen s
              (length weekDays) 1)
    as [(k & d & _ & _ & _ & _ & Hres)|[_ Hres]];
    change (Z.of_nat 1) with 1%Z in Hres; by rewrite Hres.
Qed.

(** With distinct day names, the current day among them and room left, the
    scan stops at the first position after the current day whose day is not
    assigned. *)
Lemma scan_first_free (assignedDays weekDays : list string)
    (currentDay : string) :
  NoDup weekDays →
  length (remove_dups assignedDays) < length weekDays →
  currentDay ∈ weekDays →
  ∃ startIndex step day,
    weekDays !! startIndex = Some currentDay
    ∧ step < length weekDays
    ∧ weekDays !! ((startIndex + 1 + step) mod length weekDays) = Some day
    ∧ (day ∉ assignedDays)
    ∧ (∀ earlier, earlier < step →
         ∃ day', weekDays !! ((startIndex + 1 + earlier) mod length weekDays)
                 = Some day'
                 ∧ day' ∈ assignedDays)
    ∧ scanDays (list_to_set assignedDays) weekDays
        (JsArray.indexOf weekDays currentDay) 1 (length weekDays) = Day day
    ∧ getNextAvailableDay assignedDays weekDays currentDay = Day day.
Proof.
  intros Hnd Hroom Hin.
  assert (0 < length weekDays) as Hlen by lia.
  assert (¬ dayGuard assignedDays weekDays currentDay) as Hguard.
  { intros [Hnil|[Hfull|Hnot]];
      [rewrite Hnil in Hlen; simpl in Hlen; lia | lia | done]. }
  rewrite getNextAvailableDay_guarded, decide_False by done.
  destruct (indexOf_found _ _ Hin) as (s & Hs & _ & ->).
  destruct (scanDays_spec (list_to_set assignedDays) weekDays Hlen s
              (length weekDays) 1)
    as [(k & d & Hk & Hd & Hfree & Hbefore & Hres)|[_ Hres]];
    change (Z.of_nat 1) with 1%Z in Hres.
  - exists s, k, d. repeat split; try done.
    + by rewrite elem_of_list_to_set in Hfree.
    + intros j Hj. destruct (Hbefore j Hj) as (d' & Hd' & Hin').
      exists d'. by rewrite elem_of_list_to_set in Hin'.
  - exfalso.
    apply (not_all_assigned (list_to_set assignedDays) weekDays Hlen Hnd).
    + by rewrite size_assignedSet.
    + eapply scanDays_full_rotation; [done | | exact Hres].
      by eapply lookup_lt_Some.
Qed.

(** C7. With distinct week-day names, when the three guards pass the scan
    finds a day that is not assigned within one rotation: the loop does not
    fall through to the final [return null]. *)
Theorem getNextAvailableDay_scan_succeeds (assignedDays weekDays : list string)
    (currentDay : string) :
  NoDup weekDays →
  weekDays ≠ [] →
  length (remove_dups assignedDays) < length weekDays →
  currentDay ∈ weekDays →
  scanDays (list_to_set assignedDays) weekDays
    (JsArray.indexOf weekDays currentDay) 1 (length weekDays) ≠ Null
  ∧ ∃ day, getNextAvailableDay assignedDays weekDays currentDay = Day day
           ∧ day ∈ weekDays
           ∧ day ∉ assignedDays.
Proof.
  intros Hnd _ Hroom Hin.
  destruct (scan_first_free _ _ _ Hnd Hroom Hin)
    as (s & k & d & _ & _ & Hd & Hfree & _ & Hscan & Hres).
  split; [by rewrite Hscan |].
  exists d. repeat split; [done | | done].
  by eapply list_elem_of_lookup_2.
Qed.

Lemma getNextAvailableDay_scan_succeeds_witness :
  NoDup weekDays7
  ∧ weekDays7 ≠ []
  ∧ length (remove_dups ["Fri"; "Sun"]) < length weekDays7
  ∧ "Fri" ∈ weekDays7
  ∧ ∃ day, getNextAvailableDay ["Fri"; "Sun"] weekDays7 "Fri" = Day day
           ∧ day ∈ weekDays7
           ∧ day ∉ ["Fri"; "Sun"].
Proof.
  assert (NoDup weekDays7) as Hnd
    by (apply (bool_decide_unpack _); vm_compute; exact I).
  assert (weekDays7 ≠ []) as Hne by discriminate.
  assert (length (remove_dups ["Fri"; "Sun"]) < length weekDays7) as Hroom
    by (vm_compute; lia).
  assert ("Fri" ∈ weekDays7) as Hin
    by (apply (bool_decide_unpack _); vm_compute; exact I).
  repeat (split; [assumption |]).
  apply (getNextAvailableDay_scan_succeeds ["Fri"; "Sun"] weekDays7 "Fri"
           Hnd Hne Hroom Hin).
Defined.

(** C2. With distinct week-day names, a current day among them and fewer
    distinct assigned names than days, [getNextAvailableDay] scans the
    positions after the index of the current day, wrapping to index 0, for at
    most as many steps as there are days, and returns the first day it meets
    that is not assigned; with only Sunday assigned in the Monday-first
    week, the day after Sunday is Monday. *)
Theorem getNextAvailableDay_first_free (assignedDays weekDays : list string)
    (currentDay : string) :
  weekDays ≠ [] →
  NoDup weekDays →
  currentDay ∈ weekDays →
  length (remove_dups assignedDays) < length weekDays →
  (∃ startIndex step day,
      weekDays !! startIndex = Some currentDay
      ∧ step < length weekDays
      ∧ weekDays !! ((startIndex + 1 + step) mod length weekDays) = Some day
      ∧ (day ∉ assignedDays)
      ∧ (∀ earlier, earlier < step →
           ∃ day', weekDays !! ((startIndex + 1 + earlier) mod length weekDays)
                   = Some day'
                   ∧ day' ∈ assignedDays)
      ∧ getNextAvailableDay assignedDays weekDays currentDay = Day day)
  ∧ getNextAvailableDay ["Sun"] weekDays7 "Sun" = Day "Mon".
Proof.
  intros _ Hnd Hin Hroom. split; [| vm_compute; reflexivity].
  destruct (scan_first_free _ _ _ Hnd Hroom Hin)
    as (s & k & d & Hs & Hk & Hd & Hfree & Hbefore & _ & Hres).
  by exists s, k, d.
Qed.

Lemma getNextAvailableDay_first_free_witness :
  weekDays7 ≠ []
  ∧ NoDup weekDays7
  ∧ "Sun" ∈ weekDays7
  ∧ length (remove_dups ["Sun"]) < length weekDays7
  ∧ getNextAvailableDay ["Sun"] weekDays7 "Sun" = Day "Mon".
Proof.
  assert (weekDays7 ≠ []) as Hne by discriminate.
  assert (NoDup weekDays7) as Hnd
    by (apply (bool_decide_unpack _); vm_compute; exact I).
  assert ("Sun" ∈ weekDays7) as Hin
    by (apply (bool_decide_unpack _); vm_compute; exact I).
  assert (length (remove_dups ["Sun"]) < length weekDays7) as Hroom
    by (vm_compute; lia).
  repeat (split; [assumption |]).
  apply (getNextAvailableDay_first_free ["Sun"] weekDays7 "Sun"
           Hne Hnd Hin Hroom).
Defined.

(** C6. [getNextAvailableDay] returns [null] in each of its three guards,
    which are tested before the scan and are the only tests before it: the
    week is empty, the distinct assigned names are at least as many as the
    days (whether or not they are days of the week, and however often they
    are repeated), or the current day is not a day of the week. Past the
    guards the result is that of the scan; the scan gives [null] only when
    every day of the week is assigned, which the second guard excludes when
    the day names are distinct, so that then the result is [null] in the
    guard cases only. *)
Theorem getNextAvailableDay_null_guards (assignedDays weekDays : list string)
    (currentDay : string) :
  (weekDays = [] → getNextAvailableDay assignedDays weekDays currentDay = Null)
  ∧ (length weekDays ≤ length (remove_dups assignedDays) →
     getNextAvailableDay assignedDays weekDays currentDay = Null)
  ∧ (currentDay ∉ weekDays →
     getNextAvailableDay assignedDays weekDays currentDay = Null)
  ∧ getNextAvailableDay assignedDays weekDays currentDay
    = (if decide (weekDays = []
                  ∨ length weekDays ≤ length (remove_dups assignedDays)
                  ∨ currentDay ∉ weekDays)
       then Null
       else scanDays (list_to_set assignedDays) weekDays
              (JsArray.indexOf weekDays currentDay) 1 (length weekDays))
  ∧ (getNextAvailableDay assignedDays weekDays currentDay = Null
     ↔ (weekDays = []
        ∨ length weekDays ≤ length (remove_dups assignedDays)
        ∨ currentDay ∉ weekDays)
       ∨ Forall (λ day, day ∈ assignedDays) weekDays)
  ∧ (NoDup weekDays →
     getNextAvailableDay assignedDays weekDays currentDay = Null
     ↔ weekDays = []
       ∨ length weekDays ≤ length (remove_dups assignedDays)
       ∨ currentDay ∉ weekDays)
  ∧ getNextAvailableDay ["x"; "y"] ["a"; "b"] "a" = Null
  ∧ getNextAvailableDay ["a"; "a"] ["a"; "b"] "a" = Day "b".
Proof.
  pose proof (getNextAvailableDay_guarded assignedDays weekDays currentDay)
    as Hguarded.
  pose proof (getNextAvailableDay_null_iff assignedDays weekDays currentDay)
    as Hnull.
  unfold dayGuard in Hguarded, Hnull.
  split; [| split; [| split; [| split; [| split; [| split]]]]].
  - intros H. rewrite Hguarded. by rewrite decide_True by by left.
  - intros H. rewrite Hguarded. by rewrite decide_True by (right; by left).
  - intros H. rewrite Hguarded. by rewrite decide_True by (right; by right).
  - exact Hguarded.
  - exact Hnull.
  - intros Hnd. rewrite Hnull. split; [| by left].
    intros [Hguard|Hall]; [done |].
    destruct weekDays as [|day weekDays']; [by left |].
    right. left. apply Nat.nlt_ge. intros Hroom.
    eapply (not_all_assigned (list_to_set assignedDays) (day :: weekDays'));
      [simpl; lia | done | by rewrite size_assignedSet |].
    eapply Forall_impl; [exact Hall |].
    intros d Hd. by apply elem_of_list_to_set.
  - split; vm_compute; reflexivity.
Qed.

(** ** The examples of the specification *)

Example scenario_remaining :
  getRemainingItemsByCategory (Some exampleList) exampleChecked
  = [("Warzywa", [item "Cebula" "2 szt"]); ("Nabiał", [item "Mleko" "1 l"])]
  ∧ countRemainingItems
      (getRemainingItemsByCategory (Some exampleList) exampleChecked) = 2%Z.
Proof. split; vm_compute; reflexivity. Qed.

Example scenario_all_checked :
  getRemainingItemsByCategory (Some exampleList)
    {["Warzywa-0" := true; "Warzywa-1" := true; "Nabiał-0" := true]}
  = JsObject.empty.
Proof. vm_compute. reflexivity. Qed.

Example scenario_share_text :
  buildShareText
    [("Warzywa", [item "Cebula" "2 szt"]); ("Nabiał", [item "Mleko" "1 l"])]
  = JsString.join JsString.LF
      ["Lista zakupów (do kupienia):"; ""; "Warzywa"; "- Cebula (2 szt)"; "";
       "Nabiał"; "- Mleko (1 l)"].
Proof. vm_compute. reflexivity. Qed.

Example scenario_print_layout (x : ShoppingItem) :
  getPrintLayoutConfig [("Produkty", replicate 50 x)]
  = {| columns := 3; fontSize := 10 |}.
Proof. reflexivity. Qed.

Example scenario_trim :
  JsString.trim
    (" " +:+ JsString.LF +:+ "a b" +:+ String "194" (String "160" "")
     +:+ String "009" "")
  = "a b".
Proof. vm_compute. reflexivity. Qed.

Example scenario_fromEntries_order :
  JsObject.fromEntries [("b", 1); ("10", 2); ("2", 3); ("a", 4); ("b", 5)]
  = [("2", 3); ("10", 2); ("b", 5); ("a", 4)].
Proof. vm_compute. reflexivity. Qed.

Example scenario_next_day :
  getNextAvailableDay ["Mon"] weekDays7 "Mon" = Day "Tue"
  ∧ getNextAvailableDay ["Fri"; "Sun"] weekDays7 "Fri" = Day "Sat"
  ∧ getNextAvailableDay ["Mon"; "Tue"; "Wed"] ["Mon"; "Tue"; "Wed"] "Mon" = Null
  ∧ getNextAvailableDay ["Mon"] [] "Mon" = Null
  ∧ getNextAvailableDay ["Mon"] weekDays7 "NotADay" = Null.
Proof. repeat split; vm_compute; reflexivity. Qed.

(** * Beyond the specification: the callers and the producers of the data *)

(** ** Composite keys *)

Lemma pretty_N_char_digit (d : N) :
  (d < 10)%N → JsObject.is_digit (pretty_N_char d) = true.
Proof.
  intros Hd. unfold pretty_N_char.
  destruct d as [|[[[[|[]|]|[[]|[]|]|]|[[[]|[]|]|[[]|[]|]|]|]|[[[]|[]|]|[[]|[]|]|]|]];
    try reflexivity; lia.
Qed.

Lemma pretty_N_go_digits (x : N) (s : string) :
  all_digits s = true → all_digits (pretty_N_go x s) = true.
Proof.
  revert s.
  induction x as [x IHx] using (well_founded_induction N.lt_wf_0).
  intros s Hs. destruct (N.eq_dec x 0%N) as [->|Hx].
  { exact Hs. }
  rewrite pretty_N_go_step by lia.
  apply IHx; [apply N.div_lt; lia |].
  simpl. rewrite Hs, andb_true_r.
  apply pretty_N_char_digit, N.mod_lt. lia.
Qed.

Lemma of_index_digits (index : nat) :
  all_digits (JsString.of_index index) = true.
Proof.
  unfold JsString.of_index, pretty, pretty_nat, pretty, pretty_N.
  case_decide; [done |]. by apply pretty_N_go_digits.
Qed.

Lemma append_nil_l (s : string) : "" +:+ s = s.
Proof. reflexivity. Qed.

Ltac unfold_append :=
  repeat (rewrite JsStringFacts.append_cons in * || rewrite append_nil_l in * ).

(** A string of digits does not hold a hyphen. *)
Lemma digits_no_hyphen (d a b : string) :
  all_digits d = true → d ≠ a +:+ "-" +:+ b.
Proof.
  revert d. induction a as [|x a IH]; intros d Hd Heq.
  - rewrite Heq in Hd. unfold_append. simpl in Hd. discriminate.
  - rewrite Heq in Hd. rewrite JsStringFacts.append_cons in Hd. simpl in Hd.
    apply andb_true_iff in Hd as [_ Hd]. by eapply IH.
Qed.

Lemma hyphen_split_inj (c1 c2 d1 d2 : string) :
  all_digits d1 = true → all_digits d2 = true →
  c1 +:+ "-" +:+ d1 = c2 +:+ "-" +:+ d2 → c1 = c2 ∧ d1 = d2.
Proof.
  intros H1 H2. revert c2.
  induction c1 as [|x c1 IH]; intros [|y c2] Heq.
  - unfold_append. by injection Heq as ->.
  - rewrite append_nil_l, (JsStringFacts.append_cons y) in Heq.
    rewrite JsStringFacts.append_cons, append_nil_l in Heq.
    injection Heq as _ Heq. by apply digits_no_hyphen in Heq.
  - rewrite append_nil_l, (JsStringFacts.append_cons x) in Heq.
    rewrite (JsStringFacts.append_cons "-" "") , append_nil_l in Heq.
    injection Heq as _ Heq. symmetry in Heq. by apply digits_no_hyphen in Heq.
  - rewrite (JsStringFacts.append_cons x), (JsStringFacts.append_cons y) in Heq.
    injection Heq as -> Heq.
    destruct (IH _ Heq) as [-> ->]. done.
Qed.

Lemma checkedKey_inj (c1 c2 : string) (i1 i2 : nat) :
  checkedKey c1 i1 = checkedKey c2 i2 → c1 = c2 ∧ i1 = i2.
Proof.
  unfold checkedKey. intros Heq.
  apply hyphen_split_inj in Heq as [-> Hd]; try apply of_index_digits.
  split; [done |]. by apply (inj pretty).
Qed.

(** X1. Two positions of a shopping list never share their composite key:
    the key of [(category, index)] determines both the category and the
    index, whatever characters the category holds. *)
Theorem checkedKey_injective (c1 c2 : string) (i1 i2 : nat) :
  checkedKey c1 i1 = checkedKey c2 i2 ↔ c1 = c2 ∧ i1 = i2.
Proof.
  split; [apply checkedKey_inj | by intros [-> ->]].
Qed.

(** ** Toggling items in the shopping view *)

Lemma filter_from_ext {A} (p q : A → nat → bool) (index : nat) (xs : list A) :
  (∀ x i, p x i = q x i) →
  JsArray.filter_from index p xs = JsArray.filter_from index q xs.
Proof.
  intros Hpq. revert index.
  induction xs as [|x xs IH]; intros index; simpl; [done |].
  by rewrite Hpq, IH.
Qed.

(** The remaining items depend on the checked map through the truthiness of
    its entries only. *)
Lemma getRemainingItemsByCategory_ext (shoppingList : option ShoppingList)
    (first second : gmap string bool) :
  (∀ key, truthy_flag (first !! key) = truthy_flag (second !! key)) →
  getRemainingItemsByCategory shoppingList first
  = getRemainingItemsByCategory shoppingList second.
Proof.
  intros Hsame. destruct shoppingList as [l|]; [| done].
  unfold getRemainingItemsByCategory. do 2 f_equal.
  apply map_ext. intros [c items]. f_equal.
  apply filter_from_ext. intros _ i. by rewrite Hsame.
Qed.

Lemma toggleItem_lookup (checkedItems : gmap string bool)
    (category : string) (index : nat) (key : string) :
  truthy_flag (toggleItem checkedItems category index !! key)
  = if decide (key = checkedKey category index)
    then negb (truthy_flag (checkedItems !! key))
    else truthy_flag (checkedItems !! key).
Proof.
  unfold toggleItem. case_decide as Hkey.
  - subst key. by rewrite lookup_insert_eq.
  - by rewrite lookup_insert_ne.
Qed.

Lemma elem_of_itemPositions (shoppingList : ShoppingList) (c : string) (i : nat) :
  (c, i) ∈ itemPositions shoppingList
  ↔ ∃ items, (c, items) ∈ shoppingList ∧ i < length items.
Proof.
  unfold itemPositions. rewrite list_elem_of_bind. split.
  - intros ([c' items] & Hin & Hl). apply list_elem_of_fmap in Hin as (j & Heq & Hj).
    injection Heq as -> ->. apply elem_of_seq in Hj. exists items. split; [done | lia].
  - intros (items & Hl & Hi). exists (c, items). split; [| done].
    apply list_elem_of_fmap. exists i. split; [done |]. apply elem_of_seq. lia.
Qed.

Lemma NoDup_itemPositions (shoppingList : ShoppingList) :
  NoDup (JsObject.keys shoppingList) → NoDup (itemPositions shoppingList).
Proof.
  unfold itemPositions, JsObject.keys.
  induction shoppingList as [|[c items] l IH]; intros Hnd; [constructor |].
  rewrite fmap_cons in Hnd. apply NoDup_cons in Hnd as [Hc Hnd].
  rewrite bind_cons. apply NoDup_app. repeat split.
  - apply NoDup_fmap_2; [| apply NoDup_seq]. by intros i j [= ->].
  - intros [c' i] Hin Hin'. apply list_elem_of_fmap in Hin as (j & Heq & _).
    injection Heq as -> ->.
    apply (elem_of_itemPositions l) in Hin' as (items' & Hl & _).
    apply Hc. apply list_elem_of_fmap. by exists (c, items').
  - by apply IH.
Qed.

Lemma filter_ext_in {A} (P Q : A → Prop) `{!∀ x, Decision (P x)}
    `{!∀ x, Decision (Q x)} (l : list A) :
  (∀ x, x ∈ l → P x ↔ Q x) → filter P l = filter Q l.
Proof.
  induction l as [|x l IH]; intros Hsame; [done |].
  rewrite !filter_cons.
  assert (filter P l = filter Q l) as ->.
  { apply IH. intros y Hy. apply Hsame. by right. }
  destruct (decide (P x)) as [HP|HP].
  - rewrite decide_True; [done |]. apply Hsame; [by left | done].
  - rewrite decide_False; [done |]. intros HQ. apply HP, Hsame; [by left | done].
Qed.

(** Changing the predicate at one element of a list without repetition
    changes the count by one. *)
Lemma filter_length_flip {A} (P Q : A → Prop) `{!∀ x, Decision (P x)}
    `{!∀ x, Decision (Q x)} (l : list A) (p : A) :
  NoDup l → p ∈ l → (∀ q, q ≠ p → P q ↔ Q q) → ¬ P p → Q p →
  length (filter Q l) = S (length (filter P l)).
Proof.
  intros Hnd Hin Hsame HP HQ.
  induction l as [|x l IH]; [by apply elem_of_nil in Hin |].
  apply NoDup_cons in Hnd as [Hx Hnd]. rewrite !filter_cons.
  apply elem_of_cons in Hin as [<-|Hin].
  - rewrite decide_True, decide_False by done. cbn [length]. f_equal.
    f_equal. symmetry. apply filter_ext_in.
    intros y Hy. apply Hsame. by intros ->.
  - assert (x ≠ p) as Hne by (by intros ->).
    destruct (decide (P x)) as [HPx|HPx].
    + rewrite decide_True by (by apply Hsame). cbn [length]. f_equal. by apply IH.
    + rewrite decide_False by (by rewrite <- Hsame). by apply IH.
Qed.

Section toggle.
Variable shoppingList : ShoppingList.
Variable checkedItems : gmap string bool.
Variables (category : string) (items : list ShoppingItem) (index : nat).
Hypothesis list_wf : JsObject.wf shoppingList.
Hypothesis category_in : (category, items) ∈ shoppingList.
Hypothesis index_in : index < length items.

Lemma toggleItem_absentOrFalsy (position : string * nat) :
  position ≠ (category, index) →
  absentOrFalsy checkedItems position
  ↔ absentOrFalsy (toggleItem checkedItems category index) position.
Proof.
  intros Hne. destruct position as [c i].
  rewrite !absentOrFalsy_notTruthy. unfold notTruthy.
  rewrite <- !negb_truthy_flag, toggleItem_lookup.
  rewrite decide_False; [done |].
  intros Hkey. apply checkedKey_inj in Hkey as [-> ->]. done.
Qed.

Lemma toggleItem_count :
  countRemainingItems
    (getRemainingItemsByCategory (Some shoppingList)
       (toggleItem checkedItems category index))
  = (countRemainingItems
       (getRemainingItemsByCategory (Some shoppingList) checkedItems)
     + (if truthy_flag (checkedItems !! checkedKey category index)
        then 1 else -1))%Z.
Proof.
  rewrite !getRemaining_remainingSpec, !countRemainingItems_sum,
    !sum_remainingSpec by done.
  assert (NoDup (itemPositions shoppingList)) as Hnd
    by (apply NoDup_itemPositions, list_wf).
  assert ((category, index) ∈ itemPositions shoppingList) as Hin
    by (apply elem_of_itemPositions; eauto).
  assert (∀ m, absentOrFalsy m (category, index)
               ↔ truthy_flag (m !! checkedKey category index) = false) as Hflag.
  { intros m. rewrite absentOrFalsy_notTruthy. unfold notTruthy.
    rewrite <- negb_truthy_flag. by destruct (truthy_flag _). }
  assert (truthy_flag (toggleItem checkedItems category index
                         !! checkedKey category index)
          = negb (truthy_flag (checkedItems !! checkedKey category index)))
    as Htoggled by (by rewrite toggleItem_lookup, decide_True).
  destruct (truthy_flag (checkedItems !! checkedKey category index)) eqn:Hnow.
  - rewrite (filter_length_flip (absentOrFalsy checkedItems)
               (absentOrFalsy (toggleItem checkedItems category index))
               _ (category, index)); try done.
    + lia.
    + intros q Hq. by apply toggleItem_absentOrFalsy.
    + rewrite Hflag. congruence.
    + rewrite Hflag. by rewrite Htoggled.
  - rewrite (filter_length_flip
               (absentOrFalsy (toggleItem checkedItems category index))
               (absentOrFalsy checkedItems)
               _ (category, index)); try done.
    + lia.
    + intros q Hq. symmetry. by apply toggleItem_absentOrFalsy.
    + rewrite Hflag. by rewrite Htoggled.
    + by rewrite Hflag.
Qed.

End toggle.

(** X2. Toggling an item flips the truthiness of the flag of that position
    and of no other position of any list. *)
Theorem toggleItem_flips_only_its_position (checkedItems : gmap string bool)
    (category : string) (index : nat) (c : string) (i : nat) :
  truthy_flag (toggleItem checkedItems category index !! checkedKey c i)
  = if decide (c = category ∧ i = index)
    then negb (truthy_flag (checkedItems !! checkedKey category index))
    else truthy_flag (checkedItems !! checkedKey c i).
Proof.
  rewrite toggleItem_lookup.
  destruct (decide (c = category ∧ i = index)) as [[-> ->]|Hne].
  - by rewrite decide_True.
  - rewrite decide_False; [done |].
    intros Hkey. by apply checkedKey_inj in Hkey.
Qed.

(** X3. Toggling an item of the list changes the number of remaining items
    by exactly one: one less when the item was unchecked, one more when it
    was checked. *)
Theorem toggleItem_changes_count_by_one (shoppingList : ShoppingList)
    (checkedItems : gmap string bool) (category : string)
    (items : list ShoppingItem) (index : nat) :
  JsObject.wf shoppingList →
  (category, items) ∈ shoppingList →
  index < length items →
  countRemainingItems
    (getRemainingItemsByCategory (Some shoppingList)
       (toggleItem checkedItems category index))
  = (countRemainingItems
       (getRemainingItemsByCategory (Some shoppingList) checkedItems)
     + (if truthy_flag (checkedItems !! checkedKey category index)
        then 1 else -1))%Z.
Proof. apply toggleItem_count. Qed.

Lemma toggleItem_changes_count_by_one_witness :
  JsObject.wf exampleList
  ∧ ("Warzywa", [item "Cebula" "2 szt"; item "Marchew" ""]) ∈ exampleList
  ∧ 0 < length [item "Cebula" "2 szt"; item "Marchew" ""]
  ∧ countRemainingItems
      (getRemainingItemsByCategory (Some exampleList)
         (toggleItem exampleChecked "Warzywa" 0))
    = (countRemainingItems
         (getRemainingItemsByCategory (Some exampleList) exampleChecked)
       + (if truthy_flag (exampleChecked !! checkedKey "Warzywa" 0)
          then 1 else -1))%Z.
Proof.
  assert (JsObject.wf exampleList) as Hwf
    by (apply (bool_decide_unpack _); vm_compute; exact I).
  assert (("Warzywa", [item "Cebula" "2 szt"; item "Marchew" ""]) ∈ exampleList)
    as Hin by (apply (bool_decide_unpack _); vm_compute; exact I).
  assert (0 < length [item "Cebula" "2 szt"; item "Marchew" ""]) as Hlt
    by (simpl; lia).
  repeat (split; [assumption |]).
  apply (toggleItem_changes_count_by_one exampleList exampleChecked "Warzywa"
           _ 0 Hwf Hin Hlt).
Defined.

(** X4. Toggling the same item twice leaves the remaining items of every
    list as they were, although the map itself may differ (an absent key
    becomes a key that maps to false). *)
Theorem toggleItem_twice (shoppingList : option ShoppingList)
    (checkedItems : gmap string bool) (category : string) (index : nat) :
  getRemainingItemsByCategory shoppingList
    (toggleItem (toggleItem checkedItems category index) category index)
  = getRemainingItemsByCategory shoppingList checkedItems
  ∧ toggleItem (toggleItem ∅ category index) category index
    = {[checkedKey category index := false]}.
Proof.
  split.
  - apply getRemainingItemsByCategory_ext. intros key.
    rewrite !toggleItem_lookup. case_decide; [| done].
    by destruct (truthy_flag (checkedItems !! key)).
  - unfold toggleItem. rewrite lookup_insert_eq, lookup_empty. simpl.
    by rewrite insert_insert_eq, insert_empty.
Qed.

(** ** The progress counters of the shopping view *)

Lemma length_itemPositions (shoppingList : ShoppingList) :
  length (itemPositions shoppingList)
  = sum_list_with (λ entry, length entry.2) shoppingList.
Proof.
  unfold itemPositions.
  induction shoppingList as [|[c items] l IH]; [done |].
  rewrite bind_cons, length_app, length_fmap, length_seq, IH. done.
Qed.

Lemma totalItems_positions (shoppingList : ShoppingList) :
  totalItems (Some shoppingList)
  = Z.of_nat (length (itemPositions shoppingList)).
Proof.
  rewrite length_itemPositions.
  apply (countRemainingItems_sum shoppingList).
Qed.

Lemma filter_length_complement {A} (P Q : A → Prop) `{!∀ x, Decision (P x)}
    `{!∀ x, Decision (Q x)} (l : list A) :
  (∀ x, P x ↔ ¬ Q x) →
  length l = length (filter P l) + length (filter Q l).
Proof.
  intros Hcompl. induction l as [|x l IH]; [done |].
  rewrite !filter_cons. cbn [length]. rewrite IH.
  destruct (decide (Q x)) as [HQ|HQ].
  - rewrite decide_False by (rewrite Hcompl; tauto). cbn [length]. lia.
  - rewrite decide_True by (by rewrite Hcompl). cbn [length]. lia.
Qed.

Lemma checkedCount_truthy_keys (checkedItems : gmap string bool) :
  checkedCount checkedItems
  = Z.of_nat
      (length (filter (λ entry : string * bool, entry.2 = true)
                 (map_to_list checkedItems)).*1).
Proof.
  unfold checkedCount. f_equal. rewrite length_fmap.
  induction (map_to_list checkedItems) as [|[k [|]] l IH]; [done | |].
  - rewrite fmap_cons, filter_cons. simpl. by rewrite IH.
  - rewrite fmap_cons, filter_cons. simpl. by rewrite IH.
Qed.

Lemma filter_nil_Forall {A} (P : A → Prop) `{!∀ x, Decision (P x)}
    (l : list A) :
  (∀ x, x ∈ l → ¬ P x) → filter P l = [].
Proof.
  induction l as [|x l IH]; intros Hall; [done |].
  rewrite filter_cons, decide_False by (apply Hall; by left).
  apply IH. intros y Hy. apply Hall. by right.
Qed.

Section progress.
Variable shoppingList : ShoppingList.
Variable checkedItems : gmap string bool.
Hypothesis list_wf : JsObject.wf shoppingList.

Lemma elem_of_truthyKeys (key : string) :
  key ∈ truthyKeys checkedItems ↔ checkedItems !! key = Some true.
Proof.
  unfold truthyKeys. rewrite list_elem_of_fmap. split.
  - intros ([k b] & -> & Hin). apply list_elem_of_filter in Hin as [Hb Hin].
    simpl in Hb. subst b. by apply elem_of_map_to_list in Hin.
  - intros Hkey. exists (key, true). split; [done |].
    apply list_elem_of_filter. split; [done |]. by apply elem_of_map_to_list.
Qed.

Lemma NoDup_truthyKeys : NoDup (truthyKeys checkedItems).
Proof.
  unfold truthyKeys.
  eapply sublist_NoDup; [apply (NoDup_fst_map_to_list checkedItems) |].
  apply fmap_sublist, sublist_filter.
Qed.

Lemma NoDup_checkedPositionKeys :
  NoDup (checkedPositionKeys shoppingList checkedItems).
Proof.
  unfold checkedPositionKeys. apply NoDup_fmap_2_strong.
  - intros [c1 i1] [c2 i2] _ _ Hkey. simpl in Hkey.
    by apply checkedKey_inj in Hkey as [-> ->].
  - apply NoDup_filter, NoDup_itemPositions, list_wf.
Qed.

Lemma elem_of_checkedPositionKeys (key : string) :
  key ∈ checkedPositionKeys shoppingList checkedItems
  ↔ checkedItems !! key = Some true
    ∧ ∃ category index,
        (category, index) ∈ itemPositions shoppingList
        ∧ key = checkedKey category index.
Proof.
  unfold checkedPositionKeys. rewrite list_elem_of_fmap. split.
  - intros ([c i] & -> & Hin). apply list_elem_of_filter in Hin as [Hkey Hin].
    split; [done |]. by exists c, i.
  - intros (Hkey & c & i & Hin & ->). exists (c, i). split; [done |].
    by apply list_elem_of_filter.
Qed.

Lemma remaining_plus_checked :
  (countRemainingItems
     (getRemainingItemsByCategory (Some shoppingList) checkedItems)
   + Z.of_nat (length (checkedPositionKeys shoppingList checkedItems)))%Z
  = totalItems (Some shoppingList).
Proof.
  rewrite getRemaining_remainingSpec, countRemainingItems_sum,
    sum_remainingSpec, totalItems_positions by done.
  unfold checkedPositionKeys. rewrite length_fmap.
  rewrite (filter_length_complement (absentOrFalsy checkedItems)
             (λ position : string * nat,
                checkedItems !! checkedKey position.1 position.2 = Some true)
             (itemPositions shoppingList)); [lia |].
  intros [c i]. unfold absentOrFalsy. simpl.
  destruct (checkedItems !! checkedKey c i) as [[|]|]; split; try done;
    try (intros _; by eauto); intros [H|H]; done.
Qed.

Lemma checked_positions_le :
  length (checkedPositionKeys shoppingList checkedItems)
  ≤ length (truthyKeys checkedItems).
Proof.
  apply submseteq_length, NoDup_submseteq; [apply NoDup_checkedPositionKeys |].
  intros key Hkey. apply elem_of_truthyKeys.
  by apply elem_of_checkedPositionKeys in Hkey as [? _].
Qed.

Lemma checked_positions_eq :
  checksWithin shoppingList checkedItems →
  length (checkedPositionKeys shoppingList checkedItems)
  = length (truthyKeys checkedItems).
Proof.
  intros Hwithin. apply Permutation_length, NoDup_Permutation;
    [apply NoDup_checkedPositionKeys | apply NoDup_truthyKeys |].
  intros key. rewrite elem_of_truthyKeys, elem_of_checkedPositionKeys.
  split; [by intros [? _] |]. intros Hkey. split; [done |]. by apply Hwithin.
Qed.

Lemma progress_bounds :
  (totalItems (Some shoppingList) - checkedCount checkedItems
   ≤ countRemainingItems
       (getRemainingItemsByCategory (Some shoppingList) checkedItems))%Z
  ∧ (checksWithin shoppingList checkedItems →
     countRemainingItems
       (getRemainingItemsByCategory (Some shoppingList) checkedItems)
     = (totalItems (Some shoppingList) - checkedCount checkedItems)%Z).
Proof.
  rewrite checkedCount_truthy_keys. fold (truthyKeys checkedItems).
  pose proof remaining_plus_checked as Hsum.
  pose proof checked_positions_le as Hle.
  split; [lia |]. intros Hwithin.
  pose proof (checked_positions_eq Hwithin) as Heq. lia.
Qed.

Lemma nothing_remains_iff :
  countRemainingItems
    (getRemainingItemsByCategory (Some shoppingList) checkedItems) = 0%Z
  ↔ ∀ category index,
      (category, index) ∈ itemPositions shoppingList →
      checkedItems !! checkedKey category index = Some true.
Proof.
  rewrite getRemaining_remainingSpec, countRemainingItems_sum,
    sum_remainingSpec by done.
  split.
  - intros Hzero c i Hin.
    destruct (filter (absentOrFalsy checkedItems) (itemPositions shoppingList))
      as [|p rest] eqn:Hfilter; [| simpl in Hzero; lia].
    destruct (decide (absentOrFalsy checkedItems (c, i))) as [Hyes|Hno].
    + assert ((c, i) ∈ filter (absentOrFalsy checkedItems)
                           (itemPositions shoppingList)) as Hbad
        by (by apply list_elem_of_filter).
      rewrite Hfilter in Hbad. by apply elem_of_nil in Hbad.
    + unfold absentOrFalsy in Hno. simpl in Hno.
      destruct (checkedItems !! checkedKey c i) as [[|]|]; try done;
        exfalso; apply Hno; eauto.
  - intros Hall. rewrite filter_nil_Forall; [done |].
    intros [c i] Hin [Hnone|Hfalse]; simpl in *;
      rewrite (Hall c i Hin) in *; done.
Qed.

Lemma remaining_empty_iff_count :
  getRemainingItemsByCategory (Some shoppingList) checkedItems = JsObject.empty
  ↔ countRemainingItems
      (getRemainingItemsByCategory (Some shoppingList) checkedItems) = 0%Z.
Proof.
  split; [by intros -> |].
  rewrite getRemaining_remainingSpec, countRemainingItems_sum by done.
  unfold remainingSpec.
  destruct (filter _ _) as [|[c kept] rest] eqn:Hfilter; [done |].
  intros Hzero. exfalso.
  assert ((c, kept) ∈ (c, kept) :: rest) as Hin by left.
  rewrite <- Hfilter in Hin. apply list_elem_of_filter in Hin as [Hne _].
  simpl in Hne, Hzero. destruct kept; [done | simpl in Hzero; lia].
Qed.

End progress.

Lemma toggleItem_within (shoppingList : ShoppingList)
    (checkedItems : gmap string bool) (category : string) (index : nat) :
  checksWithin shoppingList checkedItems →
  (category, index) ∈ itemPositions shoppingList →
  checksWithin shoppingList (toggleItem checkedItems category index).
Proof.
  intros Hwithin Hin key. unfold toggleItem.
  destruct (decide (key = checkedKey category index)) as [->|Hne].
  - intros _. by exists category, index.
  - rewrite lookup_insert_ne by done. apply Hwithin.
Qed.

(** X5. The progress counter of the shopping view, [totalItems] minus
    [checkedCount], never exceeds the number of remaining items; the two
    agree whenever every truthy key of the checked map belongs to a position
    of the list, which is the case for the empty map and is kept by toggling
    items of the list. *)
Theorem progress_counter_agrees (shoppingList : ShoppingList)
    (checkedItems : gmap string bool) :
  JsObject.wf shoppingList →
  (totalItems (Some shoppingList) - checkedCount checkedItems
   ≤ countRemainingItems
       (getRemainingItemsByCategory (Some shoppingList) checkedItems))%Z
  ∧ (checksWithin shoppingList checkedItems →
     countRemainingItems
       (getRemainingItemsByCategory (Some shoppingList) checkedItems)
     = (totalItems (Some shoppingList) - checkedCount checkedItems)%Z)
  ∧ checksWithin shoppingList ∅
  ∧ ∀ category items index,
      checksWithin shoppingList checkedItems →
      (category, items) ∈ shoppingList → index < length items →
      checksWithin shoppingList (toggleItem checkedItems category index).
Proof.
  intros Hwf.
  destruct (progress_bounds shoppingList checkedItems Hwf) as [Hle Heq].
  split; [exact Hle |]. split; [exact Heq |]. split.
  - intros key Hkey. by rewrite lookup_empty in Hkey.
  - intros c items i Hwithin Hin Hi. apply toggleItem_within; [done |].
    apply elem_of_itemPositions. eauto.
Qed.

Lemma progress_counter_agrees_witness :
  JsObject.wf exampleList
  ∧ (totalItems (Some exampleList) - checkedCount exampleChecked
     ≤ countRemainingItems
         (getRemainingItemsByCategory (Some exampleList) exampleChecked))%Z.
Proof.
  assert (JsObject.wf exampleList) as Hwf
    by (apply (bool_decide_unpack _); vm_compute; exact I).
  split; [exact Hwf |].
  apply (progress_counter_agrees exampleList exampleChecked Hwf).
Defined.

(** X6. Nothing remains exactly when every position of the list is checked;
    the remaining mapping is then the empty object, and this is the only
    case in which the remaining count, which the view tests before sharing
    or printing, is 0. *)
Theorem nothing_remains_when_all_checked (shoppingList : ShoppingList)
    (checkedItems : gmap string bool) :
  JsObject.wf shoppingList →
  (getRemainingItemsByCategory (Some shoppingList) checkedItems = JsObject.empty
   ↔ ∀ category items index,
       (category, items) ∈ shoppingList → index < length items →
       checkedItems !! checkedKey category index = Some true)
  ∧ (countRemainingItems
       (getRemainingItemsByCategory (Some shoppingList) checkedItems) = 0%Z
     ↔ getRemainingItemsByCategory (Some shoppingList) checkedItems
       = JsObject.empty).
Proof.
  intros Hwf. split.
  - rewrite remaining_empty_iff_count, nothing_remains_iff by done.
    split.
    + intros Hall c items i Hin Hi. apply Hall, elem_of_itemPositions. eauto.
    + intros Hall c i Hin.
      apply elem_of_itemPositions in Hin as (items & Hin & Hi). eauto.
  - symmetry. by apply remaining_empty_iff_count.
Qed.

Lemma nothing_remains_when_all_checked_witness :
  JsObject.wf exampleList
  ∧ (countRemainingItems
       (getRemainingItemsByCategory (Some exampleList) exampleChecked) = 0%Z
     ↔ getRemainingItemsByCategory (Some exampleList) exampleChecked
       = JsObject.empty).
Proof.
  assert (JsObject.wf exampleList) as Hwf
    by (apply (bool_decide_unpack _); vm_compute; exact I).
  split; [exact Hwf |].
  apply (nothing_remains_when_all_checked exampleList exampleChecked Hwf).
Defined.

(** ** The print layout of the remaining items *)

Lemma getPrintLayoutConfig_mono (first second : RemainingItemsByCategory) :
  (printTotalLines first ≤ printTotalLines second)%Z →
  (columns (getPrintLayoutConfig first) ≤ columns (getPrintLayoutConfig second))%Z
  ∧ (fontSize (getPrintLayoutConfig second)
     ≤ fontSize (getPrintLayoutConfig first))%Z.
Proof.
  intros Hle. unfold getPrintLayoutConfig. simpl.
  repeat match goal with
         | |- context [(?n <? ?x)%Z] => destruct (Z.ltb_spec n x)
         end; lia.
Qed.

Lemma printTotalLines_remainingSpec_mono (shoppingList : ShoppingList)
    (first second : gmap string bool) :
  (∀ key, first !! key = Some true → second !! key = Some true) →
  sum_list_with (λ entry, length entry.2 + 1) (remainingSpec shoppingList second)
  ≤ sum_list_with (λ entry, length entry.2 + 1) (remainingSpec shoppingList first).
Proof.
  intros Hmore. unfold remainingSpec.
  induction shoppingList as [|[c items] l IH]; [done |].
  pose proof (sublist_length _ _ (keptItems_mono first second Hmore c items))
    as Hlen.
  rewrite !fmap_cons, !filter_cons.
  destruct (decide ((c, keptItems second c items).2 ≠ [])) as [Hs|Hs];
    destruct (decide ((c, keptItems first c items).2 ≠ [])) as [_|Hf];
    cbn [sum_list_with snd]; try lia.
  apply dec_stable in Hf. simpl in Hf, Hs. rewrite Hf in Hlen.
  destruct (keptItems second c items); [done | simpl in Hlen; lia].
Qed.

(** X7. Checking more items never makes the printed list denser: when every
    key that is truthy in a first checked map is truthy in a second one, the
    second map gives no more print lines (the items and one line for each
    category that remain), no more columns and no smaller font than the
    first; the columns are always 2 or 3 and the font size is always between
    9 and 12. *)
Theorem print_layout_relaxes_with_checks (shoppingList : ShoppingList)
    (first second : gmap string bool) :
  JsObject.wf shoppingList →
  (∀ key, first !! key = Some true → second !! key = Some true) →
  let remaining1 := getRemainingItemsByCategory (Some shoppingList) first in
  let remaining2 := getRemainingItemsByCategory (Some shoppingList) second in
  let config1 := getPrintLayoutConfig remaining1 in
  let config2 := getPrintLayoutConfig remaining2 in
  (printTotalLines remaining2 ≤ printTotalLines remaining1)%Z
  ∧ sum_list_with (λ entry, length entry.2 + 1) remaining2
    ≤ sum_list_with (λ entry, length entry.2 + 1) remaining1
  ∧ printTotalLines remaining1
    = Z.of_nat (sum_list_with (λ entry, length entry.2 + 1) remaining1)
  ∧ printTotalLines remaining2
    = Z.of_nat (sum_list_with (λ entry, length entry.2 + 1) remaining2)
  ∧ (columns config2 ≤ columns config1)%Z
  ∧ (fontSize config1 ≤ fontSize config2)%Z
  ∧ (2 ≤ columns config2 ≤ columns config1 ≤ 3)%Z
  ∧ (9 ≤ fontSize config1 ≤ fontSize config2 ≤ 12)%Z.
Proof.
  intros Hwf Hmore remaining1 remaining2 config1 config2.
  assert (sum_list_with (λ entry, length entry.2 + 1) remaining2
          ≤ sum_list_with (λ entry, length entry.2 + 1) remaining1) as Hsum.
  { unfold remaining1, remaining2. rewrite !getRemaining_remainingSpec by done.
    by apply printTotalLines_remainingSpec_mono. }
  assert ((printTotalLines remaining2 ≤ printTotalLines remaining1)%Z)
    as Hlines by (rewrite !printTotalLines_sum; by apply inj_le).
  assert ((columns config2 ≤ columns config1)%Z
          ∧ (fontSize config1 ≤ fontSize config2)%Z) as [Hc Hf]
    by (by apply getPrintLayoutConfig_mono).
  assert (∀ r, (2 ≤ columns (getPrintLayoutConfig r) ≤ 3)%Z
               ∧ (9 ≤ fontSize (getPrintLayoutConfig r) ≤ 12)%Z) as Hbounds.
  { intros r. unfold getPrintLayoutConfig. simpl.
    repeat match goal with
           | |- context [(?n <? ?x)%Z] => destruct (Z.ltb_spec n x)
           end; lia. }
  pose proof (Hbounds remaining1) as Hfirst.
  pose proof (Hbounds remaining2) as Hsecond.
  fold config1 in Hfirst. fold config2 in Hsecond.
  split; [exact Hlines |]. split; [exact Hsum |].
  split; [apply printTotalLines_sum |]. split; [apply printTotalLines_sum |].
  lia.
Qed.

Lemma print_layout_relaxes_with_checks_witness :
  JsObject.wf exampleList
  ∧ (∀ key, (∅ : gmap string bool) !! key = Some true
            → exampleChecked !! key = Some true)
  ∧ (printTotalLines
       (getRemainingItemsByCategory (Some exampleList) exampleChecked)
     ≤ printTotalLines (getRemainingItemsByCategory (Some exampleList) ∅))%Z.
Proof.
  assert (JsObject.wf exampleList) as Hwf
    by (apply (bool_decide_unpack _); vm_compute; exact I).
  assert (∀ key, (∅ : gmap string bool) !! key = Some true
                 → exampleChecked !! key = Some true) as Hmore
    by (intros key Hkey; rewrite lookup_empty in Hkey; discriminate).
  split; [exact Hwf |]. split; [exact Hmore |].
  apply (print_layout_relaxes_with_checks exampleList ∅ exampleChecked Hwf Hmore).
Defined.

(** ** What every result of [getRemainingItemsByCategory] satisfies *)

Lemma keptItems_nothing_checked (category : string) (items : list ShoppingItem) :
  keptItems ∅ category items = items.
Proof.
  rewrite <- inner_filter_kept. unfold JsArray.filter. generalize 0.
  induction items as [|x items IH]; intros index; simpl; [done |].
  rewrite lookup_empty. simpl. by rewrite IH.
Qed.

Lemma remainingSpec_nothing_checked (remaining : RemainingItemsByCategory) :
  Forall (λ entry, entry.2 ≠ []) remaining →
  remainingSpec remaining ∅ = remaining.
Proof.
  unfold remainingSpec. induction 1 as [|[c items] r Hne _ IH]; [done |].
  rewrite fmap_cons, filter_cons, keptItems_nothing_checked.
  rewrite decide_True by done. by rewrite IH.
Qed.

(** X8. The result of [getRemainingItemsByCategory] on a list is again the
    enumeration of an object, holds no empty category, and is its own
    remainder under the empty checked map; its print lines are its items
    plus one line per category, so at most twice its items. *)
Theorem getRemainingItemsByCategory_result (shoppingList : ShoppingList)
    (checkedItems : gmap string bool) :
  JsObject.wf shoppingList →
  let remaining := getRemainingItemsByCategory (Some shoppingList) checkedItems in
  JsObject.wf remaining
  ∧ Forall (λ entry, entry.2 ≠ []) remaining
  ∧ getRemainingItemsByCategory (Some remaining) ∅ = remaining
  ∧ printTotalLines remaining
    = (countRemainingItems remaining + Z.of_nat (length remaining))%Z
  ∧ (printTotalLines remaining ≤ 2 * countRemainingItems remaining)%Z.
Proof.
  intros Hwf remaining.
  assert (remaining = remainingSpec shoppingList checkedItems) as Hspec
    by (by apply getRemaining_remainingSpec).
  assert (JsObject.wf remaining) as Hwf'.
  { rewrite Hspec. eapply JsObjectFacts.wf_sublist;
      [apply keys_remainingSpec | done]. }
  assert (Forall (λ entry, entry.2 ≠ []) remaining) as Hne.
  { rewrite Hspec. unfold remainingSpec. apply Forall_forall.
    intros e He. by apply list_elem_of_filter in He as [? _]. }
  split; [done |]. split; [done |]. split.
  { rewrite getRemaining_remainingSpec by done.
    by apply remainingSpec_nothing_checked. }
  rewrite printTotalLines_sum, countRemainingItems_sum.
  clear Hspec Hwf'. induction Hne as [|[c items] r Hitems _ IH].
  - simpl. lia.
  - cbn [sum_list_with length snd]. simpl in Hitems.
    destruct items as [|x items]; [done |]. simpl. lia.
Qed.

Lemma getRemainingItemsByCategory_result_witness :
  JsObject.wf exampleList
  ∧ JsObject.wf (getRemainingItemsByCategory (Some exampleList) exampleChecked).
Proof.
  assert (JsObject.wf exampleList) as Hwf
    by (apply (bool_decide_unpack _); vm_compute; exact I).
  split; [exact Hwf |].
  apply (getRemainingItemsByCategory_result exampleList exampleChecked Hwf).
Defined.

(** ** Trimming, in general *)

Module TrimFacts.
Import JsString JsStringFacts.

Section strip.
Variables (p1 : ascii → bool) (p2 : ascii → ascii → bool)
  (p3 : ascii → ascii → ascii → bool).

(** [strip] removes a blank front and nothing else. *)
Lemma strip_decompose_bounded (n : nat) (s : string) :
  String.length s ≤ n →
  ∃ dropped, s = dropped +:+ strip p1 p2 p3 s ∧ blank p1 p2 p3 dropped.
Proof.
  revert s. induction n as [|n IH]; intros s Hlen.
  { destruct s; [| simpl in Hlen; lia]. exists "". split; [done | constructor]. }
  destruct s as [|c1 s]; [exists ""; split; [done | constructor] |].
  simpl in Hlen. rewrite strip_unfold.
  destruct (p1 c1) eqn:H1.
  { destruct (IH s) as (d & Hd & Hblank); [lia |].
    exists (String c1 d). split; [| by constructor].
    rewrite append_cons. by rewrite <- Hd. }
  destruct s as [|c2 s]; [exists ""; split; [done | constructor] |].
  simpl in Hlen. destruct (p2 c1 c2) eqn:H2.
  { destruct (IH s) as (d & Hd & Hblank); [lia |].
    exists (String c1 (String c2 d)). split; [| by constructor].
    rewrite !append_cons. by rewrite <- Hd. }
  destruct s as [|c3 s]; [exists ""; split; [done | constructor] |].
  simpl in Hlen. destruct (p3 c1 c2 c3) eqn:H3.
  { destruct (IH s) as (d & Hd & Hblank); [lia |].
    exists (String c1 (String c2 (String c3 d))). split; [| by constructor].
    rewrite !append_cons. by rewrite <- Hd. }
  exists "". split; [done | constructor].
Qed.

Lemma strip_decompose (s : string) :
  ∃ dropped, s = dropped +:+ strip p1 p2 p3 s ∧ blank p1 p2 p3 dropped.
Proof. by apply (strip_decompose_bounded (String.length s)). Qed.

Lemma length_append (a b : string) :
  String.length (a +:+ b) = String.length a + String.length b.
Proof.
  induction a as [|c a IH]; [done |]. rewrite append_cons. simpl. by rewrite IH.
Qed.

Lemma strip_length (s : string) :
  String.length (strip p1 p2 p3 s) ≤ String.length s.
Proof.
  destruct (strip_decompose s) as (d & Hd & _).
  rewrite Hd at 2. rewrite length_append. lia.
Qed.

(** What a string that [strip] leaves alone starts with. *)
Lemma strip_fixed_head (c1 : ascii) (r : string) :
  strip p1 p2 p3 (String c1 r) = String c1 r →
  p1 c1 = false
  ∧ ∀ c2 r2, r = String c2 r2 →
      p2 c1 c2 = false
      ∧ ∀ c3 r3, r2 = String c3 r3 → p3 c1 c2 c3 = false.
Proof.
  intros Hfix. rewrite strip_unfold in Hfix.
  destruct (p1 c1) eqn:H1.
  { pose proof (strip_length r) as Hlen. rewrite Hfix in Hlen.
    simpl in Hlen. lia. }
  split; [done |]. intros c2 r2 ->.
  destruct (p2 c1 c2) eqn:H2.
  { pose proof (strip_length r2) as Hlen. rewrite Hfix in Hlen.
    simpl in Hlen. lia. }
  split; [done |]. intros c3 r3 ->.
  destruct (p3 c1 c2 c3) eqn:H3; [| done].
  pose proof (strip_length r3) as Hlen. rewrite Hfix in Hlen.
  simpl in Hlen. lia.
Qed.

(** A front part of a string that [strip] leaves alone is left alone. *)
Lemma strip_fixed_prefix (front back : string) :
  strip p1 p2 p3 (front +:+ back) = front +:+ back →
  strip p1 p2 p3 front = front.
Proof.
  intros Hfix. destruct front as [|c1 front]; [done |].
  rewrite append_cons in Hfix.
  apply strip_fixed_head in Hfix as [H1 Hrest].
  rewrite strip_unfold, H1.
  destruct front as [|c2 front]; [done |].
  destruct (Hrest c2 (front +:+ back)) as [H2 Hrest2];
    [by rewrite append_cons |].
  rewrite H2. destruct front as [|c3 front]; [done |].
  by rewrite (Hrest2 c3 (front +:+ back)) by (by rewrite append_cons).
Qed.

End strip.

Lemma trimStart_decompose (s : string) :
  ∃ dropped, s = dropped +:+ trimStart s ∧ whitespace dropped.
Proof. apply strip_decompose. Qed.

Lemma trimEnd_decompose (s : string) :
  ∃ dropped, s = trimEnd s +:+ dropped ∧ whitespace dropped.
Proof.
  unfold trimEnd.
  destruct (strip_decompose ws1 (λ c2 c1, ws2 c1 c2)
              (λ c3 c2 c1, ws3 c1 c2 c3) (String.rev s)) as (d & Hd & Hblank).
  exists (String.rev d). split; [| by apply blank_rev].
  by rewrite <- rev_append, <- Hd, rev_involutive.
Qed.




(** The trimmed text lies inside the text, between white space. *)
Lemma trim_decompose (s : string) :
  ∃ front back,
    s = front +:+ trim s +:+ back ∧ whitespace front ∧ whitespace back.
Proof.
  destruct (trimStart_decompose s) as (front & Hfront & Hblank1).
  destruct (trimEnd_decompose (trimStart s)) as (back & Hback & Hblank2).
  exists front, back. unfold trim. by rewrite <- Hback, <- Hfront.
Qed.

End TrimFacts.

(** ** Parsing an item of the response *)

Lemma append_assoc (a b c : string) : (a +:+ b) +:+ c = a +:+ b +:+ c.
Proof.
  induction a as [|x a IH]; [done |].
  rewrite !JsStringFacts.append_cons. by rewrite IH.
Qed.

Section parse.
Import JsString JsStringFacts TrimFacts.

Lemma spanNotClose_spec (s : string) :
  s = (spanNotClose s).1 +:+ (spanNotClose s).2
  ∧ (∀ a b, (spanNotClose s).1 ≠ a +:+ String ")" b)
  ∧ ((spanNotClose s).2 = ""
     ∨ ∃ tail, (spanNotClose s).2 = String ")" tail).
Proof.
  induction s as [|c s (IH1 & IH2 & IH3)]; simpl.
  - split; [done |]. split; [| by left]. intros [|x a] b; done.
  - destruct (isCloseParen c) eqn:Hc.
    + simpl. split; [done |]. split; [intros [|x a] b; done |].
      right. exists s. f_equal. unfold isCloseParen, code in Hc.
      apply N.eqb_eq in Hc. rewrite <- (ascii_N_embedding c), Hc. done.
    + destruct (spanNotClose s) as [run rest]. simpl in *.
      split; [by rewrite IH1 at 1 |]. split; [| done].
      intros [|x a] b Heq.
      * rewrite append_nil_l in Heq. injection Heq as -> _. done.
      * rewrite append_cons in Heq. injection Heq as _ Heq. by eapply IH2.
Qed.

(** A match of the rest of the pattern: the text is the group, a closing
    parenthesis and white space. *)
Lemma amountGroup_Some (s group2 : string) :
  amountGroup s = Some group2 →
  ∃ tail,
    s = group2 +:+ String ")" tail
    ∧ group2 ≠ ""
    ∧ (∀ a b, group2 ≠ a +:+ String ")" b)
    ∧ onlyWhitespace tail = true.
Proof.
  unfold amountGroup. destruct (spanNotClose_spec s) as (Hs & Hrun & Hrest).
  destruct (spanNotClose s) as [run rest]. simpl in *.
  destruct run as [|c run]; [done |].
  destruct Hrest as [->|[tail ->]]; [done |].
  change (isCloseParen ")") with true. simpl.
  destruct (onlyWhitespace tail) eqn:Htail; [| done].
  intros [= <-]. by exists tail.
Qed.

Lemma matchItemFrom_Some (group1 s g1 g2 : string) :
  matchItemFrom group1 s = Some (g1, g2) →
  ∃ front tail,
    g1 = group1 +:+ front
    ∧ s = front +:+ String "(" (g2 +:+ String ")" tail)
    ∧ g2 ≠ ""
    ∧ (∀ a b, g2 ≠ a +:+ String ")" b)
    ∧ onlyWhitespace tail = true.
Proof.
  revert group1. induction s as [|c s IH]; intros group1; [done |].
  cbn [matchItemFrom].
  destruct (if startsWithLineTerminator (String c s) then None
            else matchItemFrom (group1 +:+ String c "") s)
    as [[g1' g2']|] eqn:Hlonger.
  - intros [= -> ->].
    destruct (startsWithLineTerminator (String c s)); [done |].
    apply IH in Hlonger as (front & tail & -> & -> & Hrest).
    exists (String c front), tail. split; [| by rewrite append_cons].
    by rewrite append_assoc.
  - destruct (isOpenParen c) eqn:Hc; [| done].
    destruct (amountGroup s) as [group2|] eqn:Hgroup; [| done].
    intros [= <- <-]. apply amountGroup_Some in Hgroup as (tail & -> & Hrest).
    exists "", tail. split; [by rewrite JsStringFacts.append_nil_r |].
    split; [| done]. rewrite append_nil_l. f_equal.
    unfold isOpenParen, code in Hc. apply N.eqb_eq in Hc.
    rewrite <- (ascii_N_embedding c), Hc. done.
Qed.

End parse.

Section parse_structure.
Import JsString JsStringFacts TrimFacts.

Lemma strip_blank_shrinks (p1 : ascii → bool) (p2 : ascii → ascii → bool)
    (p3 : ascii → ascii → ascii → bool) (s : string) :
  blank p1 p2 p3 s → s ≠ "" →
  String.length (strip p1 p2 p3 s) < String.length s.
Proof.
  intros Hblank Hne. destruct Hblank as [|c1 s H1 _|c1 c2 s H2 _|c1 c2 c3 s H3 _];
    [done | | |].
  - rewrite strip_unfold, H1. pose proof (strip_length p1 p2 p3 s).
    simpl. lia.
  - rewrite strip_unfold.
    pose proof (strip_length p1 p2 p3 s).
    pose proof (strip_length p1 p2 p3 (String c2 s)) as Hlen2.
    simpl in Hlen2. destruct (p1 c1); [simpl; lia |].
    rewrite H2. simpl. lia.
  - rewrite strip_unfold.
    pose proof (strip_length p1 p2 p3 s).
    pose proof (strip_length p1 p2 p3 (String c2 (String c3 s))) as Hlen2.
    pose proof (strip_length p1 p2 p3 (String c3 s)) as Hlen3.
    simpl in Hlen2, Hlen3. destruct (p1 c1); [simpl; lia |].
    destruct (p2 c1 c2); [simpl; lia |]. rewrite H3. simpl. lia.
Qed.

Lemma onlyWhitespace_blank (tail : string) :
  onlyWhitespace tail = true → whitespace tail.
Proof.
  unfold onlyWhitespace. intros Htail.
  destruct (trimStart_decompose tail) as (d & Hd & Hblank).
  destruct (trimStart tail); [| done].
  rewrite append_nil_r in Hd. by subst d.
Qed.

(** A text that [trimEnd] leaves alone does not end in white space. *)
Lemma trimEnd_fixed_no_blank_tail (front tail : string) :
  trimEnd (front +:+ tail) = front +:+ tail →
  whitespace tail → tail = "".
Proof.
  intros Hfix Htail.
  unfold trimEnd in Hfix. apply (f_equal String.rev) in Hfix.
  rewrite rev_involutive, rev_append in Hfix.
  apply strip_fixed_prefix in Hfix.
  assert (blank ws1 (λ c2 c1, ws2 c1 c2) (λ c3 c2 c1, ws3 c1 c2 c3)
            (String.rev tail)) as Hblank.
  { apply (blank_rev ws1 (λ c2 c1, ws2 c1 c2) (λ c3 c2 c1, ws3 c1 c2 c3)).
    exact Htail. }
  destruct (decide (String.rev tail = "")) as [Hnil|Hne].
  - by rewrite <- (rev_involutive tail), Hnil.
  - pose proof (strip_blank_shrinks _ _ _ _ Hblank Hne) as Hlt.
    rewrite Hfix in Hlt. lia.
Qed.

Lemma trimEnd_fixed_no_tail (front tail : string) :
  trimEnd (front +:+ tail) = front +:+ tail →
  onlyWhitespace tail = true → tail = "".
Proof.
  intros Hfix Htail. apply onlyWhitespace_blank in Htail.
  by eapply trimEnd_fixed_no_blank_tail.
Qed.

Lemma trim_trimEnd_fixed (s : string) : trimEnd (trim s) = trim s.
Proof. unfold trim. apply trimEnd_idempotent. Qed.

Lemma parseShoppingItem_cases (text : string) :
  (matchItem (trim text) = None
   ∧ parseShoppingItem text
     = {| name := trim text; amount := ""; checked := None |})
  ∨ ∃ group1 group2,
      trim text = group1 +:+ String "(" (group2 +:+ ")")
      ∧ group2 ≠ ""
      ∧ (∀ a b, group2 ≠ a +:+ String ")" b)
      ∧ parseShoppingItem text
        = {| name := trim group1; amount := trim group2; checked := None |}.
Proof.
  unfold parseShoppingItem.
  destruct (matchItem (trim text)) as [[g1 g2]|] eqn:Hmatch; [| by left].
  right. unfold matchItem in Hmatch.
  apply matchItemFrom_Some in Hmatch as (front & tail & Hg1 & Htext & Hne & Hno & Htail).
  rewrite append_nil_l in Hg1. subst front.
  assert (tail = "") as ->.
  { apply (trimEnd_fixed_no_tail (g1 +:+ String "(" (g2 +:+ ")"))); [| done].
    rewrite append_assoc, append_cons, append_assoc. rewrite append_cons, append_nil_l.
    rewrite <- Htext. apply trim_trimEnd_fixed. }
  by exists g1, g2.
Qed.

Lemma trim_no_close (text : string) :
  (∀ a b, text ≠ a +:+ String ")" b) →
  ∀ a b, trim text ≠ a +:+ String ")" b.
Proof.
  intros Hno a b Heq.
  destruct (trim_decompose text) as (front & back & Htext & _).
  apply (Hno (front +:+ a) (b +:+ back)).
  rewrite Htext at 1. rewrite Heq.
  by rewrite !append_assoc, append_cons.
Qed.

End parse_structure.

Lemma parseShoppingItem_checked (text : string) :
  checked (parseShoppingItem text) = None.
Proof.
  unfold parseShoppingItem.
  by destruct (matchItem (JsString.trim text)) as [[g1 g2]|].
Qed.



(** X11. [parseShoppingItem] reads an amount only from a trimmed text of the
    form: first group, opening parenthesis, a non-empty second group without
    a closing parenthesis, closing parenthesis at the very end; the name is
    then the trimmed first group and the amount the trimmed second group.
    Otherwise the name is the trimmed text and the amount is empty; this is
    so for every text without a closing parenthesis. *)
Theorem parseShoppingItem_reads_final_parentheses (text : string) :
  ((matchItem (JsString.trim text) = None
    ∧ parseShoppingItem text
      = {| name := JsString.trim text; amount := ""; checked := None |})
   ∨ ∃ group1 group2,
       JsString.trim text = group1 +:+ "(" +:+ group2 +:+ ")"
       ∧ group2 ≠ ""
       ∧ (∀ a b, group2 ≠ a +:+ ")" +:+ b)
       ∧ parseShoppingItem text
         = {| name := JsString.trim group1; amount := JsString.trim group2;
              checked := None |})
  ∧ ((∀ a b, text ≠ a +:+ ")" +:+ b) →
     parseShoppingItem text
     = {| name := JsString.trim text; amount := ""; checked := None |}).
Proof.
  split.
  - destruct (parseShoppingItem_cases text)
      as [Hnone|(g1 & g2 & Htext & Hne & Hno & Hparse)]; [by left |].
    right. by exists g1, g2.
  - intros Hno.
    destruct (parseShoppingItem_cases text)
      as [[_ Hparse]|(g1 & g2 & Htext & _)]; [done |].
    exfalso. apply (trim_no_close text Hno (g1 +:+ String "(" g2) "").
    rewrite Htext. by rewrite append_assoc, JsStringFacts.append_cons.
Qed.

(** ** Array-index keys are canonical numerals *)

Module ArrayIndexFacts.
Import JsObject.

Local Open Scope N_scope.

Lemma digits_value_acc (s : string) (acc : N) :
  digits_value acc s
  = match digits_value 0 s with
    | Some w => Some (acc * 10 ^ N.of_nat (String.length s) + w)
    | None => None
    end.
Proof.
  revert acc. induction s as [|c s IH]; intros acc.
  - simpl. f_equal. lia.
  - cbn [digits_value String.length]. destruct (is_digit c); [| done].
    rewrite (IH (10 * acc + (N_of_ascii c - 48))), (IH (10 * 0 + (N_of_ascii c - 48))).
    destruct (digits_value 0 s) as [w|]; [| done]. f_equal.
    rewrite Nat2N.inj_succ, N.pow_succ_r'. lia.
Qed.

Lemma digits_value_cons (c : ascii) (s : string) (w : N) :
  digits_value 0 (String c s) = Some w →
  is_digit c = true
  ∧ ∃ w', digits_value 0 s = Some w'
          ∧ w = digit c * 10 ^ N.of_nat (String.length s) + w'.
Proof.
  cbn [digits_value]. destruct (is_digit c); [| done].
  rewrite digits_value_acc. destruct (digits_value 0 s) as [w'|]; [| done].
  intros [= <-]. split; [done |]. exists w'. split; [done |].
  unfold digit. lia.
Qed.

Lemma is_digit_bound (c : ascii) : is_digit c = true → digit c ≤ 9.
Proof.
  unfold is_digit, digit. intros H. apply andb_true_iff in H as [_ H].
  apply N.leb_le in H. lia.
Qed.

Lemma digits_value_upper (s : string) (w : N) :
  digits_value 0 s = Some w → w < 10 ^ N.of_nat (String.length s).
Proof.
  revert w. induction s as [|c s IH]; intros w.
  - simpl. intros [= <-]. lia.
  - intros (Hc & w' & Hs & ->)%digits_value_cons.
    apply IH in Hs. apply is_digit_bound in Hc.
    cbn [String.length]. rewrite Nat2N.inj_succ, N.pow_succ_r'. nia.
Qed.

Lemma digit_inj (c1 c2 : ascii) :
  is_digit c1 = true → is_digit c2 = true → digit c1 = digit c2 → c1 = c2.
Proof.
  unfold is_digit, digit. intros H1 H2 Heq.
  apply andb_true_iff in H1 as [H1 _]. apply andb_true_iff in H2 as [H2 _].
  apply N.leb_le in H1, H2.
  rewrite <- (ascii_N_embedding c1), <- (ascii_N_embedding c2). f_equal. lia.
Qed.

Lemma digits_value_inj_length (s1 s2 : string) (w : N) :
  String.length s1 = String.length s2 →
  digits_value 0 s1 = Some w → digits_value 0 s2 = Some w → s1 = s2.
Proof.
  revert s2 w. induction s1 as [|c1 s1 IH]; intros [|c2 s2] w Hlen; try done.
  simpl in Hlen. injection Hlen as Hlen.
  intros (Hc1 & w1 & Hs1 & ->)%digits_value_cons
         (Hc2 & w2 & Hs2 & Heq)%digits_value_cons.
  pose proof (digits_value_upper _ _ Hs1) as Hu1.
  pose proof (digits_value_upper _ _ Hs2) as Hu2.
  rewrite Hlen in Heq, Hu1.
  set (P := 10 ^ N.of_nat (String.length s2)) in *.
  assert (digit c1 = digit c2) as Hd.
  { rewrite (N.div_unique (digit c1 * P + w1) P (digit c1) w1) by lia.
    rewrite (N.div_unique (digit c1 * P + w1) P (digit c2) w2) by lia.
    done. }
  assert (w1 = w2) as -> by (rewrite Hd in Heq; lia).
  f_equal; [by apply digit_inj | by eapply IH].
Qed.

(** An array index is written without a leading zero, so its value fixes
    its length. *)
Lemma array_index_range (k : string) (n : N) :
  array_index k = Some n →
  digits_value 0 k = Some n
  ∧ k ≠ ""
  ∧ (n = 0 ∧ k = "0"
     ∨ 10 ^ N.of_nat (String.length k - 1) ≤ n).
Proof.
  unfold array_index. destruct k as [|c k]; [done |].
  destruct ((N_of_ascii c =? 48) && JsString.truthy k) eqn:Hzero; [done |].
  destruct (digits_value 0 (String c k)) as [w|] eqn:Hw; [| done].
  destruct (w <? 4294967295); [| done]. intros [= <-].
  split; [done |]. split; [done |].
  apply digits_value_cons in Hw as (Hc & w' & Hk & ->).
  apply andb_false_iff in Hzero as [Hc0|Hk0].
  - right. cbn [String.length]. rewrite Nat.sub_succ, Nat.sub_0_r.
    apply N.eqb_neq in Hc0. unfold is_digit in Hc.
    apply andb_true_iff in Hc as [Hc _]. apply N.leb_le in Hc.
    assert (1 ≤ digit c) by (unfold digit; lia). nia.
  - destruct k; [| done]. simpl in Hk. injection Hk as <-.
    destruct (N.eq_dec (digit c) 0) as [Hd|Hd].
    + left. split; [simpl; lia |]. f_equal.
      apply digit_inj; [done | done | by rewrite Hd].
    + right. simpl. lia.
Qed.

Lemma array_index_inj (k1 k2 : string) (n : N) :
  array_index k1 = Some n → array_index k2 = Some n → k1 = k2.
Proof.
  intros (Hv1 & Hne1 & Hr1)%array_index_range (Hv2 & Hne2 & Hr2)%array_index_range.
  pose proof (digits_value_upper _ _ Hv1) as Hu1.
  pose proof (digits_value_upper _ _ Hv2) as Hu2.
  destruct Hr1 as [[-> ->]|Hl1], Hr2 as [[Hn ->]|Hl2]; try done.
  - exfalso. assert (0 < 10 ^ N.of_nat (String.length k2 - 1)); [| lia].
    apply N.neq_0_lt_0, N.pow_nonzero. lia.
  - subst n. exfalso. assert (0 < 10 ^ N.of_nat (String.length k1 - 1)); [| lia].
    apply N.neq_0_lt_0, N.pow_nonzero. lia.
  - apply (digits_value_inj_length _ _ n); [| done | done].
    destruct (Nat.lt_trichotomy (String.length k1) (String.length k2))
      as [Hlt|[Heq|Hlt]]; [| done |]; exfalso.
    + assert (10 ^ N.of_nat (String.length k1)
              ≤ 10 ^ N.of_nat (String.length k2 - 1)); [| lia].
      apply N.pow_le_mono_r; lia.
    + assert (10 ^ N.of_nat (String.length k2)
              ≤ 10 ^ N.of_nat (String.length k1 - 1)); [| lia].
      apply N.pow_le_mono_r; lia.
Qed.

End ArrayIndexFacts.

(** ** Defining a property keeps an object well formed *)

Module JsObjectDefineFacts.
Import JsObject JsObjectFacts.

Section facts.
Context {V : Type}.
Implicit Types (o : t V) (k : string) (v : V).

Lemma keys_overwrite o k v : keys (overwrite k v o) = keys o.
Proof.
  unfold keys. induction o as [|[k' v'] o IH]; [done |]. simpl.
  destruct (String.eqb_spec k' k) as [->|_]; simpl; [done | by f_equal].
Qed.

Lemma get_overwrite o k v k' :
  k ∈ keys o →
  get (overwrite k v o) k' = if decide (k = k') then Some v else get o k'.
Proof.
  unfold keys. induction o as [|[k0 v0] o IH]; intros Hin.
  { by apply elem_of_nil in Hin. }
  simpl. destruct (String.eqb_spec k0 k) as [->|Hne0].
  - simpl. destruct (String.eqb_spec k k') as [->|Hne].
    + by rewrite decide_True.
    + by rewrite decide_False.
  - simpl. destruct (String.eqb_spec k0 k') as [->|Hne].
    + by rewrite decide_False by congruence.
    + apply IH. rewrite fmap_cons in Hin.
      apply elem_of_cons in Hin as [Heq|Hin]; [| done].
      simpl in Heq. congruence.
Qed.

Lemma elem_of_keys_insert_index n o k v x :
  x ∈ keys (insert_index n k v o) ↔ x = k ∨ x ∈ keys o.
Proof.
  unfold keys. induction o as [|[k' v'] o IH]; simpl.
  - rewrite list_elem_of_singleton. split; [by left | intros [?|H]; [done |]].
    by apply elem_of_nil in H.
  - destruct (array_index k') as [m|]; [destruct (m <? n)%N |]; simpl;
      rewrite ?elem_of_cons, ?IH; simpl; tauto.
Qed.

Lemma get_insert_index n o k v k' :
  k ∉ keys o →
  get (insert_index n k v o) k' = if decide (k = k') then Some v else get o k'.
Proof.
  unfold keys. induction o as [|[k0 v0] o IH]; intros Hnot; simpl.
  - destruct (String.eqb_spec k k') as [->|Hne];
      [by rewrite decide_True | by rewrite decide_False].
  - rewrite fmap_cons in Hnot. apply not_elem_of_cons in Hnot as [Hne0 Hnot].
    simpl in Hne0.
    assert (get ((k, v) :: (k0, v0) :: o) k'
            = if decide (k = k') then Some v else get ((k0, v0) :: o) k')
      as Hfront.
    { simpl. destruct (String.eqb_spec k k') as [->|Hne];
        [by rewrite decide_True | by rewrite decide_False]. }
    destruct (array_index k0) as [m|]; [destruct (m <? n)%N |];
      [| exact Hfront | exact Hfront].
    simpl. destruct (String.eqb_spec k0 k') as [->|Hne].
    + by rewrite decide_False by congruence.
    + by apply IH.
Qed.

Lemma get_app_fresh o k v k' :
  k ∉ keys o →
  get (o ++ [(k, v)]) k' = if decide (k = k') then Some v else get o k'.
Proof.
  unfold keys. induction o as [|[k0 v0] o IH]; intros Hnot; simpl.
  - destruct (String.eqb_spec k k') as [->|Hne];
      [by rewrite decide_True | by rewrite decide_False].
  - rewrite fmap_cons in Hnot. apply not_elem_of_cons in Hnot as [Hne0 Hnot].
    simpl in Hne0. destruct (String.eqb_spec k0 k') as [->|Hne].
    + by rewrite decide_False by congruence.
    + by apply IH.
Qed.

Lemma has_true o k : has o k = true ↔ k ∈ keys o.
Proof.
  destruct (has o k) eqn:Hhas.
  - split; [intros _ | done]. apply dec_stable. intros Hnot.
    apply has_false in Hnot. congruence.
  - apply has_false in Hhas. split; [done | by intros ?].
Qed.

(** Reading after defining: the property defined reads the new value, the
    others read what they did. *)
Lemma get_define o k v k' :
  get (define o k v) k' = if decide (k = k') then Some v else get o k'.
Proof.
  unfold define. destruct (has o k) eqn:Hhas.
  - apply get_overwrite. by apply has_true.
  - apply has_false in Hhas.
    destruct (array_index k); [by apply get_insert_index | by apply get_app_fresh].
Qed.

Lemma wf_insert_index n o k v :
  wf o → k ∉ keys o → array_index k = Some n → wf (insert_index n k v o).
Proof.
  unfold wf, keys. intros [Hnd Hsort] Hnot Hk.
  induction o as [|[k' v'] o IH]; simpl.
  { split; [apply NoDup_singleton | repeat constructor]. }
  rewrite fmap_cons in Hnd, Hsort, Hnot. simpl in *.
  apply NoDup_cons in Hnd as [Hk' Hnd].
  apply StronglySorted_cons in Hsort as [Hall Hsort].
  apply not_elem_of_cons in Hnot as [Hne Hnot].
  assert (NoDup (k :: k' :: o.*1)) as Hnd_front.
  { apply NoDup_cons. split; [| by apply NoDup_cons].
    apply not_elem_of_cons. by split. }
  destruct (array_index k') as [m|] eqn:Hm.
  - destruct (N.ltb_spec m n) as [Hlt|Hge].
    + destruct (IH Hnd Hsort Hnot) as [Hnd' Hsort'].
      simpl. split.
      * apply NoDup_cons. split; [| done].
        intros Hin. apply (elem_of_keys_insert_index n o k v k') in Hin
          as [Heq|Hin]; [congruence | done].
      * apply StronglySorted_cons. split; [| done].
        apply Forall_forall. intros x Hx.
        apply (elem_of_keys_insert_index n o k v x) in Hx as [->|Hx].
        -- unfold key_before. by rewrite Hm, Hk.
        -- by eapply Forall_forall in Hall.
    + simpl. split; [done |].
      apply StronglySorted_cons. split;
        [| apply StronglySorted_cons; by split].
      assert (n < m)%N as Hlt.
      { assert (n ≠ m); [| lia]. intros ->. apply Hne.
        by apply (ArrayIndexFacts.array_index_inj k k' m). }
      apply Forall_cons. split.
      * unfold key_before. by rewrite Hk, Hm.
      * apply Forall_forall. intros x Hx.
        eapply Forall_forall in Hall; [| exact Hx].
        unfold key_before in *. rewrite Hk. rewrite Hm in Hall.
        destruct (array_index x); [lia | done].
  - simpl. split; [done |].
    apply StronglySorted_cons. split;
      [| apply StronglySorted_cons; by split].
    apply Forall_cons. split.
    + unfold key_before. by rewrite Hk, Hm.
    + apply Forall_forall. intros x Hx.
      eapply Forall_forall in Hall; [| exact Hx].
      unfold key_before in *. rewrite Hk. rewrite Hm in Hall.
      by destruct (array_index x).
Qed.

Lemma wf_append o k v :
  wf o → k ∉ keys o → array_index k = None → wf (o ++ [(k, v)]).
Proof.
  unfold wf, keys. intros [Hnd Hsort] Hnot Hk. rewrite fmap_app. simpl. split.
  - apply NoDup_app. repeat split; [done | | apply NoDup_singleton].
    intros x Hx Hx'. apply list_elem_of_singleton in Hx'. by subst x.
  - apply StronglySorted_app. repeat split; [| done | repeat constructor].
    intros x y Hx Hy. apply list_elem_of_singleton in Hy. subst y.
    unfold key_before. rewrite Hk. by destruct (array_index x).
Qed.

Lemma wf_define o k v : wf o → wf (define o k v).
Proof.
  intros Hwf. unfold define. destruct (has o k) eqn:Hhas.
  - unfold wf. by rewrite keys_overwrite.
  - apply has_false in Hhas.
    destruct (array_index k) as [n|] eqn:Hk;
      [by apply wf_insert_index | by apply wf_append].
Qed.

Lemma elem_of_define o k v (e : string * V) :
  e ∈ define o k v → e = (k, v) ∨ e ∈ o.
Proof.
  unfold define. destruct (has o k).
  - induction o as [|[k0 v0] o IH]; simpl; [by right |].
    destruct (String.eqb k0 k).
    + rewrite !elem_of_cons. tauto.
    + rewrite !elem_of_cons. intros [->|Hin]; [tauto |].
      destruct (IH Hin); tauto.
  - destruct (array_index k) as [n|].
    + induction o as [|[k0 v0] o IH]; simpl.
      * rewrite list_elem_of_singleton. tauto.
      * destruct (array_index k0) as [m|]; [destruct (m <? n)%N |];
          rewrite !elem_of_cons; try tauto;
          try (intros [->|Hin]; [tauto |]; destruct (IH Hin); tauto).
    + rewrite elem_of_app, list_elem_of_singleton. tauto.
Qed.

Lemma elem_of_keys_define o k v x :
  x ∈ keys (define o k v) ↔ x = k ∨ x ∈ keys o.
Proof.
  unfold define. destruct (has o k) eqn:Hhas.
  - rewrite keys_overwrite. apply has_true in Hhas.
    split; [by right | by intros [->|?]].
  - destruct (array_index k).
    + apply elem_of_keys_insert_index.
    + unfold keys. rewrite fmap_app, elem_of_app. simpl.
      rewrite list_elem_of_singleton. tauto.
Qed.

End facts.
End JsObjectDefineFacts.

(** ** The list made from a response of the service *)

Section normalize.
Import JsObject JsObjectFacts JsObjectDefineFacts.

Lemma normalizeShoppingList_from (response : ShoppingListResponse) :
  normalizeShoppingList response
  = normalizeFrom JsObject.empty (namedEntries response).
Proof.
  unfold normalizeShoppingList, normalizeFrom, namedEntries.
  generalize (@JsObject.empty (list ShoppingItem)).
  induction (default [] (shopping_list response)) as [|[entry|] l IH];
    intros start; simpl; [done | | apply IH].
  destruct (JsString.truthy (category entry)); simpl; apply IH.
Qed.

Lemma namedEntries_nonempty (response : ShoppingListResponse)
    (entry : string * list string) :
  entry ∈ namedEntries response → entry.1 ≠ "".
Proof.
  unfold namedEntries. rewrite list_elem_of_omap.
  intros ([c|] & _ & Hentry); [| done].
  destruct (JsString.truthy (category c)) eqn:Hc; [| done].
  injection Hentry as <-. simpl. by destruct (category c).
Qed.

Lemma normalizeFrom_snoc (start : ShoppingList)
    (entries : list (string * list string)) (entry : string * list string) :
  normalizeFrom start (entries ++ [entry])
  = assignProperty (normalizeFrom start entries) entry.1
      (map parseShoppingItem entry.2).
Proof. unfold normalizeFrom. by rewrite fold_left_app. Qed.

Lemma normalizeFrom_wf (entries : list (string * list string)) :
  wf (normalizeFrom JsObject.empty entries).
Proof.
  induction entries as [|entry entries IH] using rev_ind.
  - split; constructor.
  - rewrite normalizeFrom_snoc. unfold assignProperty.
    destruct (String.eqb entry.1 "__proto__"); [done | by apply wf_define].
Qed.

Lemma normalizeFrom_keys (entries : list (string * list string)) (key : string) :
  key ∈ keys (normalizeFrom JsObject.empty entries) →
  key ≠ "__proto__" ∧ ∃ texts, (key, texts) ∈ entries.
Proof.
  induction entries as [|[k texts] entries IH] using rev_ind.
  - intros Hin. by apply elem_of_nil in Hin.
  - rewrite normalizeFrom_snoc. unfold assignProperty. simpl.
    destruct (String.eqb_spec k "__proto__") as [->|Hne].
    + intros Hin. destruct (IH Hin) as (Hkey & texts' & Hin').
      split; [done |]. exists texts'. apply elem_of_app. by left.
    + intros Hin. apply elem_of_keys_define in Hin as [->|Hin].
      * split; [done |]. exists texts. apply elem_of_app. right. by left.
      * destruct (IH Hin) as (Hkey & texts' & Hin').
        split; [done |]. exists texts'. apply elem_of_app. by left.
Qed.

Lemma normalizeFrom_items (entries : list (string * list string))
    (entry : string * list ShoppingItem) :
  entry ∈ normalizeFrom JsObject.empty entries →
  ∃ texts, entry.2 = map parseShoppingItem texts.
Proof.
  induction entries as [|[k texts] entries IH] using rev_ind.
  - intros Hin. by apply elem_of_nil in Hin.
  - rewrite normalizeFrom_snoc. unfold assignProperty. simpl.
    destruct (String.eqb k "__proto__"); [done |].
    intros Hin. apply elem_of_define in Hin as [->|Hin]; [by exists texts | auto].
Qed.

Lemma last_filter_snoc {A} (P : A → Prop) `{!∀ x, Decision (P x)}
    (l : list A) (x : A) :
  last (filter P (l ++ [x]))
  = if decide (P x) then Some x else last (filter P l).
Proof.
  rewrite filter_app, filter_cons, filter_nil.
  destruct (decide (P x)); [by rewrite last_snoc | by rewrite app_nil_r].
Qed.

Lemma normalizeFrom_get (entries : list (string * list string)) (key : string) :
  get (normalizeFrom JsObject.empty entries) key
  = if decide (key = "__proto__") then None
    else (λ entry : string * list string, map parseShoppingItem entry.2)
           <$> last (filter (λ entry : string * list string, entry.1 = key)
                       entries).
Proof.
  induction entries as [|[k texts] entries IH] using rev_ind.
  - simpl. by case_decide.
  - rewrite normalizeFrom_snoc, last_filter_snoc. unfold assignProperty. simpl.
    destruct (String.eqb_spec k "__proto__") as [->|Hne].
    + rewrite IH. destruct (decide (key = "__proto__")) as [->|Hkey]; [done |].
      by rewrite decide_False by congruence.
    + rewrite get_define, IH.
      destruct (decide (k = key)) as [->|Hk]; [by rewrite decide_False |].
      done.
Qed.

End normalize.

Lemma shoppingItemsCount_unchecked (shoppingList : ShoppingList) :
  Forall (λ entry, Forall (λ x, checked x = None) entry.2) shoppingList →
  shoppingItemsCount (Some shoppingList) = totalItems (Some shoppingList).
Proof.
  intros Hall. unfold shoppingItemsCount, totalItems, JsObject.values.
  generalize 0%Z. induction Hall as [|[c items] l Hitems _ IH]; intros acc;
    [done |].
  rewrite fmap_cons. cbn [fold_left snd]. rewrite IH. do 3 f_equal.
  simpl in Hitems. unfold JsArray.filter. generalize 0.
  induction Hitems as [|x items Hx _ IHitems]; intros index; [done |].
  simpl. rewrite Hx. simpl. by rewrite IHitems.
Qed.

(** X12. Whatever the response holds, the list that
    [normalizeShoppingList] makes is the enumeration of an object: no
    category twice, array-index names first in ascending order; no category
    is named by the empty string or by ["__proto__"]. So the remaining
    items of such a list are, for every checked map, its categories in
    order, each with its unchecked items, without the empty ones. *)
Theorem normalizeShoppingList_well_formed (response : ShoppingListResponse)
    (checkedItems : gmap string bool) :
  JsObject.wf (normalizeShoppingList response)
  ∧ (∀ key, key ∈ JsObject.keys (normalizeShoppingList response) →
       key ≠ "" ∧ key ≠ "__proto__")
  ∧ getRemainingItemsByCategory (Some (normalizeShoppingList response))
      checkedItems
    = filter (λ entry, entry.2 ≠ [])
        ((λ '(category, items),
            (category, keptItems checkedItems category items))
           <$> normalizeShoppingList response).
Proof.
  rewrite normalizeShoppingList_from.
  pose proof (normalizeFrom_wf (namedEntries response)) as Hwf.
  split; [exact Hwf |]. split; [| by apply getRemaining_remainingSpec].
  intros key Hkey. apply normalizeFrom_keys in Hkey as (Hproto & texts & Hin).
  split; [| done]. by apply namedEntries_nonempty in Hin.
Qed.

(** X13. In the list made from a response a category reads the parsed items
    of the last entry of the response with its name, among the entries that
    are not null and have a non-empty name: a later entry replaces an
    earlier one and does not add to it. The name ["__proto__"] reads
    nothing. *)
Theorem normalizeShoppingList_last_entry_wins (response : ShoppingListResponse)
    (key : string) :
  JsObject.get (normalizeShoppingList response) key
  = if decide (key = "__proto__") then None
    else (λ entry : string * list string, map parseShoppingItem entry.2)
           <$> last (filter (λ entry : string * list string, entry.1 = key)
                       (namedEntries response)).
Proof. rewrite normalizeShoppingList_from. apply normalizeFrom_get. Qed.

(** X14. Every item of the list made from a response is an item made by
    [parseShoppingItem], without a [checked] field; so the dashboard's count
    of shopping items, which tests that field, is the number of all the
    items of the list, whatever has been checked in the shopping view. *)
Theorem shoppingItemsCount_counts_all (response : ShoppingListResponse) :
  (∀ key items, (key, items) ∈ normalizeShoppingList response →
     ∃ texts, items = map parseShoppingItem texts)
  ∧ shoppingItemsCount (Some (normalizeShoppingList response))
    = totalItems (Some (normalizeShoppingList response))
  ∧ shoppingItemsCount None = 0%Z.
Proof.
  rewrite normalizeShoppingList_from. split; [| split; [| done]].
  - intros key items Hin. by apply normalizeFrom_items in Hin.
  - apply shoppingItemsCount_unchecked, Forall_forall.
    intros [key items] Hin. apply normalizeFrom_items in Hin as [texts ->].
    simpl. apply Forall_forall. intros x Hx.
    apply list_elem_of_fmap in Hx as (text & -> & _).
    apply parseShoppingItem_checked.
Qed.

(** ** The planner *)

Module PlannerFacts.
Import Planner.

(** The array of a set lists what was seen, then the new elements in the
    order of their first occurrence. *)
Lemma arrayFromSetOnto_spec (seen xs : list string) :
  NoDup seen →
  ∃ news,
    arrayFromSetOnto seen xs = seen ++ news
    ∧ NoDup (seen ++ news)
    ∧ news `sublist_of` xs
    ∧ (∀ x, x ∈ xs → x ∈ seen ++ news).
Proof.
  revert seen. induction xs as [|x xs IH]; intros seen Hnd; simpl.
  - exists []. rewrite app_nil_r. repeat split; [done | done |].
    intros x Hx. inversion Hx.
  - destruct (decide (x ∈ seen)) as [Hin|Hnin].
    + destruct (IH seen Hnd) as (news & -> & Hnd' & Hsub & Hall).
      exists news. repeat split; [done | by apply sublist_cons |].
      intros y Hy. apply elem_of_cons in Hy as [->|Hy]; [| by apply Hall].
      apply elem_of_app. by left.
    + destruct (IH (seen ++ [x])) as (news & Heq & Hnd' & Hsub & Hall).
      { apply NoDup_app. repeat split; [done | | apply NoDup_singleton].
        intros y Hy Hy'. apply list_elem_of_singleton in Hy'. by subst. }
      exists (x :: news). rewrite Heq, <- !app_assoc in *. simpl in *.
      repeat split; [done | by apply sublist_skip |].
      intros y Hy. apply elem_of_cons in Hy as [->|Hy]; [| by apply Hall].
      apply elem_of_app. right. apply elem_of_cons. by left.
Qed.

Lemma NoDup_arrayFromSet (xs : list string) : NoDup (arrayFromSet xs).
Proof.
  destruct (arrayFromSetOnto_spec [] xs) as (news & Heq & Hnd & _);
    [apply NoDup_nil_2 |].
  unfold arrayFromSet. by rewrite Heq.
Qed.

Lemma arrayFromSet_sublist (xs : list string) : arrayFromSet xs `sublist_of` xs.
Proof.
  destruct (arrayFromSetOnto_spec [] xs) as (news & Heq & _ & Hsub & _);
    [apply NoDup_nil_2 |].
  unfold arrayFromSet. by rewrite Heq.
Qed.

Lemma elem_of_arrayFromSet (xs : list string) (x : string) :
  x ∈ arrayFromSet xs ↔ x ∈ xs.
Proof.
  split.
  - intros Hx. eapply elem_of_sublist; [done | apply arrayFromSet_sublist].
  - destruct (arrayFromSetOnto_spec [] xs) as (news & Heq & _ & _ & Hall);
      [apply NoDup_nil_2 |].
    unfold arrayFromSet. rewrite Heq. apply Hall.
Qed.

(** Distinct elements pass through the set unchanged. *)
Lemma arrayFromSetOnto_distinct (seen xs : list string) :
  NoDup (seen ++ xs) → arrayFromSetOnto seen xs = seen ++ xs.
Proof.
  revert seen. induction xs as [|x xs IH]; intros seen Hnd; simpl.
  - by rewrite app_nil_r.
  - rewrite decide_False.
    + rewrite IH; [by rewrite <- app_assoc | by rewrite <- app_assoc].
    + intros Hin. apply NoDup_app in Hnd as (_ & Hdisj & _).
      apply (Hdisj x Hin). apply elem_of_cons. by left.
Qed.

Lemma arrayFromSet_distinct (xs : list string) :
  NoDup xs → arrayFromSet xs = xs.
Proof. intros Hnd. by apply (arrayFromSetOnto_distinct [] xs). Qed.

Lemma getAssignedDays_currentDays (r : PlannerRecipe) :
  getAssignedDays r = arrayFromSet (currentDays r).
Proof.
  unfold getAssignedDays, currentDays.
  destruct (assignedDays r) as [[|day days]|]; try done;
    destruct (assignedDay r) as [day|]; try done;
    by destruct (JsString.truthy day).
Qed.

Lemma elem_of_getAssignedDays (r : PlannerRecipe) (day : string) :
  day ∈ getAssignedDays r ↔ day ∈ currentDays r.
Proof. rewrite getAssignedDays_currentDays. apply elem_of_arrayFromSet. Qed.

Lemma eqb_filter_spec (day : string) (days : list string) (d : string) :
  d ∈ List.filter (λ value, negb (String.eqb value day)) days
  ↔ d ∈ days ∧ d ≠ day.
Proof.
  rewrite !list_elem_of_In, filter_In, negb_true_iff.
  by rewrite String.eqb_neq.
Qed.

Lemma NoDup_eqb_filter (day : string) (days : list string) :
  NoDup days → NoDup (List.filter (λ value, negb (String.eqb value day)) days).
Proof.
  rewrite !NoDup_ListNoDup. apply List.NoDup_filter.
Qed.

Lemma currentDays_withAssignedDays (r : PlannerRecipe) (nextDays : list string) :
  nextDays ≠ [] → currentDays (withAssignedDays r nextDays) = nextDays.
Proof. unfold currentDays. simpl. by destruct nextDays. Qed.

Lemma currentDays_legacy (r : PlannerRecipe) :
  currentDays (withAssignedDays r [])
  = match assignedDay r with
    | Some day => if JsString.truthy day then [day] else []
    | None => []
    end.
Proof. done. Qed.

Lemma NoDup_currentDays_legacy (r : PlannerRecipe) :
  NoDup (currentDays (withAssignedDays r [])).
Proof.
  rewrite currentDays_legacy. destruct (assignedDay r) as [day|];
    [destruct (JsString.truthy day) |];
    auto using NoDup_nil_2, NoDup_singleton.
Qed.

End PlannerFacts.

(** X15. Whatever its arguments, [getNextAvailableDay] suggests only a day of
    the week that is not assigned yet, and only when the current day is one
    of the week days; it never reads past the array. *)
Theorem getNextAvailableDay_suggests_free_day
    (assignedDays weekDays : list string) (currentDay : string) :
  match getNextAvailableDay assignedDays weekDays currentDay with
  | Day day =>
      day ∈ weekDays ∧ (day ∉ assignedDays) ∧ currentDay ∈ weekDays
      ∧ length (remove_dups assignedDays) < length weekDays
  | Null => True
  | Undefined => False
  end.
Proof.
  rewrite getNextAvailableDay_guarded.
  destruct (decide (dayGuard assignedDays weekDays currentDay))
    as [Hguard|Hguard]; [done |].
  assert (0 < length weekDays) as Hlen.
  { destruct weekDays; [| simpl; lia]. exfalso. apply Hguard. by left. }
  assert (currentDay ∈ weekDays) as Hin.
  { apply dec_stable. intros Hnot. apply Hguard. right. by right. }
  assert (length (remove_dups assignedDays) < length weekDays) as Hroom.
  { apply Nat.nle_gt. intros Hfull. apply Hguard. right. by left. }
  destruct (indexOf_found _ _ Hin) as (s & Hs & _ & ->).
  destruct (scanDays_spec (list_to_set assignedDays) weekDays Hlen s
              (length weekDays) 1)
    as [(k & d & _ & Hd & Hfree & _ & Hres)|[_ Hres]];
    change (Z.of_nat 1) with 1%Z in Hres; rewrite Hres; [| done].
  repeat split; [| | done | done].
  - by eapply list_elem_of_lookup_2.
  - by rewrite elem_of_list_to_set in Hfree.
Qed.

(** X16. The scan ends with the current day itself: with distinct week
    days and room left, the current day is suggested exactly when it is not
    assigned while every other day of the week is. *)
Theorem getNextAvailableDay_current_day_last
    (assignedDays weekDays : list string) (currentDay : string) :
  NoDup weekDays →
  currentDay ∈ weekDays →
  length (remove_dups assignedDays) < length weekDays →
  getNextAvailableDay assignedDays weekDays currentDay = Day currentDay
  ↔ (currentDay ∉ assignedDays)
    ∧ ∀ day, day ∈ weekDays → day ≠ currentDay → day ∈ assignedDays.
Proof.
  intros Hnd Hin Hroom.
  destruct (scan_first_free assignedDays weekDays currentDay Hnd Hroom Hin)
    as (s & k & d & Hs & Hk & Hd & Hfree & Hbefore & _ & ->).
  assert (s < length weekDays) as Hslt by (by eapply lookup_lt_Some).
  split.
  - intros [= ->]. split; [done |].
    intros day Hday Hne.
    assert ((s + 1 + k) mod length weekDays = s) as Hmod
      by (by eapply NoDup_lookup).
    apply list_elem_of_lookup in Hday as [i Hi].
    assert (i < length weekDays) as Hilt by (by eapply lookup_lt_Some).
    destruct (scan_covers weekDays ltac:(lia) s i Hslt Hilt) as (j & Hj & Hji).
    assert (j ≠ k) as Hjk.
    { intros ->. rewrite Hmod in Hji. subst i.
      rewrite Hs in Hi. by injection Hi as ->. }
    assert (k = length weekDays - 1) as Hklast.
    { pose proof (Nat.div_mod_eq (s + 1 + k) (length weekDays)) as Hdiv.
      rewrite Hmod in Hdiv.
      destruct ((s + 1 + k) / length weekDays) as [|[|q]]; nia. }
    destruct (Hbefore j ltac:(lia)) as (day' & Hday' & Hassigned).
    rewrite Hji, Hi in Hday'. by injection Hday' as ->.
  - intros [Hcur Hothers]. f_equal.
    destruct (decide (d = currentDay)) as [|Hne]; [done |].
    exfalso. apply Hfree, Hothers; [| done].
    by eapply list_elem_of_lookup_2.
Qed.

Lemma getNextAvailableDay_current_day_last_witness :
  NoDup weekDays7
  ∧ "Fri" ∈ weekDays7
  ∧ length (remove_dups ["Mon"; "Tue"; "Wed"; "Thu"; "Sat"; "Sun"])
    < length weekDays7
  ∧ (getNextAvailableDay ["Mon"; "Tue"; "Wed"; "Thu"; "Sat"; "Sun"] weekDays7
       "Fri" = Day "Fri"
     ↔ ("Fri" ∉ ["Mon"; "Tue"; "Wed"; "Thu"; "Sat"; "Sun"])
       ∧ ∀ day, day ∈ weekDays7 → day ≠ "Fri" →
           day ∈ ["Mon"; "Tue"; "Wed"; "Thu"; "Sat"; "Sun"]).
Proof.
  assert (NoDup weekDays7) as Hnd
    by (apply (bool_decide_unpack _); vm_compute; exact I).
  assert ("Fri" ∈ weekDays7) as Hin
    by (apply (bool_decide_unpack _); vm_compute; exact I).
  assert (length (remove_dups ["Mon"; "Tue"; "Wed"; "Thu"; "Sat"; "Sun"])
          < length weekDays7) as Hroom by (vm_compute; lia).
  split; [exact Hnd | split; [exact Hin | split; [exact Hroom |]]].
  exact (getNextAvailableDay_current_day_last _ _ _ Hnd Hin Hroom).
Defined.

Section planner_state.
Import Planner PlannerFacts.

(** X17. [getAssignedDays] lists every day the recipe is assigned to once,
    without changing their order, and the set that [getNextAvailableDay]
    builds from the result has as many elements as the result; for a recipe
    whose days are distinct the result is the days as the handlers of the
    page read them. *)
Theorem getAssignedDays_distinct (r : PlannerRecipe) :
  NoDup (getAssignedDays r)
  ∧ (∀ day, day ∈ getAssignedDays r ↔ day ∈ currentDays r)
  ∧ getAssignedDays r `sublist_of` currentDays r
  ∧ size (list_to_set (getAssignedDays r) : gset string)
    = length (getAssignedDays r)
  ∧ (NoDup (currentDays r) → getAssignedDays r = currentDays r).
Proof.
  assert (NoDup (getAssignedDays r)) as Hnd
    by (rewrite getAssignedDays_currentDays; apply NoDup_arrayFromSet).
  split; [done |]. split; [apply elem_of_getAssignedDays |].
  split; [rewrite getAssignedDays_currentDays; apply arrayFromSet_sublist |].
  split; [by apply size_list_to_set |].
  intros Hdistinct. rewrite getAssignedDays_currentDays.
  by apply arrayFromSet_distinct.
Qed.

Lemma assignDay_absent (day : string) (r : PlannerRecipe) :
  day ∉ currentDays r →
  currentDays (assignDay day r) = currentDays r ++ [day].
Proof.
  intros Hnot. unfold assignDay. rewrite bool_decide_eq_false_2 by done.
  apply currentDays_withAssignedDays. by destruct (currentDays r).
Qed.

Lemma assignDay_present (day : string) (r : PlannerRecipe) :
  day ∈ currentDays r →
  assignDay day r
  = withAssignedDays r
      (List.filter (λ d, negb (String.eqb d day)) (currentDays r)).
Proof.
  intros Hin. unfold assignDay. by rewrite bool_decide_eq_true_2.
Qed.

Lemma eqb_filter_nil (day : string) (days : list string) :
  List.filter (λ d, negb (String.eqb d day)) days = []
  ↔ ∀ d, d ∈ days → d = day.
Proof.
  split.
  - intros Hnil d Hd. destruct (decide (d = day)) as [|Hne]; [done |].
    assert (d ∈ List.filter (λ d, negb (String.eqb d day)) days) as Hin
      by (by apply eqb_filter_spec).
    rewrite Hnil in Hin. inversion Hin.
  - intros Hall.
    destruct (List.filter (λ d, negb (String.eqb d day)) days) as [|d ds] eqn:E;
      [done |].
    assert (d ∈ List.filter (λ d, negb (String.eqb d day)) days) as Hin
      by (rewrite E; apply elem_of_cons; by left).
    apply eqb_filter_spec in Hin as [Hin Hne]. by apply Hall in Hin.
Qed.

Lemma NoDup_currentDays_assignDay (day : string) (r : PlannerRecipe) :
  NoDup (currentDays r) → NoDup (currentDays (assignDay day r)).
Proof.
  intros Hnd. destruct (decide (day ∈ currentDays r)) as [Hin|Hnot].
  - rewrite assignDay_present by done.
    destruct (List.filter (λ d, negb (String.eqb d day)) (currentDays r))
      as [|d ds] eqn:E.
    + apply NoDup_currentDays_legacy.
    + rewrite currentDays_withAssignedDays by done.
      rewrite <- E. by apply NoDup_eqb_filter.
  - rewrite assignDay_absent by done.
    apply NoDup_app. repeat split; [done | | apply NoDup_singleton].
    intros d Hd Hd'. apply list_elem_of_singleton in Hd'. by subst.
Qed.

(** X18. [handleAssignDay] keeps every recipe of the planner in its place,
    with its fields and portions, and changes only the days of the recipes
    with the given id: a day that is not among them is appended, and a day
    that is among them, beside another one, is removed in all its
    occurrences. Distinct days stay distinct. *)
Theorem handleAssignDay_toggles_day (recipeId : Z) (day : string)
    (prev : list PlannerRecipe) :
  map recipe (handleAssignDay recipeId day prev) = map recipe prev
  ∧ map portions (handleAssignDay recipeId day prev) = map portions prev
  ∧ ∀ i r, prev !! i = Some r →
      ∃ r', handleAssignDay recipeId day prev !! i = Some r'
        ∧ (id (recipe r) ≠ recipeId → r' = r)
        ∧ (id (recipe r) = recipeId →
             (day ∉ currentDays r → currentDays r' = currentDays r ++ [day])
             ∧ (day ∈ currentDays r →
                (∃ other, other ∈ currentDays r ∧ other ≠ day) →
                ∀ d, d ∈ currentDays r' ↔ d ∈ currentDays r ∧ d ≠ day)
             ∧ (NoDup (currentDays r) → NoDup (currentDays r'))).
Proof.
  unfold handleAssignDay. split; [| split].
  - rewrite <- list_fmap_compose. apply list_fmap_ext. intros _ r _. simpl.
    destruct (id (recipe r) =? recipeId)%Z; [| done].
    unfold assignDay. by destruct (bool_decide _).
  - rewrite <- list_fmap_compose. apply list_fmap_ext. intros _ r _. simpl.
    destruct (id (recipe r) =? recipeId)%Z; [| done].
    unfold assignDay. by destruct (bool_decide _).
  - intros i r Hi. rewrite list_lookup_fmap, Hi. simpl. eexists. split; [done |].
    destruct (Z.eqb_spec (id (recipe r)) recipeId) as [Heq|Hne];
      [| by split].
    split; [done |]. intros _.
    split; [apply assignDay_absent |].
    split; [| apply NoDup_currentDays_assignDay].
    intros Hin (other & Hother & Hne) d.
    rewrite assignDay_present by done.
    rewrite currentDays_withAssignedDays; [apply eqb_filter_spec |].
    rewrite eqb_filter_nil. intros Hall. by apply Hall in Hother.
Qed.

(** X19. Removing its only day from a recipe through [handleAssignDay]
    leaves the array of days empty, and then the single-day field of older
    data decides: a recipe that still carries that field stays assigned to
    the day of the field; a recipe without it becomes unassigned. *)
Theorem assignDay_only_day (day : string) (r : PlannerRecipe) :
  day ∈ currentDays r →
  (∀ d, d ∈ currentDays r → d = day) →
  assignedDays (assignDay day r) = Some []
  ∧ (∀ legacy, assignedDay r = Some legacy → legacy ≠ "" →
       currentDays (assignDay day r) = [legacy]
       ∧ getAssignedDays (assignDay day r) = [legacy])
  ∧ (assignedDay r = None ∨ assignedDay r = Some "" →
       currentDays (assignDay day r) = []
       ∧ getAssignedDays (assignDay day r) = []).
Proof.
  intros Hin Hall. rewrite assignDay_present by done.
  apply eqb_filter_nil in Hall. rewrite Hall.
  split; [done |]. split.
  - intros legacy Hlegacy Hne. rewrite getAssignedDays_currentDays.
    rewrite currentDays_legacy, Hlegacy. by destruct legacy.
  - intros Hnone. rewrite getAssignedDays_currentDays, currentDays_legacy.
    by destruct Hnone as [-> | ->].
Qed.

Lemma assignDay_only_day_witness :
  "Mon" ∈ currentDays legacyRecipe
  ∧ (∀ d, d ∈ currentDays legacyRecipe → d = "Mon")
  ∧ assignedDays (assignDay "Mon" legacyRecipe) = Some []
  ∧ (∀ legacy, assignedDay legacyRecipe = Some legacy → legacy ≠ "" →
       currentDays (assignDay "Mon" legacyRecipe) = [legacy]
       ∧ getAssignedDays (assignDay "Mon" legacyRecipe) = [legacy])
  ∧ (assignedDay legacyRecipe = None ∨ assignedDay legacyRecipe = Some "" →
       currentDays (assignDay "Mon" legacyRecipe) = []
       ∧ getAssignedDays (assignDay "Mon" legacyRecipe) = []).
Proof.
  assert ("Mon" ∈ currentDays legacyRecipe) as Hin
    by (apply elem_of_cons; by left).
  assert (∀ d, d ∈ currentDays legacyRecipe → d = "Mon") as Hall
    by (intros d Hd; by apply list_elem_of_singleton in Hd).
  exact (conj Hin (conj Hall (assignDay_only_day "Mon" legacyRecipe Hin Hall))).
Defined.

Lemma arrayFromSetOnto_snoc (seen xs : list string) (x : string) :
  x ∉ seen → x ∉ xs →
  arrayFromSetOnto seen (xs ++ [x]) = arrayFromSetOnto seen xs ++ [x].
Proof.
  revert seen. induction xs as [|y xs IH]; intros seen Hseen Hxs; simpl.
  - by rewrite decide_False.
  - apply not_elem_of_cons in Hxs as [Hne Hxs].
    destruct (decide (y ∈ seen)); [by apply IH |].
    apply IH; [| done]. intros Hin.
    apply elem_of_app in Hin as [Hin|Hin]; [done |].
    by apply list_elem_of_singleton in Hin.
Qed.

(** X20. The day that the planner view offers for a recipe, when assigned
    through [handleAssignDay], is a day of the week that the recipe did not
    have, and it is added after the recipe's days: the recipe is then shown
    on one day more. *)
Theorem assign_suggested_day (r : PlannerRecipe) (weekDays : list string)
    (currentDay day : string) :
  getNextAvailableDay (getAssignedDays r) weekDays currentDay = Day day →
  day ∈ weekDays
  ∧ (day ∉ currentDays r)
  ∧ currentDays (assignDay day r) = currentDays r ++ [day]
  ∧ getAssignedDays (assignDay day r) = getAssignedDays r ++ [day].
Proof.
  intros Hnext.
  pose proof (getNextAvailableDay_guarded (getAssignedDays r) weekDays
                currentDay) as Hguarded.
  rewrite Hnext in Hguarded.
  destruct (decide (dayGuard (getAssignedDays r) weekDays currentDay))
    as [Hguard|Hguard]; [done |].
  assert (0 < length weekDays) as Hlen.
  { destruct weekDays; [| simpl; lia]. exfalso. apply Hguard. by left. }
  assert (currentDay ∈ weekDays) as Hin.
  { apply dec_stable. intros Hnot. apply Hguard. right. by right. }
  destruct (indexOf_found _ _ Hin) as (s & Hs & _ & Hindex).
  rewrite Hindex in Hguarded.
  destruct (scanDays_spec (list_to_set (getAssignedDays r)) weekDays Hlen s
              (length weekDays) 1)
    as [(k & d & _ & Hd & Hfree & _ & Hres)|[_ Hres]];
    change (Z.of_nat 1) with 1%Z in Hres; rewrite Hres in Hguarded;
    [| done].
  injection Hguarded as ->.
  rewrite elem_of_list_to_set, elem_of_getAssignedDays in Hfree.
  split; [by eapply list_elem_of_lookup_2 |]. split; [done |].
  split; [by apply assignDay_absent |].
  rewrite !getAssignedDays_currentDays, assignDay_absent by done.
  apply arrayFromSetOnto_snoc; [| done]. intros Hnil. inversion Hnil.
Qed.

Lemma assign_suggested_day_witness :
  getNextAvailableDay (getAssignedDays legacyRecipe) weekDays7 "Mon"
  = Day "Tue"
  ∧ "Tue" ∈ weekDays7
  ∧ ("Tue" ∉ currentDays legacyRecipe)
  ∧ currentDays (assignDay "Tue" legacyRecipe)
    = currentDays legacyRecipe ++ ["Tue"]
  ∧ getAssignedDays (assignDay "Tue" legacyRecipe)
    = getAssignedDays legacyRecipe ++ ["Tue"].
Proof.
  assert (getNextAvailableDay (getAssignedDays legacyRecipe) weekDays7 "Mon"
          = Day "Tue") as Hnext by (vm_compute; reflexivity).
  exact (conj Hnext (assign_suggested_day legacyRecipe weekDays7 "Mon" "Tue"
                       Hnext)).
Defined.

Lemma find_id_Some (wanted : Z) (prev : list PlannerRecipe) :
  wanted ∈ map (λ r, id (recipe r)) prev
  → ∃ r, List.find (λ r, (id (recipe r) =? wanted)%Z) prev = Some r.
Proof.
  intros Hin. apply list_elem_of_fmap in Hin as (r & -> & Hr).
  destruct (List.find (λ r0, (id (recipe r0) =? id (recipe r))%Z) prev)
    as [found|] eqn:E; [by exists found |].
  apply list_elem_of_In in Hr.
  pose proof (find_none _ _ E r Hr) as Hnone. simpl in Hnone.
  by rewrite Z.eqb_refl in Hnone.
Qed.

Lemma find_id_None (wanted : Z) (prev : list PlannerRecipe) :
  wanted ∉ map (λ r, id (recipe r)) prev
  → List.find (λ r, (id (recipe r) =? wanted)%Z) prev = None.
Proof.
  intros Hnot.
  destruct (List.find (λ r, (id (recipe r) =? wanted)%Z) prev)
    as [found|] eqn:E; [| done].
  apply find_some in E as [Hin Heq]. apply Z.eqb_eq in Heq.
  exfalso. apply Hnot. apply list_elem_of_fmap. exists found.
  split; [done | by apply list_elem_of_In].
Qed.

(** X21. [handleAddToPlanner] adds a recipe to the planner once: a recipe
    whose id is in the planner leaves the planner as it is, and any other
    recipe is appended with two portions and no day; the recipes that were
    there stay in front, adding the same recipe again changes nothing, and
    distinct ids stay distinct. *)
Theorem handleAddToPlanner_once (added : Recipe) (prev : list PlannerRecipe) :
  prev `prefix_of` handleAddToPlanner added prev
  ∧ id added ∈ map (λ r, id (recipe r)) (handleAddToPlanner added prev)
  ∧ handleAddToPlanner added (handleAddToPlanner added prev)
    = handleAddToPlanner added prev
  ∧ (id added ∈ map (λ r, id (recipe r)) prev →
     handleAddToPlanner added prev = prev)
  ∧ (id added ∉ map (λ r, id (recipe r)) prev →
     ∃ r, handleAddToPlanner added prev = prev ++ [r]
          ∧ recipe r = added ∧ portions r = 2%Z
          ∧ currentDays r = [] ∧ getAssignedDays r = [])
  ∧ (NoDup (map (λ r, id (recipe r)) prev) →
     NoDup (map (λ r, id (recipe r)) (handleAddToPlanner added prev))).
Proof.
  destruct (decide (id added ∈ map (λ r, id (recipe r)) prev)) as [Hin|Hnot].
  - destruct (find_id_Some _ _ Hin) as [found Hfound].
    assert (handleAddToPlanner added prev = prev) as Hsame
      by (unfold handleAddToPlanner; by rewrite Hfound).
    rewrite !Hsame.
    repeat split; done.
  - pose proof (find_id_None _ _ Hnot) as Hnone.
    assert (handleAddToPlanner added prev
            = prev ++ [{| recipe := added; portions := 2;
                          assignedDays := Some []; assignedDay := None |}])
      as Hadded by (unfold handleAddToPlanner; by rewrite Hnone).
    assert (id added ∈ map (λ r, id (recipe r)) (handleAddToPlanner added prev))
      as Hnow.
    { rewrite Hadded, map_app. apply elem_of_app. right.
      apply elem_of_cons. by left. }
    split; [rewrite Hadded; by apply prefix_app_r |].
    split; [done |].
    split.
    { destruct (find_id_Some _ _ Hnow) as [found Hfound].
      unfold handleAddToPlanner at 1. by rewrite Hfound. }
    split; [done |].
    split; [intros _; by eexists |].
    intros Hnd. rewrite Hadded, map_app. apply NoDup_app.
    repeat split; [done | | apply NoDup_singleton].
    intros x Hx Hx'. apply list_elem_of_singleton in Hx'. simpl in Hx'.
    by subst.
Qed.

Lemma handleRemoveFromPlanner_cons (recipeId : Z) (day : option string)
    (r : PlannerRecipe) (prev : list PlannerRecipe) :
  handleRemoveFromPlanner recipeId day (r :: prev)
  = handleRemoveFromPlanner recipeId day [r]
    ++ handleRemoveFromPlanner recipeId day prev.
Proof. unfold handleRemoveFromPlanner. simpl. by rewrite app_nil_r. Qed.

(** What [handleRemoveFromPlanner] makes of one recipe. *)
Lemma handleRemoveFromPlanner_one (recipeId : Z) (day : option string)
    (r : PlannerRecipe) :
  handleRemoveFromPlanner recipeId day [r]
  = if decide (id (recipe r) = recipeId) then
      match day with
      | Some (String c d) =>
          match List.filter (λ value, negb (String.eqb value (String c d)))
                  (currentDays r) with
          | [] => []
          | nextDays => [withAssignedDays r nextDays]
          end
      | _ => []
      end
    else [r].
Proof.
  unfold handleRemoveFromPlanner. simpl.
  destruct (Z.eqb_spec (id (recipe r)) recipeId) as [Heq|Hne]; simpl.
  - rewrite decide_True by done. destruct day as [[|c d]|]; try done.
    simpl JsString.truthy. cbv iota.
    by destruct (List.filter _ (currentDays r)).
  - by rewrite decide_False.
Qed.

(** X22. [handleRemoveFromPlanner] leaves the recipes of other ids as they
    are and in their order. Without a day it removes every recipe of the
    given id. With a day, no recipe of that id is assigned to the day
    afterwards; a recipe that had another day stays, with its other days,
    and a recipe that had none leaves the planner. *)
Theorem handleRemoveFromPlanner_removes (recipeId : Z) (day : option string)
    (prev : list PlannerRecipe) :
  List.filter (λ r, negb (id (recipe r) =? recipeId)%Z)
    (handleRemoveFromPlanner recipeId day prev)
  = List.filter (λ r, negb (id (recipe r) =? recipeId)%Z) prev
  ∧ map recipe (handleRemoveFromPlanner recipeId day prev)
    `sublist_of` map recipe prev
  ∧ (day = None ∨ day = Some "" →
     handleRemoveFromPlanner recipeId day prev
     = List.filter (λ r, negb (id (recipe r) =? recipeId)%Z) prev)
  ∧ (∀ d r', day = Some d → d ≠ "" →
       r' ∈ handleRemoveFromPlanner recipeId day prev →
       id (recipe r') = recipeId →
       (d ∉ currentDays r') ∧ currentDays r' ≠ []
       ∧ ∃ r, r ∈ prev ∧ recipe r' = recipe r ∧ portions r' = portions r
              ∧ ∀ x, x ∈ currentDays r' ↔ x ∈ currentDays r ∧ x ≠ d)
  ∧ (∀ d r other, day = Some d → d ≠ "" → r ∈ prev →
       id (recipe r) = recipeId → other ∈ currentDays r → other ≠ d →
       ∃ r', r' ∈ handleRemoveFromPlanner recipeId day prev
             ∧ recipe r' = recipe r
             ∧ ∀ x, x ∈ currentDays r' ↔ x ∈ currentDays r ∧ x ≠ d).
Proof.
  induction prev as [|r prev (IHothers & IHsub & IHnone & IHday & IHkeep)].
  { split; [done |]. split; [done |]. split; [done |].
    split; [intros d r' _ _ Hin | intros d r other _ _ Hin]; inversion Hin. }
  rewrite handleRemoveFromPlanner_cons, handleRemoveFromPlanner_one.
  destruct (decide (id (recipe r) = recipeId)) as [Heq|Hne].
  - assert ((id (recipe r) =? recipeId)%Z = true) as Heqb
      by (by apply Z.eqb_eq).
    destruct day as [[|c d]|].
    + simpl. rewrite Heqb. simpl.
      split; [done |]. split; [by apply sublist_cons |].
      split; [intros Hnone; by apply IHnone |].
      split; by intros; simplify_eq.
    + destruct (List.filter (λ value, negb (String.eqb value (String c d)))
                  (currentDays r)) as [|next nextDays] eqn:Hnext.
      * simpl. rewrite Heqb. simpl.
        split; [done |]. split; [by apply sublist_cons |].
        split; [by intros [|] |].
        split.
        -- intros d' r' Hd' Hne' Hin Hid.
           destruct (IHday d' r' Hd' Hne' Hin Hid)
             as (Hnot & Hnonempty & r0 & Hr0 & Hrest).
           split; [done |]. split; [done |].
           exists r0. split; [by apply elem_of_cons; right | done].
        -- intros d' r0 other [= <-] Hne' Hin Hid Hother Hne''.
           apply elem_of_cons in Hin as [->|Hin];
             [| by eapply IHkeep].
           exfalso.
           assert (other ∈ []) as Hbad
             by (rewrite <- Hnext; by apply eqb_filter_spec).
           inversion Hbad.
      * assert (currentDays (withAssignedDays r (next :: nextDays))
                = next :: nextDays) as Hdays
          by (by apply currentDays_withAssignedDays).
        assert (∀ x, x ∈ next :: nextDays
                     ↔ x ∈ currentDays r ∧ x ≠ String c d) as Hmembers
          by (intros x; rewrite <- Hnext; apply eqb_filter_spec).
        simpl. rewrite Heqb. simpl.
        split; [done |]. split; [by apply sublist_skip |].
        split; [by intros [|] |].
        split.
        -- intros d' r' [= <-] Hne' Hin Hid.
           apply elem_of_cons in Hin as [->|Hin].
           ++ rewrite Hdays. split; [| split; [done |]].
              ** intros Hin. by apply Hmembers in Hin as [_ Hbad].
              ** exists r. split; [apply elem_of_cons; by left |].
                 split; [done |]. split; [done |]. exact Hmembers.
           ++ destruct (IHday _ r' eq_refl Hne' Hin Hid)
                as (Hnot & Hnonempty & r0 & Hr0 & Hrest).
              split; [done |]. split; [done |].
              exists r0. split; [by apply elem_of_cons; right | done].
        -- intros d' r0 other [= <-] Hne' Hin Hid Hother Hne''.
           apply elem_of_cons in Hin as [->|Hin].
           ++ exists (withAssignedDays r (next :: nextDays)).
              split; [apply elem_of_cons; by left |].
              split; [done |]. by rewrite Hdays.
           ++ destruct (IHkeep _ r0 other eq_refl Hne' Hin Hid Hother Hne'')
                as (r' & Hr' & Hrest).
              exists r'. split; [by apply elem_of_cons; right | done].
    + simpl. rewrite Heqb. simpl.
      split; [done |]. split; [by apply sublist_cons |].
      split; [intros Hnone; by apply IHnone |].
      split; by intros; simplify_eq.
  - assert ((id (recipe r) =? recipeId)%Z = false) as Heqb
      by (by apply Z.eqb_neq).
    simpl. rewrite Heqb. simpl.
    split; [by rewrite IHothers |]. split; [by apply sublist_skip |].
    split; [intros Hnone; by rewrite IHnone |].
    split.
    + intros d r' Hd Hne' Hin Hid.
      apply elem_of_cons in Hin as [->|Hin]; [done |].
      destruct (IHday d r' Hd Hne' Hin Hid)
        as (Hnot & Hnonempty & r0 & Hr0 & Hrest).
      split; [done |]. split; [done |].
      exists r0. split; [by apply elem_of_cons; right | done].
    + intros d r0 other Hd Hne' Hin Hid Hother Hne''.
      apply elem_of_cons in Hin as [->|Hin]; [done |].
      destruct (IHkeep d r0 other Hd Hne' Hin Hid Hother Hne'')
        as (r' & Hr' & Hrest).
      exists r'. split; [by apply elem_of_cons; right | done].
Qed.

Lemma handleRemoveFromPlanner_distinct (recipeId : Z) (day : option string)
    (prev : list PlannerRecipe) :
  Forall (λ r, NoDup (currentDays r)) prev →
  Forall (λ r, NoDup (currentDays r))
    (handleRemoveFromPlanner recipeId day prev).
Proof.
  induction 1 as [|r prev Hr Hprev IH]; [done |].
  rewrite handleRemoveFromPlanner_cons, handleRemoveFromPlanner_one.
  apply Forall_app. split; [| done].
  destruct (decide (id (recipe r) = recipeId)); [| by apply Forall_singleton].
  destruct day as [[|c d]|]; try done.
  destruct (List.filter (λ value, negb (String.eqb value (String c d)))
              (currentDays r)) as [|next nextDays] eqn:Hnext; [done |].
  apply Forall_singleton.
  rewrite currentDays_withAssignedDays by done.
  rewrite <- Hnext. by apply NoDup_eqb_filter.
Qed.

(** X23. The planner keeps the days of every recipe distinct: adding a
    recipe, assigning or unassigning a day and removing a recipe or one of
    its days preserve the property. For such a planner the set in
    [getAssignedDays] drops nothing: the view shows exactly the days that
    the handlers work on. *)
Theorem planner_days_stay_distinct (prev : list PlannerRecipe) :
  Forall (λ r, NoDup (currentDays r)) prev →
  (∀ added, Forall (λ r, NoDup (currentDays r)) (handleAddToPlanner added prev))
  ∧ (∀ recipeId day,
       Forall (λ r, NoDup (currentDays r)) (handleAssignDay recipeId day prev))
  ∧ (∀ recipeId day,
       Forall (λ r, NoDup (currentDays r))
         (handleRemoveFromPlanner recipeId day prev))
  ∧ Forall (λ r, getAssignedDays r = currentDays r) prev.
Proof.
  intros Hdistinct. split; [| split; [| split]].
  - intros added. unfold handleAddToPlanner.
    destruct (List.find _ prev); [done |].
    apply Forall_app. split; [done |].
    apply Forall_singleton. apply NoDup_nil_2.
  - intros recipeId day. unfold handleAssignDay.
    apply Forall_fmap. eapply Forall_impl; [exact Hdistinct |].
    intros r Hr. simpl. destruct (id (recipe r) =? recipeId)%Z; [| done].
    by apply NoDup_currentDays_assignDay.
  - intros recipeId day. by apply handleRemoveFromPlanner_distinct.
  - eapply Forall_impl; [exact Hdistinct |].
    intros r Hr. rewrite getAssignedDays_currentDays.
    by apply arrayFromSet_distinct.
Qed.

Lemma planner_days_stay_distinct_witness :
  Forall (λ r, NoDup (currentDays r)) [legacyRecipe]
  ∧ (∀ added,
       Forall (λ r, NoDup (currentDays r))
         (handleAddToPlanner added [legacyRecipe]))
  ∧ (∀ recipeId day,
       Forall (λ r, NoDup (currentDays r))
         (handleAssignDay recipeId day [legacyRecipe]))
  ∧ (∀ recipeId day,
       Forall (λ r, NoDup (currentDays r))
         (handleRemoveFromPlanner recipeId day [legacyRecipe]))
  ∧ Forall (λ r, getAssignedDays r = currentDays r) [legacyRecipe].
Proof.
  assert (Forall (λ r, NoDup (currentDays r)) [legacyRecipe]) as Hdistinct
    by (apply Forall_singleton; apply NoDup_singleton).
  exact (conj Hdistinct (planner_days_stay_distinct [legacyRecipe] Hdistinct)).
Defined.

Lemma fold_left_add_acc {A} (f : A → Z) (xs : list A) (acc : Z) :
  fold_left (λ acc x, (acc + f x)%Z) xs acc
  = (acc + fold_left (λ acc x, (acc + f x)%Z) xs 0)%Z.
Proof.
  revert acc. induction xs as [|x xs IH]; intros acc; simpl; [lia |].
  rewrite IH, (IH (0 + f x)%Z). lia.
Qed.

Lemma length_arrayFromSet (xs : list string) :
  length (arrayFromSet xs) ≤ length xs
  ∧ (xs ≠ [] → arrayFromSet xs ≠ []).
Proof.
  split; [apply sublist_length, arrayFromSet_sublist |].
  destruct xs as [|x xs]; [done |]. intros _ Hnil.
  assert (x ∈ arrayFromSet (x :: xs)) as Hin
    by (apply elem_of_arrayFromSet, elem_of_cons; by left).
  rewrite Hnil in Hin. inversion Hin.
Qed.

(** The days that [plannedMealsCount] counts for a recipe, and the days that
    [getAssignedDays] gives for it. *)
Lemma shown_days_le_counted (r : PlannerRecipe) :
  1 ≤ max 1 (length (getAssignedDays r))
  ∧ max 1 (length (getAssignedDays r))
    ≤ max 1 (length (default [] (assignedDays r)))
  ∧ (NoDup (default [] (assignedDays r)) →
     max 1 (length (getAssignedDays r))
     = max 1 (length (default [] (assignedDays r)))).
Proof.
  unfold getAssignedDays.
  destruct (assignedDays r) as [[|day days]|].
  - split; [lia |]. split; [| intros _];
      destruct (assignedDay r) as [legacy|];
      try destruct (JsString.truthy legacy); simpl; lia.
  - destruct (length_arrayFromSet (day :: days)) as [Hle _].
    split; [lia |]. split; [simpl in *; lia |].
    simpl. intros Hnd. by rewrite arrayFromSet_distinct.
  - split; [lia |]. split; [| intros _];
      destruct (assignedDay r) as [legacy|];
      try destruct (JsString.truthy legacy); simpl; lia.
Qed.

Lemma plannedMealsCount_sum (plannerRecipes : list PlannerRecipe) :
  plannedMealsCount plannerRecipes
  = Z.of_nat
      (sum_list_with (λ r, max 1 (length (default [] (assignedDays r))))
         plannerRecipes).
Proof.
  unfold plannedMealsCount.
  induction plannerRecipes as [|r rs IH]; [done |].
  cbn [fold_left sum_list_with].
  rewrite (fold_left_add_acc
             (λ r, match assignedDays r with
                   | Some (day :: days) => Z.of_nat (length (day :: days))
                   | _ => 1%Z
                   end) rs).
  rewrite IH, Nat2Z.inj_add.
  destruct (assignedDays r) as [[|day days]|]; simpl; lia.
Qed.

(** X24. The dashboard's count of planned meals counts every recipe of the
    planner at least once: a recipe counts as many times as its array of
    days is long, and once when it has no such array or an empty one, also
    when it carries the single day of older data. The count is never less
    than the number of days that [getAssignedDays] gives for the recipes,
    with one for a recipe for which it gives none, and it is that number
    when no recipe lists a day twice. *)
Theorem plannedMealsCount_counts_days (plannerRecipes : list PlannerRecipe) :
  plannedMealsCount plannerRecipes
  = Z.of_nat
      (sum_list_with (λ r, max 1 (length (default [] (assignedDays r))))
         plannerRecipes)
  ∧ (Z.of_nat (length plannerRecipes) ≤ plannedMealsCount plannerRecipes)%Z
  ∧ (Z.of_nat
       (sum_list_with (λ r, max 1 (length (getAssignedDays r))) plannerRecipes)
     ≤ plannedMealsCount plannerRecipes)%Z
  ∧ (Forall (λ r, NoDup (default [] (assignedDays r))) plannerRecipes →
     plannedMealsCount plannerRecipes
     = Z.of_nat
         (sum_list_with (λ r, max 1 (length (getAssignedDays r)))
            plannerRecipes)).
Proof.
  rewrite plannedMealsCount_sum. split; [done |].
  induction plannerRecipes as [|r rs (IHcount & IHshown & IHsame)].
  { split; [done |]. split; [done |]. by intros _. }
  cbn [length sum_list_with].
  destruct (shown_days_le_counted r) as (Hone & Hle & Hsame).
  split; [lia |]. split; [lia |].
  intros Hall. apply Forall_cons in Hall as [Hnd Hall].
  specialize (IHsame Hall). specialize (Hsame Hnd). lia.
Qed.

(** X25. In [getWeekDays], for today's day of the week as [Date.getDay]
    gives it and each of the seven columns, the days added to today are at
    most six and lead to the day of the week of the column; they are none
    exactly for today's column, and no two columns get the same date. *)
Theorem daysToAdd_next_occurrence (currentDayOfWeek i : Z) :
  (0 ≤ currentDayOfWeek ≤ 6)%Z →
  (0 ≤ i ≤ 6)%Z →
  (0 ≤ daysToAdd currentDayOfWeek i ≤ 6)%Z
  ∧ ((currentDayOfWeek + daysToAdd currentDayOfWeek i) mod 7
     = targetDayOfWeek i)%Z
  ∧ (daysToAdd currentDayOfWeek i = 0%Z
     ↔ targetDayOfWeek i = currentDayOfWeek)
  ∧ (∀ j, (0 ≤ j ≤ 6)%Z →
       daysToAdd currentDayOfWeek j = daysToAdd currentDayOfWeek i → j = i).
Proof.
  intros Hcur Hi.
  assert (∀ j, (0 ≤ j ≤ 6)%Z →
            (0 ≤ daysToAdd currentDayOfWeek j ≤ 6)%Z
            ∧ ((currentDayOfWeek + daysToAdd currentDayOfWeek j) mod 7
               = targetDayOfWeek j)%Z
            ∧ (0 ≤ targetDayOfWeek j ≤ 6)%Z
            ∧ (targetDayOfWeek j = 0 ↔ j = 6)%Z
            ∧ (targetDayOfWeek j ≠ 0 → targetDayOfWeek j = j + 1)%Z)
    as Hcolumn.
  { intros j Hj.
    assert (currentDayOfWeek = 0 ∨ currentDayOfWeek = 1 ∨ currentDayOfWeek = 2
            ∨ currentDayOfWeek = 3 ∨ currentDayOfWeek = 4
            ∨ currentDayOfWeek = 5 ∨ currentDayOfWeek = 6)%Z as Hcases by lia.
    assert (j = 0 ∨ j = 1 ∨ j = 2 ∨ j = 3 ∨ j = 4 ∨ j = 5 ∨ j = 6)%Z
      as Hcolumns by lia.
    clear Hcur Hi Hj.
    destruct Hcases as [->|[->|[->|[->|[->|[->| ->]]]]]];
      destruct Hcolumns as [->|[->|[->|[->|[->|[->| ->]]]]]];
      vm_compute; repeat split; congruence. }
  destruct (Hcolumn i Hi) as (Hrange & Hmod & Htarget & Hsunday & Hother).
  split; [done |]. split; [done |]. split.
  - split.
    + intros Hzero. rewrite Hzero, Z.add_0_r in Hmod.
      rewrite Z.mod_small in Hmod by lia. done.
    + intros Hsame.
      pose proof (Z.div_mod (currentDayOfWeek + daysToAdd currentDayOfWeek i)
                    7 ltac:(lia)) as Hdiv.
      rewrite Hmod, Hsame in Hdiv. lia.
  - intros j Hj Hsame.
    destruct (Hcolumn j Hj) as (_ & Hmod' & Htarget' & Hsunday' & Hother').
    rewrite Hsame, Hmod in Hmod'.
    destruct (decide (targetDayOfWeek i = 0%Z)) as [Hz|Hnz].
    + rewrite Hz in Hmod'. symmetry in Hmod'.
      apply Hsunday' in Hmod'. apply Hsunday in Hz. lia.
    + assert (targetDayOfWeek j ≠ 0%Z) as Hnz' by congruence.
      apply Hother in Hnz. apply Hother' in Hnz'. lia.
Qed.

Lemma daysToAdd_next_occurrence_witness :
  (0 ≤ 3 ≤ 6)%Z
  ∧ (0 ≤ 0 ≤ 6)%Z
  ∧ (0 ≤ daysToAdd 3 0 ≤ 6)%Z
  ∧ ((3 + daysToAdd 3 0) mod 7 = targetDayOfWeek 0)%Z
  ∧ (daysToAdd 3 0 = 0%Z ↔ targetDayOfWeek 0 = 3%Z)
  ∧ (∀ j, (0 ≤ j ≤ 6)%Z → daysToAdd 3 j = daysToAdd 3 0 → j = 0%Z).
Proof.
  assert (0 ≤ 3 ≤ 6)%Z as Hcur by lia.
  assert (0 ≤ 0 ≤ 6)%Z as Hi by lia.
  exact (conj Hcur (conj Hi (daysToAdd_next_occurrence 3 0 Hcur Hi))).
Defined.

End planner_state.

(** ** Reading back an item written as name and amount *)

Section round_trip.
Import JsString JsStringFacts TrimFacts.

Ltac split_tests :=
  repeat match goal with
         | |- context [(N_of_ascii ?x =? ?n)%N] =>
             destruct (N_of_ascii x =? n)%N
         | |- context [(?n <=? N_of_ascii ?x)%N] =>
             destruct (n <=? N_of_ascii x)%N
         | |- context [(N_of_ascii ?x <=? ?n)%N] =>
             destruct (N_of_ascii x <=? n)%N
         end; reflexivity.

Lemma trim_fixed (s : string) : trim s = s → trimStart s = s ∧ trimEnd s = s.
Proof.
  intros Hfix.
  destruct (trimStart_decompose s) as (d & Hs & _).
  destruct (trimEnd_decompose (trimStart s)) as (d' & Hs' & _).
  change (trimEnd (trimStart s)) with (trim s) in Hs'. rewrite Hfix in Hs'.
  pose proof (f_equal String.length Hs) as Hlen.
  pose proof (f_equal String.length Hs') as Hlen'.
  rewrite length_append in Hlen, Hlen'.
  assert (d = "") as -> by (destruct d; [done | simpl in Hlen; lia]).
  rewrite append_nil_l in Hs. split; [done |].
  rewrite Hs at 1. exact Hfix.
Qed.

Lemma space_not_second (c1 c3 : ascii) :
  ws2 c1 " " = false ∧ ws3 c1 " " c3 = false ∧ ws3 c1 c3 " " = false.
Proof. unfold ws2, ws3, code. simpl. repeat split; split_tests. Qed.

(** A trimmed name stays at the front when a space follows it. *)
Lemma trimStart_before_space (n y : string) :
  trimStart n = n → n ≠ "" →
  trimStart (n +:+ String " " y) = n +:+ String " " y.
Proof.
  intros Hfix Hne. destruct n as [|c1 r]; [done |].
  destruct (strip_fixed_head ws1 ws2 ws3 c1 r Hfix) as [H1 H2].
  unfold trimStart. rewrite append_cons, strip_unfold, H1.
  destruct r as [|c2 r2].
  - rewrite append_nil_l.
    destruct (space_not_second c1 " ") as (-> & _).
    destruct y as [|c3 y]; [done |].
    by destruct (space_not_second c1 c3) as (_ & -> & _).
  - destruct (H2 c2 r2 eq_refl) as [H2' H3]. rewrite append_cons, H2'.
    destruct r2 as [|c3 r3].
    + rewrite append_nil_l.
      by destruct (space_not_second c1 c2) as (_ & _ & ->).
    + rewrite append_cons. by rewrite (H3 c3 r3 eq_refl).
Qed.

Lemma close_stops_ws1 : ws1 ")" = false.
Proof. reflexivity. Qed.

Lemma close_stops_ws2 (c : ascii) :
  (λ c2 c1, ws2 c1 c2) ")"%char c = false
  ∧ (λ c2 c1, ws2 c1 c2) c ")"%char = false.
Proof. unfold ws2, code. simpl. split; [apply andb_false_r | done]. Qed.

Lemma close_stops_ws3 (c c' : ascii) :
  (λ c3 c2 c1, ws3 c1 c2 c3) ")"%char c c' = false
  ∧ (λ c3 c2 c1, ws3 c1 c2 c3) c ")"%char c' = false
  ∧ (λ c3 c2 c1, ws3 c1 c2 c3) c c' ")"%char = false.
Proof. unfold ws3, code. simpl. repeat split; split_tests. Qed.

(** A closing parenthesis at the end stops [trimEnd]. *)
Lemma trimEnd_close (y : string) :
  trimEnd (y +:+ ")") = y +:+ ")".
Proof.
  unfold trimEnd. rewrite rev_append.
  change (String.rev ")") with ")".
  rewrite append_cons, append_nil_l.
  rewrite (strip_at_stop ws1 (λ c2 c1, ws2 c1 c2) (λ c3 c2 c1, ws3 c1 c2 c3)
             ")" close_stops_ws1 close_stops_ws2 close_stops_ws3).
  change (String ")" (String.rev y)) with (")" +:+ String.rev y).
  by rewrite rev_append, rev_involutive.
Qed.

Lemma trimEnd_space (n : string) : trimEnd (n +:+ " ") = trimEnd n.
Proof.
  unfold trimEnd. rewrite rev_append.
  change (String.rev " ") with " ".
  by rewrite append_cons, append_nil_l, strip_unfold.
Qed.

Lemma open_stops_ws1 : ws1 "(" = false.
Proof. reflexivity. Qed.

Lemma open_stops_ws2 (c : ascii) :
  ws2 "("%char c = false ∧ ws2 c "("%char = false.
Proof. unfold ws2, code. simpl. split; [done | apply andb_false_r]. Qed.

Lemma open_stops_ws3 (c c' : ascii) :
  ws3 "("%char c c' = false ∧ ws3 c "("%char c' = false
  ∧ ws3 c c' "("%char = false.
Proof. unfold ws3, code. simpl. repeat split; split_tests. Qed.

Lemma matchItemFrom_cons (group1 : string) (c : ascii) (s' : string) :
  matchItemFrom group1 (String c s')
  = match (if startsWithLineTerminator (String c s') then None
           else matchItemFrom (group1 +:+ String c "") s') with
    | Some groups => Some groups
    | None =>
        if isOpenParen c
        then match amountGroup s' with
             | Some group2 => Some (group1, group2)
             | None => None
             end
        else None
    end.
Proof. reflexivity. Qed.

(** Without an opening parenthesis there is no match. *)
Lemma matchItemFrom_no_open (group1 s : string) :
  hasParen s = false → matchItemFrom group1 (s +:+ ")") = None.
Proof.
  revert group1. induction s as [|c s IH]; intros group1 Hno.
  - rewrite append_nil_l, matchItemFrom_cons. simpl.
    by destruct (startsWithLineTerminator ")").
  - simpl in Hno. apply orb_false_elim in Hno as [Hc Hno].
    apply orb_false_elim in Hc as [Hopen _].
    rewrite append_cons, matchItemFrom_cons, Hopen, (IH _ Hno).
    by destruct (startsWithLineTerminator _).
Qed.

Lemma spanNotClose_amount (a tail : string) :
  hasParen a = false →
  spanNotClose (a +:+ String ")" tail) = (a, String ")" tail).
Proof.
  induction a as [|c a IH]; intros Hno; [done |].
  simpl in Hno. apply orb_false_elim in Hno as [Hc Hno].
  apply orb_false_elim in Hc as [_ Hclose].
  rewrite append_cons. simpl. by rewrite Hclose, (IH Hno).
Qed.

Lemma amountGroup_amount (a : string) :
  a ≠ "" → hasParen a = false → amountGroup (a +:+ ")") = Some a.
Proof.
  intros Hne Hno. unfold amountGroup. rewrite spanNotClose_amount by done.
  by destruct a.
Qed.

Lemma matchItemFrom_open (group1 a : string) :
  a ≠ "" → hasParen a = false →
  matchItemFrom group1 (String "(" (a +:+ ")")) = Some (group1, a).
Proof.
  intros Hne Hno.
  rewrite matchItemFrom_cons, matchItemFrom_no_open by done.
  rewrite amountGroup_amount by done.
  by destruct (startsWithLineTerminator _).
Qed.

Lemma startsWithLineTerminator_other (c : ascii) (s : string) :
  (code c =? 10)%N = false → (code c =? 13)%N = false →
  (code c =? 226)%N = false →
  startsWithLineTerminator (String c s) = false.
Proof.
  intros H10 H13 H226. unfold startsWithLineTerminator.
  rewrite H10, H13, H226. by destruct s as [|c2 [|c3 s3]].
Qed.

Lemma startsWithLineTerminator_before_space (c1 : ascii) (r y : string) :
  startsWithLineTerminator (String c1 r) = false →
  startsWithLineTerminator (String c1 r +:+ String " " y) = false.
Proof.
  unfold startsWithLineTerminator. rewrite append_cons.
  intros Hstart. apply orb_false_elim in Hstart as [Hbyte Hthree].
  rewrite Hbyte. rewrite orb_false_l.
  destruct r as [|c2 [|c3 r3]]; rewrite ?append_cons, ?append_nil_l.
  - destruct y; [done |]. unfold code. simpl.
    by rewrite andb_false_r.
  - unfold code. simpl. by rewrite andb_false_r.
  - exact Hthree.
Qed.

(** The pattern finds the last opening parenthesis of a text that ends with
    a space, a parenthesised amount and nothing more. *)
Lemma matchItemFrom_round (group1 m a : string) :
  hasLineTerminator m = false → a ≠ "" → hasParen a = false →
  matchItemFrom group1 (m +:+ String " " (String "(" (a +:+ ")")))
  = Some (group1 +:+ m +:+ " ", a).
Proof.
  intros Hm Hne Hno. revert group1 Hm.
  induction m as [|c m IH]; intros group1 Hm.
  - rewrite !append_nil_l, matchItemFrom_cons.
    rewrite startsWithLineTerminator_other by done.
    by rewrite matchItemFrom_open.
  - simpl in Hm. apply orb_false_elim in Hm as [Hstart Hm].
    pose proof (startsWithLineTerminator_before_space c m
                  (String "(" (a +:+ ")")) Hstart) as Hhere.
    rewrite append_cons in Hhere |- *.
    rewrite matchItemFrom_cons, Hhere, (IH _ Hm).
    by rewrite append_assoc, append_cons, append_nil_l.
Qed.

Lemma parseShoppingItem_written (n a : string) :
  trim n = n → trim a = a → a ≠ "" →
  hasLineTerminator n = false → hasParen a = false →
  parseShoppingItem (n +:+ String " " (String "(" (a +:+ ")")))
  = {| name := n; amount := a; checked := None |}.
Proof.
  intros Hn Ha Hne Hterm Hparen.
  destruct (trim_fixed n Hn) as [Hstart Hend].
  unfold parseShoppingItem. destruct (decide (n = "")) as [->|Hnonempty].
  - rewrite append_nil_l.
    assert (trim (String " " (String "(" (a +:+ ")")))
            = String "(" (a +:+ ")")) as ->.
    { unfold trim, trimStart. rewrite strip_unfold.
      change (ws1 " ") with true. cbv iota.
      rewrite (strip_at_stop ws1 ws2 ws3 "(" open_stops_ws1 open_stops_ws2
                 open_stops_ws3).
      change (String "(" (a +:+ ")")) with (("(" +:+ a) +:+ ")").
      apply trimEnd_close. }
    unfold matchItem. rewrite matchItemFrom_open by done.
    by rewrite Ha.
  - assert (trim (n +:+ String " " (String "(" (a +:+ ")")))
            = n +:+ String " " (String "(" (a +:+ ")"))) as ->.
    { unfold trim. rewrite trimStart_before_space by done.
      change (String " " (String "(" (a +:+ ")")))
        with (String " " (String "(" a) +:+ ")").
      rewrite <- append_assoc. apply trimEnd_close. }
    unfold matchItem. rewrite matchItemFrom_round by done.
    rewrite append_nil_l, Ha. f_equal.
    unfold trim. change (n +:+ " ") with (n +:+ String " " "").
    rewrite trimStart_before_space by done.
    change (n +:+ String " " "") with (n +:+ " ").
    by rewrite trimEnd_space.
Qed.

(** X26. An item written as a trimmed name without line terminators, a
    space and a trimmed, non-empty amount without parentheses in
    parentheses is read by [parseShoppingItem] as that name and that amount;
    and the line of the share text for the item that was read is the text
    that was written after the dash. *)
Theorem parseShoppingItem_round_trip (n a : string) :
  JsString.trim n = n →
  JsString.trim a = a →
  a ≠ "" →
  hasLineTerminator n = false →
  hasParen a = false →
  parseShoppingItem (n +:+ " (" +:+ a +:+ ")")
  = {| name := n; amount := a; checked := None |}
  ∧ shareItemLine (parseShoppingItem (n +:+ " (" +:+ a +:+ ")"))
    = "- " +:+ n +:+ " (" +:+ a +:+ ")".
Proof.
  intros Hn Ha Hne Hterm Hparen.
  change (n +:+ " (" +:+ a +:+ ")")
    with (n +:+ String " " (String "(" (a +:+ ")"))).
  rewrite parseShoppingItem_written by done.
  split; [done |]. unfold shareItemLine. simpl. by destruct a.
Qed.

Lemma parseShoppingItem_round_trip_witness :
  JsString.trim "Mleko 2%" = "Mleko 2%"
  ∧ JsString.trim "2 l" = "2 l"
  ∧ "2 l" ≠ ""
  ∧ hasLineTerminator "Mleko 2%" = false
  ∧ hasParen "2 l" = false
  ∧ parseShoppingItem ("Mleko 2%" +:+ " (" +:+ "2 l" +:+ ")")
    = {| name := "Mleko 2%"; amount := "2 l"; checked := None |}
  ∧ shareItemLine (parseShoppingItem ("Mleko 2%" +:+ " (" +:+ "2 l" +:+ ")"))
    = "- " +:+ "Mleko 2%" +:+ " (" +:+ "2 l" +:+ ")".
Proof.
  assert (JsString.trim "Mleko 2%" = "Mleko 2%") as Hn by reflexivity.
  assert (JsString.trim "2 l" = "2 l") as Ha by reflexivity.
  assert ("2 l" ≠ "") as Hne by discriminate.
  assert (hasLineTerminator "Mleko 2%" = false) as Hterm by reflexivity.
  assert (hasParen "2 l" = false) as Hparen by reflexivity.
  exact (conj Hn (conj Ha (conj Hne (conj Hterm (conj Hparen
           (parseShoppingItem_round_trip "Mleko 2%" "2 l" Hn Ha Hne Hterm
              Hparen)))))).
Defined.

End round_trip.

(** ** The layout of the share text *)

Section share_text.
Import JsString JsStringFacts TrimFacts.

(** [join] puts the separator before each line after the first. *)
Lemma join_LF_foldr (x : string) (rest : list string) :
  join LF (x :: rest)
  = x +:+ foldr (λ line text, String "010" (line +:+ text)) "" rest.
Proof.
  revert x. induction rest as [|y rest IH]; intros x.
  - simpl. by rewrite append_nil_r.
  - change (join LF (x :: y :: rest)) with (x +:+ LF +:+ join LF (y :: rest)).
    rewrite IH. reflexivity.
Qed.

Lemma shareLines_nonEmpty (remaining : RemainingItemsByCategory) :
  shareLines remaining
  = shareHeader
    :: (remaining ≫= (λ '(category, items),
                        "" :: category :: (shareItemLineNonEmpty <$> items))).
Proof.
  rewrite shareLines_shareLinesSpec. unfold shareLinesSpec. f_equal.
  induction remaining as [|[c items] r IH]; [done |].
  rewrite !bind_cons, IH. do 3 f_equal.
  apply list_fmap_ext. intros _ y _. apply shareItemLine_nonEmpty.
Qed.

Lemma join_shareLines (remaining : RemainingItemsByCategory) :
  join LF (shareLines remaining) = shareTextLayout remaining.
Proof. by rewrite shareLines_nonEmpty, join_LF_foldr. Qed.

(** No white-space character starts with the first byte of the header. *)
Lemma header_not_blank (front tail rest : string) :
  shareHeader +:+ rest = front +:+ tail → whitespace front → front = "".
Proof.
  intros Heq Hfront.
  destruct Hfront as [|c1 s H1 _|c1 c2 s H2 _|c1 c2 c3 s H3 _]; [done | | |];
    unfold shareHeader in Heq; rewrite !append_cons in Heq;
    injection Heq as <- _.
  - done.
  - done.
  - unfold ws3, code in H3. simpl in H3. done.
Qed.

(** C9. The share text is the layout of the specification, that is the
    header line and, for each category in order, an empty line, the name of
    the category and its item lines, each after a line feed, without the
    white space that ends it. The text begins with the header; it neither
    ends nor begins with a white-space character; for the empty mapping it is
    the header alone. *)
Theorem buildShareText_layout (remaining : RemainingItemsByCategory) :
  (∃ dropped,
     shareTextLayout remaining = buildShareText remaining +:+ dropped
     ∧ JsString.whitespace dropped)
  ∧ (∃ rest, buildShareText remaining = shareHeader +:+ rest)
  ∧ (∀ front tail, buildShareText remaining = front +:+ tail →
       JsString.whitespace tail → tail = "")
  ∧ (∀ front tail, buildShareText remaining = front +:+ tail →
       JsString.whitespace front → front = "")
  ∧ buildShareText JsObject.empty = shareHeader.
Proof.
  assert (trimEnd (buildShareText remaining) = buildShareText remaining)
    as Hfixed by apply trim_trimEnd_fixed.
  unfold buildShareText in *. rewrite join_shareLines in *.
  unfold shareTextLayout in *.
  destruct (trim_header
              (foldr (λ line text, String "010" (line +:+ text)) ""
                 (remaining ≫= (λ '(category, items),
                    "" :: category :: (shareItemLineNonEmpty <$> items)))))
    as (rest & dropped & Hsplit & Hblank & Htrim).
  rewrite Htrim in *.
  split; [| split; [| split; [| split]]].
  - exists dropped. split; [| done]. by rewrite Hsplit, append_assoc.
  - by exists rest.
  - intros front tail Heq Htail. rewrite Heq in Hfixed.
    by eapply trimEnd_fixed_no_blank_tail.
  - intros front tail Heq Hfront. by eapply header_not_blank.
  - vm_compute. reflexivity.
Qed.

End share_text.
